(** * YAML-to-Cluster: the program generator and the binary encoder

  A shallow embedding of [src/dfg_processor.cpp] (stage 1: the per-PE
  assembly generator) and of [src/risc_v_assembler.cpp] (stage 2: the
  assembler and the memory-image writer), followed by the properties of
  the immediate codec, the address planner, the program emitter, the
  instruction encoder and the memory-image builder.

  Conventions.
  - A C++ [int] is a [Z] in the range of [Int32.in_range]; arithmetic that
    can leave that range is written with [Int32.wrap].  Masks and shifts
    are [Z.land], [Z.lor], [Z.shiftl], [Z.shiftr]: on [Z] they act on the
    infinite two's-complement expansion, which agrees with the 32-bit
    operation on every representable value.
  - A [std::string] is a [string]; text appended line by line to a file or
    to a string buffer is the list of its lines.
  - A [std::map] that the code iterates is the list of its entries in
    iteration (key) order; [operator[]] on an absent key reads the
    default value.  A [std::map] that is only searched and overwritten is
    a [gmap].
  - A thrown exception and an undefined vector access are values of
    [result]. *)

From Stdlib Require Import ZArith List String Ascii Bool Lia.
From stdpp Require Import gmap strings pretty sorting.

Local Open Scope string_scope.
Local Open Scope Z_scope.

(** ** 32-bit integers *)

Module Int32.

Definition min_signed : Z := - 2 ^ 31.
Definition max_signed : Z := 2 ^ 31 - 1.
Definition modulus : Z := 2 ^ 32.

Definition in_range (z : Z) : Prop := min_signed <= z <= max_signed.

(** The value of a 32-bit pattern read as a signed [int]. *)
Definition wrap (z : Z) : Z := (z + 2 ^ 31) mod 2 ^ 32 - 2 ^ 31.

(** The value of a 32-bit pattern read as a [uint32_t]. *)
Definition to_unsigned (z : Z) : Z := z mod 2 ^ 32.

Definition add (a b : Z) : Z := wrap (a + b).
Definition sub (a b : Z) : Z := wrap (a - b).
Definition mul (a b : Z) : Z := wrap (a * b).
Definition shl (a n : Z) : Z := wrap (Z.shiftl a n).

End Int32.

(** ** Errors *)

Inductive error : Type :=
| InvalidArgument   (* std::invalid_argument thrown by std::stoi / std::stoul *)
| OutOfRange        (* std::out_of_range thrown by std::stoi *)
| UndefinedAccess   (* std::vector::operator[] past the end *)
| DivisionByZero.   (* integer division or remainder by zero *)

Inductive result (A : Type) : Type :=
| Ok (a : A)
| Err (e : error).
Arguments Ok {A} a.
Arguments Err {A} e.

#[global] Instance result_ret : MRet result := fun _ a => Ok a.

#[global] Instance result_bind : MBind result := fun _ _ k r =>
match r with
| Ok a => k a
| Err e => Err e
end.

(** ** Characters, numbers and text *)

Module Text.

Definition nl : string := String (ascii_of_N 10) "".

(** [std::to_string] on an integer. *)
Definition to_string (z : Z) : string := pretty z.

(** The characters of [isspace], which are also the set
    [" \t\n\r\f\v"] that [trim_string] strips. *)
Definition is_space (c : ascii) : bool :=
  let n := N_of_ascii c in ((n =? 32) || ((9 <=? n) && (n <=? 13)))%N.

Definition is_digit (c : ascii) : bool :=
  let n := N_of_ascii c in ((48 <=? n) && (n <=? 57))%N.

Definition digit_value (c : ascii) : Z := Z.of_N (N_of_ascii c) - 48.

Fixpoint skip_spaces (s : string) : string :=
  match s with
  | String c r => if is_space c then skip_spaces r else s
  | EmptyString => s
  end.

(** The value of the longest prefix of decimal digits. *)
Fixpoint decimal_prefix (s : string) (acc : Z) : Z :=
  match s with
  | String c r =>
      if is_digit c then decimal_prefix r (10 * acc + digit_value c) else acc
  | EmptyString => acc
  end.

(** [std::stoi]: leading white space, an optional sign, then the longest
    run of digits; whatever follows is ignored. *)
Definition stoi (str : string) : result Z :=
  let s := skip_spaces str in
  let '(negative, s) :=
    match s with
    | String "-" r => (true, r)
    | String "+" r => (false, r)
    | _ => (false, s)
    end in
  match s with
  | String c _ =>
      if is_digit c then
        let v := decimal_prefix s 0 in
        let v := if negative then - v else v in
        if (Int32.min_signed <=? v) && (v <=? Int32.max_signed)
        then Ok v else Err OutOfRange
      else Err InvalidArgument
  | EmptyString => Err InvalidArgument
  end.

(** [str.substr(pos)], which throws when [pos] is past the end. *)
Definition substr_from (pos : nat) (str : string) : result string :=
  if (pos <=? String.length str)%nat
  then Ok (substring pos (String.length str - pos) str)
  else Err OutOfRange.

Definition tolower_char (c : ascii) : ascii :=
  let n := N_of_ascii c in
  if ((65 <=? n) && (n <=? 90))%N then ascii_of_N (n + 32) else c.

Fixpoint tolower (s : string) : string :=
  match s with
  | String c r => String (tolower_char c) (tolower r)
  | EmptyString => EmptyString
  end.

Definition hex_digit (uppercase : bool) (d : Z) : ascii :=
  if d <? 10 then ascii_of_N (Z.to_N (48 + d))
  else ascii_of_N (Z.to_N ((if uppercase then 55 else 87) + d)).

Fixpoint hex_go (fuel : nat) (uppercase : bool) (n : Z) (acc : string) : string :=
  match fuel with
  | O => acc
  | S fuel' =>
      let acc' := String (hex_digit uppercase (n mod 16)) acc in
      if n <? 16 then acc' else hex_go fuel' uppercase (n / 16) acc'
  end.

(** [stream << std::hex << n] for a non-negative [n]: the digits without
    padding.  Every round removes one hexadecimal digit, so a fuel of one
    more than the binary logarithm is never used up. *)
Definition hex (uppercase : bool) (n : Z) : string :=
  hex_go (S (Z.to_nat (Z.log2 n))) uppercase n "".

(** [std::setw(width) << std::setfill(c)]: pad on the left. *)
Fixpoint replicate_char (n : nat) (c : ascii) : string :=
  match n with
  | O => EmptyString
  | S k => String c (replicate_char k c)
  end.

Definition pad_left (width : nat) (c : ascii) (s : string) : string :=
  replicate_char (width - String.length s) c +:+ s.

Definition str_in (s : string) (l : list string) : bool :=
  existsb (String.eqb s) l.

Definition contains (pattern s : string) : bool :=
  match index 0 pattern s with Some _ => true | None => false end.

Fixpoint concat_map {A : Type} (f : A -> string) (l : list A) : string :=
  match l with
  | [] => ""
  | x :: r => f x +:+ concat_map f r
  end.

Fixpoint concat_mapM {A : Type} (f : A -> result string) (l : list A)
  : result string :=
  match l with
  | [] => Ok ""
  | x :: r => s ← f x; t ← concat_mapM f r; Ok (s +:+ t)
  end.

(** A [std::map<std::string, V>] as the list of its entries;
    [m[k]] reads the default on an absent key. *)
Fixpoint assoc {V : Type} (k : string) (m : list (string * V)) : option V :=
  match m with
  | [] => None
  | (k', v) :: r => if String.eqb k k' then Some v else assoc k r
  end.

(** The text begins with a decimal digit. *)
Definition leading_digit (s : string) : bool :=
  match s with
  | String c _ => is_digit c
  | EmptyString => false
  end.

End Text.

(** ** Stage 1: [dfg_processor.cpp] *)

Module DFG.
Import Text.

Record HardwareLoop : Type := {
  loop_id : Z;
  pc_start : Z;
  pc_stop : Z;
  hwl_index : Z;
  iterations : Z
}.

Record Instruction : Type := {
  operation : string;
  ra1 : string;
  ra2 : string;
  rd : string;
  base_address : string;
  format : string;
  coefficients : list (string * Z);
  var : option Z;
  psrf_var : list (string * Z);
  hwl : option HardwareLoop;
  imm : Z;
  target : string;
  address : Z;
  offset : Z
}.

Record PEAssignment : Type := {
  pe_id : Z;
  instructions : list Instruction;
  has_psrf_mem_type : bool;
  has_mem_type : bool;
  required_base_registers : list string;
  has_hwl : bool
}.

(** The fields of the class [DFGProcessor] that the generator reads. *)
Record DFGProcessor : Type := {
  pe_assignments : list PEAssignment;
  mem_config : list (string * Z);
  mem_offsets : gmap string Z;
  function_addresses : list (string * Z);
  function_pe_assignments : list (string * gmap Z PEAssignment);
  total_pes : Z;
  clusters_count : Z;
  pes_per_cluster : Z;
  minimum_pes_required : Z;
  data_dup : Z;
  output_folder : string;
  delay_start : list Z
}.

(** [getClusterNumber]; integer division truncates. *)
Definition getClusterNumber (d : DFGProcessor) (pe_id : Z) : Z :=
  Z.quot pe_id (pes_per_cluster d).

(** [calculateClusterBaseAddress]. *)
Definition calculateClusterBaseAddress (d : DFGProcessor) (reg : string)
    (cluster_num data_dup pe_id : Z) : Z :=
  let base_addr := default 0 (assoc reg (mem_config d)) in
  let offset_key := reg +:+ "_offset" in
  match mem_offsets d !! offset_key with
  | Some stride =>
      if stride =? 0 then base_addr
      else if data_dup =? 2 then
        if pe_id >? 15
        then Int32.add (Int32.add base_addr (Int32.mul stride cluster_num)) 100000
        else Int32.add base_addr (Int32.mul stride cluster_num)
      else if data_dup =? 4 then
        if (pe_id >? 15) && (pe_id <? 31)
        then Int32.add (Int32.add base_addr (Int32.mul stride cluster_num)) 100000
        else if (pe_id >? 31) && (pe_id <? 47)
        then Int32.add (Int32.add base_addr (Int32.mul stride cluster_num)) 200000
        else if (pe_id >? 47) && (pe_id <? 63)
        then Int32.add (Int32.add base_addr (Int32.mul stride cluster_num)) 300000
        else Int32.add base_addr (Int32.mul stride cluster_num)
      else Int32.add base_addr (Int32.mul stride cluster_num)
  | None => base_addr
  end.

(** [calculateLuiAddiValues]: the (upper, lower) pair of the [lui]+[addi]
    idiom. *)
Definition calculateLuiAddiValues (value : Z) : Z * Z :=
  if (-2048 <=? value) && (value <=? 2047) then (0, value)
  else
    let lower12 := Z.land value 0xFFF in
    let upper20 :=
      if negb (Z.land lower12 0x800 =? 0)
      then Z.land (Z.shiftr value 12) 0xFFFFF + 1
      else Z.land (Z.shiftr value 12) 0xFFFFF in
    (upper20, lower12).

(** The sign extension the callers of [calculateLuiAddiValues] apply to
    the lower half before printing it:
    [if (addi_val & 0x800) addi_val = addi_val | 0xFFFFF000;]
    The mask is an unsigned literal, so the disjunction is taken on the
    32-bit patterns and read back as an [int]. *)
Definition signed12 (addi_val : Z) : Z :=
  if negb (Z.land addi_val 0x800 =? 0)
  then Int32.wrap (Z.lor (Int32.to_unsigned addi_val) 0xFFFFF000)
  else addi_val.

(** The value the generator prints as the result of the pair,
    [(lui_val << 12) + addi_val], computed on [int]. *)
Definition lui_addi_value (lui_val addi_val : Z) : Z :=
  Int32.add (Int32.shl lui_val 12) addi_val.

(** [calculateHWLImmediate].  [hwl.pc_start + delay & 0x1FF] parses as
    [(hwl.pc_start + delay) & 0x1FF]; each masked field is converted to
    [uint32_t] before it is shifted into place. *)
Definition calculateHWLImmediate (hwl : HardwareLoop) (delay : Z) : Z :=
  let imm := 0 in
  let imm :=
    Z.lor imm (Z.shiftl (Z.land (Int32.add (pc_start hwl) delay) 0x1FF) 23) in
  let imm :=
    Z.lor imm
      (Z.shiftl (Z.land (Int32.sub (pc_stop hwl) (pc_start hwl)) 0x3F) 17) in
  let imm := Z.lor imm (Z.shiftl (Z.land (hwl_index hwl) 0x1F) 12) in
  let imm := Z.lor imm (Z.land (iterations hwl) 0xFFF) in
  imm.

(** [splitHWLImmediate], on [uint32_t]. *)
Definition splitHWLImmediate (imm : Z) : Z * Z :=
  let upper := Z.land (Z.shiftr imm 12) 0xFFFFF in
  let lower := Z.land imm 0xFFF in
  let upper := if negb (Z.land lower 0x800 =? 0)
               then Int32.to_unsigned (upper + 1) else upper in
  (upper, lower).

(** One round of the loop of [generateBaseAddressLoading] over
    [mem_config]. *)
Definition base_register_loading (d : DFGProcessor)
    (pe_id data_dup cluster_num : Z) (entry : string * Z) : string :=
  let '(reg, base_value) := entry in
  if base_value =? 0 then ""
  else
    let cluster_addr :=
      calculateClusterBaseAddress d reg cluster_num data_dup pe_id in
    let '(lui_val, addi_val) := calculateLuiAddiValues cluster_addr in
    let addi_val := signed12 addi_val in
    let ss :=
      "    # Loading " +:+ reg +:+ " with address 0x"
      +:+ hex true (Int32.to_unsigned cluster_addr)
      +:+ " (" +:+ to_string cluster_addr +:+ ")" +:+ nl in
    let ss :=
      if lui_val =? 0 then ss
      else ss +:+ "    # Using lui " +:+ to_string lui_val
           +:+ " and addi " +:+ to_string addi_val
           +:+ " to create " +:+ to_string (lui_addi_value lui_val addi_val)
           +:+ nl in
    let result := ss in
    let result :=
      if lui_val =? 0 then result
      else result +:+ "    lui " +:+ reg +:+ ", " +:+ to_string lui_val +:+ nl in
    let result :=
      if negb (addi_val =? 0) || negb (lui_val =? 0)
      then result +:+ "    addi " +:+ reg +:+ ", " +:+ reg +:+ ", "
           +:+ to_string addi_val +:+ nl
      else result in
    result +:+ nl.

(** [generateBaseAddressLoading]. *)
Definition generateBaseAddressLoading (d : DFGProcessor) (pe_id data_dup : Z)
  : string :=
  let cluster_num := getClusterNumber d pe_id in
  "    # Base address loading section for cluster "
  +:+ to_string (getClusterNumber d pe_id) +:+ nl
  +:+ concat_map (base_register_loading d pe_id data_dup cluster_num)
        (mem_config d).

(** The register number a key such as [v3] or [c3] names:
    [std::stoi(key.substr(1))]. *)
Definition key_register (key : string) : result Z :=
  tail ← substr_from 1 key; stoi tail.

(** One round of the loop over [instr.psrf_var]. *)
Definition preload_psrf_var (reg_base : Z) (entry : string * Z)
  : result string :=
  let '(var_key, value) := entry in
  if value =? 0 then Ok ""
  else
    base_reg ← key_register var_key;
    let reg_num := Int32.add reg_base base_reg in
    Ok ("    ppsrf.addi v" +:+ to_string reg_num
        +:+ ", v" +:+ to_string reg_base
        +:+ ", " +:+ to_string value +:+ nl).

(** One round of the loop over [instr.coefficients]. *)
Definition preload_coefficient (reg_base : Z) (entry : string * Z)
  : result string :=
  let '(coef_key, value) := entry in
  if value =? 0 then Ok ""
  else
    base_reg ← key_register coef_key;
    let reg_num := Int32.add reg_base base_reg in
    if value >? 4095 then
      Ok ("    corf.lui c" +:+ to_string reg_num
          +:+ ", " +:+ to_string (Z.shiftr value 12) +:+ nl
          +:+ "    corf.addi c" +:+ to_string reg_num
          +:+ ", c" +:+ to_string reg_base
          +:+ ", " +:+ to_string (Z.land value 0xFFF) +:+ nl)
    else
      Ok ("    corf.addi c" +:+ to_string reg_num
          +:+ ", c" +:+ to_string reg_base
          +:+ ", " +:+ to_string value +:+ nl).

(** The text [generatePreloadSection] appends for one instruction of
    format [psrf-mem-type]. *)
Definition preload_instruction (instr : Instruction) : result string :=
  let var_value := default 0 (var instr) in
  let reg_base := Int32.mul var_value 6 in
  vars ← concat_mapM (preload_psrf_var reg_base) (psrf_var instr);
  coefs ← concat_mapM (preload_coefficient reg_base) (coefficients instr);
  Ok ("    # Using var=" +:+ to_string var_value
      +:+ " (registers " +:+ to_string reg_base +:+ "-"
      +:+ to_string (Int32.add reg_base 5) +:+ ")" +:+ nl
      +:+ vars +:+ coefs).

(** The loop of [generatePreloadSection] over the instructions; the state
    is the text so far and the flag [has_psrf]. *)
Fixpoint preload_loop (instrs : list Instruction) (preload : string)
    (has_psrf : bool) : result (string * bool) :=
  match instrs with
  | [] => Ok (preload, has_psrf)
  | instr :: rest =>
      if String.eqb (format instr) "psrf-mem-type" then
        text ← preload_instruction instr;
        preload_loop rest (preload +:+ text) true
      else preload_loop rest preload has_psrf
  end.

(** [generatePreloadSection].  The local flag [has_mem_type] stays
    [false]. *)
Definition generatePreloadSection (pe_assignment : PEAssignment)
  : result string :=
  let has_mem_type := false in
  '(preload, has_psrf) ←
    preload_loop (instructions pe_assignment)
      ("    # Preload section for PSRF variables and coefficients" +:+ nl)
      false;
  if negb has_psrf && negb has_mem_type then Ok ""
  else Ok (preload +:+ nl).

(** The delay configured for a PE: [delay_start[pe]] when the index is
    inside the vector, else none. *)
Definition delay_of (d : DFGProcessor) (pe_id : Z) : Z :=
  if (0 <=? pe_id) && (pe_id <? Z.of_nat (length (delay_start d)))
  then nth (Z.to_nat pe_id) (delay_start d) 0
  else 0.

(** [generateHWLInstructions]. *)
Definition generateHWLInstructions (d : DFGProcessor) (instr : Instruction)
    (hwl_count pe_id : Z) : string :=
  match hwl instr with
  | None => ""
  | Some hwl =>
      let delay := delay_of d pe_id in
      let adjusted_pc_start := Int32.add (pc_start hwl) delay in
      let adjusted_pc_stop := Int32.sub (pc_stop hwl) adjusted_pc_start in
      let imm := calculateHWLImmediate hwl delay in
      let '(upper, lower) := splitHWLImmediate imm in
      "    # hwl_imm_" +:+ to_string hwl_count +:+ " = "
      +:+ "((" +:+ to_string adjusted_pc_start +:+ " << 23) + "
      +:+ "(" +:+ to_string adjusted_pc_stop +:+ " << 17) + "
      +:+ "(" +:+ to_string (hwl_index hwl) +:+ " << 12) + "
      +:+ to_string (iterations hwl) +:+ nl
      +:+ "    # Original pc_start=" +:+ to_string (pc_start hwl)
      +:+ ", pc_stop=" +:+ to_string (pc_stop hwl)
      +:+ ", delay=" +:+ to_string delay +:+ nl
      +:+ "    hwlrf.lui L" +:+ to_string (loop_id hwl) +:+ ", "
      +:+ to_string upper +:+ nl
      +:+ "    hwlrf.addi L" +:+ to_string (loop_id hwl)
      +:+ ", L" +:+ to_string (loop_id hwl)
      +:+ ", " +:+ to_string lower +:+ nl
  end.

Definition unknown_instruction (instr : Instruction) : string :=
  "    # Unknown instruction: " +:+ operation instr
  +:+ " (format: " +:+ format instr +:+ ")" +:+ nl.

Definition memory_line (mnemonic : string) (instr : Instruction) : string :=
  "    " +:+ mnemonic +:+ " " +:+ ra1 instr +:+ ", "
  +:+ to_string (offset instr) +:+ "(" +:+ base_address instr +:+ ")" +:+ nl.

Definition immediate_line (mnemonic : string) (instr : Instruction) : string :=
  "    " +:+ mnemonic +:+ " " +:+ rd instr +:+ ", " +:+ ra1 instr +:+ ", "
  +:+ to_string (imm instr) +:+ nl.

(** [generateInstructionCode]; the counter [hwl_count] is passed by
    reference and comes back as the second component. *)
Definition generateInstructionCode (d : DFGProcessor) (instr : Instruction)
    (hwl_count pe_id : Z) : string * Z :=
  let op := operation instr in
  if String.eqb (format instr) "hwl-type" then
    let hwl_count := Int32.add hwl_count 1 in
    (generateHWLInstructions d instr hwl_count pe_id, hwl_count)
  else
  let text :=
    if str_in op ["LW"; "lw"; "SW"; "sw"; "LB"; "lb"; "LH"; "lh";
                  "LBU"; "lbu"; "LHU"; "lhu"; "SB"; "sb"; "SH"; "sh";
                  "psrf.lw"; "psrf.lb"; "psrf.sw"; "psrf.sb"; "psrf.zd.lw"]
    then
      if String.eqb (format instr) "psrf-mem-type" then
        let var_str :=
          match var instr with
          | Some v => ", " +:+ to_string v
          | None => ""
          end in
        if str_in op ["psrf.lw"; "psrf.sw"; "psrf.lb"; "psrf.sb"; "psrf.zd.lw"]
        then "    " +:+ op +:+ " " +:+ ra1 instr +:+ var_str
             +:+ "(" +:+ base_address instr +:+ ")" +:+ nl
        else unknown_instruction instr
      else
        if str_in op ["LW"; "lw"] then memory_line "lw" instr
        else if str_in op ["SW"; "sw"] then memory_line "sw" instr
        else if str_in op ["LB"; "lb"] then memory_line "lb" instr
        else if str_in op ["LH"; "lh"] then memory_line "lh" instr
        else if str_in op ["LBU"; "lbu"] then memory_line "lbu" instr
        else if str_in op ["LHU"; "lhu"] then memory_line "lhu" instr
        else if str_in op ["SB"; "sb"] then memory_line "sb" instr
        else if str_in op ["SH"; "sh"] then memory_line "sh" instr
        else unknown_instruction instr
    else if String.eqb (format instr) "i-type"
            || str_in op ["ADDI"; "addi"; "SLTI"; "slti"; "XORI"; "xori";
                          "SLTIU"; "sltiu"; "SLTI"; "slti"; "ORI"; "ori";
                          "ANDI"; "andi"; "SLLI"; "slli"; "SRLI"; "srli";
                          "SRAI"; "srai"; "JALR"; "jalr"]
    then
      if String.eqb op "ADDI" then
        if (imm instr >? 2047) || (imm instr <? -2048) then
          let '(lui_val, addi_val) := calculateLuiAddiValues (imm instr) in
          let addi_val := signed12 addi_val in
          let result :=
            "    # Loading immediate " +:+ to_string (imm instr)
            +:+ " using LUI+ADDI: " +:+ to_string lui_val +:+ " << 12 + "
            +:+ to_string addi_val +:+ " = "
            +:+ to_string (lui_addi_value lui_val addi_val) +:+ nl in
          if negb (lui_val =? 0) then
            result
            +:+ "    lui " +:+ rd instr +:+ ", " +:+ to_string lui_val +:+ nl
            +:+ "    addi " +:+ rd instr +:+ ", " +:+ ra1 instr +:+ ", "
            +:+ to_string addi_val +:+ nl
          else
            result +:+ immediate_line "addi" instr
        else immediate_line "addi" instr
      else if String.eqb op "JALR" then immediate_line "jalr" instr
      else immediate_line (tolower op) instr
    else if String.eqb (format instr) "r-type"
            || str_in op ["ADD"; "SUB"; "SLL"; "SLT"; "SLTU"; "XOR"; "SRL";
                          "SRA"; "OR"; "AND"; "MUL"]
    then
      "    " +:+ tolower op +:+ " " +:+ rd instr +:+ ", " +:+ ra1 instr
      +:+ ", " +:+ ra2 instr +:+ nl
    else if str_in op ["BEQ"; "BNE"; "BLT"; "BGE"; "BLTU"; "BGEU"]
    then immediate_line (tolower op) instr
    else if str_in op ["LUI"; "AUIPC"]
    then "    " +:+ tolower op +:+ " " +:+ ra1 instr +:+ ", "
         +:+ to_string (imm instr) +:+ nl
    else if str_in op ["JAL"; "jal"] then
      if negb (String.eqb (target instr) "") then
        "    jal " +:+ rd instr +:+ ", " +:+ to_string (address instr)
        +:+ "  # Call " +:+ target instr +:+ nl
      else
        "    jal " +:+ rd instr +:+ ", " +:+ to_string (imm instr)
        +:+ "  # Call somewhere" +:+ nl
    else if str_in op ["BGE"; "bge"] then immediate_line "bge" instr
    else if str_in op ["BLT"; "blt"] then immediate_line "blt" instr
    else if str_in op ["BLTU"; "bltu"] then immediate_line "bltu" instr
    else if str_in op ["BNE"; "bne"] then immediate_line "bne" instr
    else if str_in op ["BEQ"; "beq"] then immediate_line "beq" instr
    else if str_in op ["BGEU"; "bgeu"] then immediate_line "bgeu" instr
    else if String.eqb op "RET" then "    ret" +:+ nl
    else if str_in op ["NOP"; "nop"] then "    nop" +:+ nl
    else unknown_instruction instr
  in (text, hwl_count).

(** The loops [for (instr : ...) outFile << generateInstructionCode(...)]. *)
Fixpoint instruction_loop (d : DFGProcessor) (instrs : list Instruction)
    (hwl_count pe : Z) : string * Z :=
  match instrs with
  | [] => ("", hwl_count)
  | instr :: rest =>
      let '(text, hwl_count) := generateInstructionCode d instr hwl_count pe in
      let '(more, hwl_count) := instruction_loop d rest hwl_count pe in
      (text +:+ more, hwl_count)
  end.

(** The section written for one function, when it has instructions for
    this PE. *)
Definition function_section (d : DFGProcessor) (pe : Z)
    (func : string * gmap Z PEAssignment) (hwl_count : Z) : string * Z :=
  let '(func_name, pe_assigns) := func in
  match pe_assigns !! pe with
  | None => ("", hwl_count)
  | Some func_assignment =>
      let '(body, hwl_count) :=
        instruction_loop d (instructions func_assignment) hwl_count pe in
      let needs_return :=
        match last (instructions func_assignment) with
        | None => true
        | Some back => negb (String.eqb (operation back) "JALR")
        end in
      (nl +:+ func_name +:+ ":" +:+ nl
       +:+ "    # Function " +:+ func_name +:+ " (address: 0x"
       +:+ hex false
             (Int32.to_unsigned
                (default 0 (assoc func_name (function_addresses d))))
       +:+ ")" +:+ nl
       +:+ body
       +:+ (if needs_return
            then "    jalr x0, x26, 0  # Return from function" +:+ nl
            else ""),
       hwl_count)
  end.

Fixpoint function_loop (d : DFGProcessor) (pe : Z)
    (funcs : list (string * gmap Z PEAssignment)) (hwl_count : Z)
  : string * Z :=
  match funcs with
  | [] => ("", hwl_count)
  | func :: rest =>
      let '(text, hwl_count) := function_section d pe func hwl_count in
      let '(more, hwl_count) := function_loop d pe rest hwl_count in
      (text +:+ more, hwl_count)
  end.

(** The text written to the file of one PE. *)
Definition pe_program (d : DFGProcessor) (pe : Z) (assignment : PEAssignment)
  : result string :=
  let out :=
    "# Assembly for PE" +:+ to_string pe
    +:+ " (Cluster " +:+ to_string (getClusterNumber d pe) +:+ ")" +:+ nl
    +:+ "# Generated with PSRF, HWL and function support" +:+ nl
    +:+ ".text" +:+ nl
    +:+ ".global _start" +:+ nl +:+ nl
    +:+ "_start:" +:+ nl in
  let out :=
    match required_base_registers assignment with
    | [] => out
    | _ :: _ => out +:+ generateBaseAddressLoading d pe (data_dup d)
    end in
  preload ←
    (if has_psrf_mem_type assignment || has_mem_type assignment
     then generatePreloadSection assignment else Ok "");
  let out := out +:+ preload in
  let out :=
    out +:+ "    # ========== Execution Section Begin ==========" +:+ nl in
  let out :=
    if delay_of d pe >? 0 then
      out +:+ "    # Adding " +:+ to_string (delay_of d pe)
      +:+ " NOPs for delay" +:+ nl
      +:+ concat_map (fun _ => "    nop" +:+ nl)
            (seq 0 (Z.to_nat (delay_of d pe)))
      +:+ nl
    else out in
  let '(body, hwl_count) := instruction_loop d (instructions assignment) 0 pe in
  let out := out +:+ body in
  let out :=
    match function_pe_assignments d with
    | [] => out
    | _ :: _ =>
        out +:+ nl +:+ "    # ========== Function Sections =========="
        +:+ nl
        +:+ fst (function_loop d pe (function_pe_assignments d) hwl_count)
    end in
  Ok (out +:+ "    # End of program" +:+ nl +:+ "    ret" +:+ nl).

(** A file written by [generateAssembly]: the PE of the loop round, the
    path and the text. *)
Record AssemblyFile : Type := {
  file_pe : Z;
  file_name : string;
  file_text : string
}.

(** One round of the loop of [generateAssembly]: the PE is skipped
    ([None]) or its file is written. *)
Definition generate_pe (d : DFGProcessor) (pe : Z)
  : result (option AssemblyFile) :=
  if pes_per_cluster d =? 0 then Err DivisionByZero
  else
    let base_pe := Z.rem pe (pes_per_cluster d) in
    if base_pe >? minimum_pes_required d then Ok None
    else
      match pe_assignments d !! Z.to_nat base_pe with
      | None => Err UndefinedAccess
      | Some assignment =>
          let size := Z.of_nat (length (instructions assignment)) in
          if (size >=? 10000) || (size =? 0) then Ok None
          else
            text ← pe_program d pe assignment;
            Ok (Some {| file_pe := pe;
                        file_name := output_folder d +:+ "pe" +:+ to_string pe
                                     +:+ "_assembly.s";
                        file_text := text |})
      end.

Fixpoint generate_loop (d : DFGProcessor) (pes : list Z)
  : result (list AssemblyFile) :=
  match pes with
  | [] => Ok []
  | pe :: rest =>
      file ← generate_pe d pe;
      files ← generate_loop d rest;
      Ok (match file with Some f => f :: files | None => files end)
  end.

(** [generateAssembly]: the files of a run that reaches the end of the
    loop [for (int pe = 0; pe < total_pes; pe++)]. *)
Definition generateAssembly (d : DFGProcessor) : result (list AssemblyFile) :=
  generate_loop d (seqZ 0 (total_pes d)).

(** The keys of the non-zero scratch values and coefficients of the
    [psrf-mem-type] instructions of an assignment all name a register:
    [std::stoi] does not throw in [generatePreloadSection]. *)
Definition valid_keys (a : PEAssignment) : Prop :=
  forall (instr : Instruction) (key : string) (value : Z),
    instr ∈ instructions a ->
    format instr = "psrf-mem-type" ->
    (key, value) ∈ (psrf_var instr ++ coefficients instr)%list ->
    value <> 0 ->
    exists register, key_register key = Ok register.

(** The condition under which the specification gives a PE a program:
    its position in the cluster is at most [minimum_pes_required] and the
    assignment at that position has between 1 and 9999 instructions. *)
Definition program_condition (d : DFGProcessor) (pe : Z) : Prop :=
  pe mod pes_per_cluster d <= minimum_pes_required d
  /\ exists a : PEAssignment,
       pe_assignments d !! Z.to_nat (pe mod pes_per_cluster d) = Some a
       /\ 1 <= Z.of_nat (length (instructions a)) < 10000.

(** The hardware-loop word as the specification words it: the span field
    is taken from the delayed start. *)
Definition packHardwareLoop_spec (hwl : HardwareLoop) (delayCycles : Z) : Z :=
  let adjusted_start := pc_start hwl + delayCycles in
  let adjusted_span := pc_stop hwl - adjusted_start in
  Z.lor (Z.lor (Z.lor (Z.shiftl (Z.land adjusted_start 0x1FF) 23)
                      (Z.shiftl (Z.land adjusted_span 0x3F) 17))
               (Z.shiftl (Z.land (hwl_index hwl) 0x1F) 12))
        (Z.land (iterations hwl) 0xFFF).


End DFG.

(** ** Stage 2: [risc_v_assembler.cpp] *)

Module Asm.

Record AssembledInstruction : Type := {
  op : string;
  binary : string;
  hex : string;
  is_execution : bool
}.

Fixpoint find_first_not_space (s : string) : option nat :=
  match s with
  | String c r =>
      if Text.is_space c then S <$> find_first_not_space r else Some 0%nat
  | EmptyString => None
  end.

Fixpoint find_last_not_space (s : string) : option nat :=
  match s with
  | String c r =>
      match find_last_not_space r with
      | Some i => Some (S i)
      | None => if Text.is_space c then None else Some 0%nat
      end
  | EmptyString => None
  end.

(** [trim_string]. *)
Definition trim_string (str : string) : string :=
  match find_first_not_space str with
  | None => ""
  | Some first =>
      match find_last_not_space str with
      | None => ""
      | Some last => substring first (last - first + 1) str
      end
  end.

(** *** The tables built by the constructor.  [table[key]] on an absent key
    reads the default value, 0 or the empty string. *)

Definition register_file (prefix : string) (numbers : list Z)
  : list (string * Z) :=
  map (fun i => (prefix +:+ Text.to_string i, i)) numbers.

Definition registers : list (string * Z) := register_file "x" (seqZ 0 32).
Definition registers_c : list (string * Z) := register_file "c" (seqZ 0 32).
Definition registers_p : list (string * Z) := register_file "v" (seqZ 0 32).
Definition hwl_registers : list (string * Z) := register_file "L" (seqZ 1 7).

Definition instructions : list (string * string) :=
  [ ("lb", "0000011"); ("lh", "0000011"); ("lw", "0000011");
    ("lbu", "0000011"); ("lhu", "0000011");
    ("addi", "0010011"); ("slli", "0010011"); ("slti", "0010011");
    ("sltiu", "0010011"); ("xori", "0010011"); ("srli", "0010011");
    ("srai", "0010011"); ("ori", "0010011"); ("andi", "0010011");
    ("auipc", "0010111");
    ("sb", "0100011"); ("sh", "0100011"); ("sw", "0100011");
    ("add", "0110011"); ("sub", "0110011"); ("sll", "0110011");
    ("slt", "0110011"); ("sltu", "0110011"); ("xor", "0110011");
    ("srl", "0110011"); ("sra", "0110011"); ("or", "0110011");
    ("and", "0110011"); ("mul", "0110011"); ("lui", "0110111");
    ("beq", "1100011"); ("bne", "1100011"); ("blt", "1100011");
    ("bge", "1100011"); ("bltu", "1100011"); ("bgeu", "1100011");
    ("jalr", "1100111"); ("jal", "1101111");
    ("psrf.lw", "0000100"); ("psrf.sw", "0100100");
    ("psrf.lb", "0000100"); ("psrf.sb", "0100100");
    ("psrf.zd.lw", "0000100");
    ("ppsrf.addi", "0010100");
    ("corf.addi", "0010100");
    ("corf.lui", "0111011");
    ("hwlrf.lui", "0111100");
    ("hwlrf.addi", "0010100");
    ("ret", "0000000") ].

Definition funct3 : list (string * string) :=
  [ ("lb", "000"); ("lh", "001"); ("lw", "010");
    ("lbu", "100"); ("lhu", "101");
    ("addi", "000"); ("slli", "001"); ("slti", "010"); ("sltiu", "011");
    ("xori", "100"); ("srli", "101"); ("srai", "101"); ("ori", "110");
    ("andi", "111");
    ("sb", "000"); ("sh", "001"); ("sw", "010");
    ("add", "000"); ("sub", "000"); ("sll", "001"); ("slt", "010");
    ("sltu", "011"); ("xor", "100"); ("srl", "101"); ("sra", "101");
    ("or", "110"); ("and", "111"); ("mul", "000");
    ("beq", "000"); ("bne", "001"); ("blt", "100");
    ("bge", "101"); ("bltu", "110"); ("bgeu", "111");
    ("jalr", "000");
    ("psrf.lw", "111"); ("psrf.lb", "000"); ("mul", "000");
    ("psrf.zd.lw", "110");
    ("psrf.sw", "100"); ("psrf.sb", "000");
    ("ppsrf.addi", "001");
    ("corf.addi", "000");
    ("hwlrf.addi", "010") ].

Definition funct7 : list (string * string) :=
  [ ("slli", "0000000"); ("srli", "0000000"); ("srai", "0100000");
    ("add", "0000000"); ("sub", "0100000"); ("sll", "0000000");
    ("slt", "0000000"); ("sltu", "0000000"); ("xor", "0000000");
    ("srl", "0000000"); ("sra", "0100000"); ("or", "0000000");
    ("and", "0000000"); ("mul", "0000001") ].

Definition reg (table : list (string * Z)) (name : string) : Z :=
  default 0 (Text.assoc name table).

Definition code (table : list (string * string)) (name : string) : string :=
  default "" (Text.assoc name table).

(** *** Bit strings *)

(** The [n] low bits of [z], most significant first. *)
Fixpoint bits_msb_first (n : nat) (z : Z) : string :=
  match n with
  | O => EmptyString
  | S k => String (if Z.testbit z (Z.of_nat k) then "1" else "0")%char
                  (bits_msb_first k z)
  end.

(** [std::bitset<32>(num).to_string()]. *)
Definition bitset32 (num : Z) : string := bits_msb_first 32 num.

(** [to_binary].  Every call passes a length of at most 21, so
    [substr(32 - length)] is inside the 32 characters. *)
Definition to_binary (num : Z) (length : nat) : string :=
  let num :=
    if num <? 0 then Int32.add (Int32.shl 1 (Z.of_nat length)) num else num in
  Text.pad_left length "0"
    (substring (32 - length) (32 - (32 - length)) (bitset32 num)).

(** The value of the longest prefix of binary digits. *)
Fixpoint binary_prefix (s : string) (acc : Z) : Z :=
  match s with
  | String "0" r => binary_prefix r (2 * acc)
  | String "1" r => binary_prefix r (2 * acc + 1)
  | _ => acc
  end.

(** [std::stoul(str, nullptr, 2)] on a 64-bit [unsigned long]. *)
Definition stoul2 (str : string) : result Z :=
  let s := Text.skip_spaces str in
  let '(negative, s) :=
    match s with
    | String "-" r => (true, r)
    | String "+" r => (false, r)
    | _ => (false, s)
    end in
  match s with
  | String c _ =>
      if Ascii.eqb c "0" || Ascii.eqb c "1" then
        let v := binary_prefix s 0 in
        if v <? 2 ^ 64
        then Ok (if negative then (- v) mod 2 ^ 64 else v)
        else Err OutOfRange
      else Err InvalidArgument
  | EmptyString => Err InvalidArgument
  end.

(** [to_hex]. *)
Definition to_hex (binary : string) : result string :=
  v ← stoul2 binary;
  Ok (Text.pad_left 8 "0" (Text.hex false v)).

(** *** The encoders *)

Definition assemble_r_type (instruction rd rs1 rs2 : string) : result string :=
  let opcode := code instructions instruction in
  let func3 := code funct3 instruction in
  let func7 := code funct7 instruction in
  let rd_bin := to_binary (reg registers rd) 5 in
  let rs1_bin := to_binary (reg registers rs1) 5 in
  if Text.str_in instruction ["slli"; "srli"; "srai"] then
    imm ← Text.stoi rs2;
    let rs2_bin := to_binary imm 5 in
    Ok (func7 +:+ rs2_bin +:+ rs1_bin +:+ func3 +:+ rd_bin +:+ opcode)
  else
    let rs2_bin := to_binary (reg registers rs2) 5 in
    Ok (func7 +:+ rs2_bin +:+ rs1_bin +:+ func3 +:+ rd_bin +:+ opcode).

Definition assemble_i_type (instruction rd rs1 : string) (imm : Z) : string :=
  let opcode := code instructions instruction in
  let func3 := code funct3 instruction in
  let rd_bin := to_binary (reg registers rd) 5 in
  let rs1_bin := to_binary (reg registers rs1) 5 in
  let imm_bin := to_binary imm 12 in
  imm_bin +:+ rs1_bin +:+ func3 +:+ rd_bin +:+ opcode.

Definition assemble_s_type (instruction rs1 rs2 : string) (imm : Z) : string :=
  let opcode := code instructions instruction in
  let func3 := code funct3 instruction in
  let rs1_bin := to_binary (reg registers rs1) 5 in
  let rs2_bin := to_binary (reg registers rs2) 5 in
  let imm_bin := to_binary imm 12 in
  let imm_high := substring 0 7 imm_bin in
  let imm_low := substring 7 5 imm_bin in
  imm_high +:+ rs2_bin +:+ rs1_bin +:+ func3 +:+ imm_low +:+ opcode.

Definition assemble_b_type (instruction rs1 rs2 : string) (imm : Z) : string :=
  let opcode := code instructions instruction in
  let func3 := code funct3 instruction in
  let rs1_bin := to_binary (reg registers rs1) 5 in
  let rs2_bin := to_binary (reg registers rs2) 5 in
  let imm_bin := to_binary imm 13 in
  let imm_12 := substring 0 1 imm_bin in
  let imm_10_5 := substring 2 6 imm_bin in
  let imm_4_1 := substring 8 4 imm_bin in
  let imm_11 := substring 1 1 imm_bin in
  imm_12 +:+ imm_10_5 +:+ rs2_bin +:+ rs1_bin +:+ func3 +:+ imm_4_1
  +:+ imm_11 +:+ opcode.

Definition assemble_psrf_lw_sw (instruction rd rs1 : string) (imm : Z)
  : string :=
  let opcode := code instructions instruction in
  let func3 := code funct3 instruction in
  let rd_bin := to_binary (reg registers rd) 5 in
  let rs1_bin := to_binary (reg registers rs1) 5 in
  let imm_bin := to_binary imm 12 in
  imm_bin +:+ rs1_bin +:+ func3 +:+ rd_bin +:+ opcode.

Definition assemble_u_type (instruction rd : string) (imm : Z) : string :=
  let opcode := code instructions instruction in
  let rd_bin := to_binary (reg registers rd) 5 in
  let imm_bin := to_binary imm 20 in
  imm_bin +:+ rd_bin +:+ opcode.

Definition assemble_lui (op rd : string) (imm : Z) : string :=
  let opcode := code instructions op in
  let rd_bin := to_binary (reg registers rd) 5 in
  let imm_bin := to_binary (Z.land imm 0xFFFFF) 20 in
  imm_bin +:+ rd_bin +:+ opcode.

Definition assemble_corf_lui (op rd : string) (imm : Z) : string :=
  let opcode := code instructions op in
  let rd_bin := to_binary (reg registers_c rd) 5 in
  let imm_bin := to_binary (Z.land imm 0xFFFFF) 20 in
  imm_bin +:+ rd_bin +:+ opcode.

Definition assemble_corf_addi (op rd rs1 : string) (imm : Z) : string :=
  let opcode := code instructions op in
  let func3 := code funct3 op in
  let rd_bin := to_binary (reg registers_c rd) 5 in
  let rs1_bin := to_binary (reg registers_c rs1) 5 in
  let imm_bin := to_binary imm 12 in
  imm_bin +:+ rs1_bin +:+ func3 +:+ rd_bin +:+ opcode.

Definition assemble_ppsrf_addi (op rd rs1 : string) (imm : Z) : string :=
  let opcode := code instructions op in
  let func3 := code funct3 op in
  let rd_bin := to_binary (reg registers_p rd) 5 in
  let rs1_bin := to_binary (reg registers_p rs1) 5 in
  let imm_bin := to_binary imm 12 in
  imm_bin +:+ rs1_bin +:+ func3 +:+ rd_bin +:+ opcode.

Definition assemble_hwlrf_lui (rd : string) (imm : Z) : string :=
  let opcode := code instructions "hwlrf.lui" in
  let rd_bin := to_binary (reg hwl_registers rd) 5 in
  let imm_bin := to_binary imm 20 in
  imm_bin +:+ rd_bin +:+ opcode.

Definition assemble_hwlrf_addi (rd rs1 : string) (imm : Z) : string :=
  let opcode := code instructions "hwlrf.addi" in
  let func3 := code funct3 "hwlrf.addi" in
  let rd_bin := to_binary (reg hwl_registers rd) 5 in
  let rs1_bin := to_binary (reg hwl_registers rs1) 5 in
  let imm_bin := to_binary imm 12 in
  imm_bin +:+ rs1_bin +:+ func3 +:+ rd_bin +:+ opcode.

Definition assemble_j_type (rd : string) (imm : Z) : string :=
  let opcode := code instructions "jal" in
  let rd_bin := to_binary (reg registers rd) 5 in
  let imm_bin := to_binary imm 21 in
  let imm_20 := substring 0 1 imm_bin in
  let imm_10_1 := substring 11 10 imm_bin in
  let imm_11 := substring 10 1 imm_bin in
  let imm_19_12 := substring 1 8 imm_bin in
  imm_20 +:+ imm_10_1 +:+ imm_11 +:+ imm_19_12 +:+ rd_bin +:+ opcode.

(** *** Parsing a line *)

(** [iss >> op]: skip white space, then read up to the next white space.
    The result is the token and the rest of the stream. *)
Fixpoint read_until_space (s : string) : string * string :=
  match s with
  | String c r =>
      if Text.is_space c then (EmptyString, s)
      else let '(token, rest) := read_until_space r in (String c token, rest)
  | EmptyString => (EmptyString, EmptyString)
  end.

Definition extract_token (line : string) : string * string :=
  read_until_space (Text.skip_spaces line).

(** [std::getline(iss, args_str)]: up to the first newline. *)
Fixpoint getline (s : string) : string :=
  match s with
  | String c r =>
      if Ascii.eqb c (ascii_of_N 10) then EmptyString else String c (getline r)
  | EmptyString => EmptyString
  end.

Definition push_token (args : list string) (token : string) : list string :=
  if String.eqb token "" then args else (args ++ [token])%list.

(** The loop that cuts [args_str] at the commas outside parentheses.
    [current] holds the characters from [pos] up to the one being read. *)
Fixpoint split_loop (s current : string) (in_parentheses : bool)
    (args : list string) : list string :=
  match s with
  | String c r =>
      let in_parentheses :=
        if Ascii.eqb c "(" then true
        else if Ascii.eqb c ")" then false
        else in_parentheses in
      if Ascii.eqb c "," && negb in_parentheses
      then split_loop r "" in_parentheses (push_token args (trim_string current))
      else split_loop r (current +:+ String c "") in_parentheses args
  | EmptyString =>
      if String.eqb current "" then args
      else push_token args (trim_string current)
  end.

Definition split_args (args_str : string) : list string :=
  split_loop args_str "" false [].

Definition arg (n : nat) (args : list string) : string := nth n args "".

(** The [offset(base)] operand of the store and PSRF forms: the offset and
    the base register, when both parentheses are found. *)
Definition parse_offset_base (offset_base : string)
  : result (option (Z * string)) :=
  match index 0 "(" offset_base with
  | None => Ok None
  | Some open_paren =>
      match index open_paren ")" offset_base with
      | None => Ok None
      | Some close_paren =>
          let offset_str := trim_string (substring 0 open_paren offset_base) in
          let base_reg :=
            trim_string (substring (open_paren + 1)
                           (close_paren - open_paren - 1) offset_base) in
          offset ← (if String.eqb offset_str "" then Ok 0
                    else Text.stoi offset_str);
          Ok (Some (offset, base_reg))
      end
  end.

(** The bit string [parse_instruction] computes for a mnemonic and its
    operands; the empty string when no branch assigns [result.binary]. *)
Definition encode (op : string) (args : list string) : result string :=
  let n := length args in
  if String.eqb op "hwlrf.lui" then
    if (2 <=? n)%nat then
      imm ← Text.stoi (arg 1 args); Ok (assemble_hwlrf_lui (arg 0 args) imm)
    else Ok ""
  else if String.eqb op "hwlrf.addi" then
    if (3 <=? n)%nat then
      imm ← Text.stoi (arg 2 args);
      Ok (assemble_hwlrf_addi (arg 0 args) (arg 1 args) imm)
    else Ok ""
  else if Text.str_in op ["lui"; "auipc"] then
    if (2 <=? n)%nat then
      imm ← Text.stoi (arg 1 args); Ok (assemble_u_type op (arg 0 args) imm)
    else Ok ""
  else if Text.str_in op ["add"; "sub"; "sll"; "slt"; "sltu"; "xor"; "srl";
                          "sra"; "or"; "and"; "mul"; "slli"; "srli"; "srai"]
  then
    if (3 <=? n)%nat
    then assemble_r_type op (arg 0 args) (arg 1 args) (arg 2 args)
    else Ok ""
  else if Text.str_in op ["addi"; "slti"; "sltiu"; "xori"; "ori"; "andi";
                          "jalr"]
  then
    if (3 <=? n)%nat then
      imm ← Text.stoi (arg 2 args);
      Ok (assemble_i_type op (arg 0 args) (arg 1 args) imm)
    else Ok ""
  else if Text.str_in op ["sb"; "sh"; "sw"] then
    if (2 <=? n)%nat then
      let rs2 := arg 0 args in
      parsed ← parse_offset_base (arg 1 args);
      match parsed with
      | Some (offset, base_reg) => Ok (assemble_s_type op base_reg rs2 offset)
      | None => Ok ""
      end
    else Ok ""
  else if Text.str_in op ["beq"; "bne"; "blt"; "bge"; "bltu"; "bgeu"] then
    if (3 <=? n)%nat then
      imm ← Text.stoi (arg 2 args);
      Ok (assemble_b_type op (arg 0 args) (arg 1 args) imm)
    else Ok ""
  else if String.eqb op "jal" then
    if (2 <=? n)%nat then
      offset ← Text.stoi (arg 1 args); Ok (assemble_j_type (arg 0 args) offset)
    else Ok ""
  else if String.eqb op "ppsrf.addi" then
    if (3 <=? n)%nat then
      imm ← Text.stoi (arg 2 args);
      Ok (assemble_ppsrf_addi op (arg 0 args) (arg 1 args) imm)
    else Ok ""
  else if String.eqb op "corf.addi" then
    if (3 <=? n)%nat then
      imm ← Text.stoi (arg 2 args);
      Ok (assemble_corf_addi op (arg 0 args) (arg 1 args) imm)
    else Ok ""
  else if String.eqb op "corf.lui" then
    if (2 <=? n)%nat then
      imm ← Text.stoi (arg 1 args); Ok (assemble_corf_lui op (arg 0 args) imm)
    else Ok ""
  else if String.eqb op "ret" then Ok (assemble_i_type "addi" "x0" "x0" 0)
  else if String.eqb op "nop" then Ok (assemble_i_type "addi" "x0" "x0" 0)
  else if Text.contains "psrf." op then
    if Text.str_in op ["psrf.lw"; "psrf.lb"; "psrf.zd.lw"] then
      if (2 <=? n)%nat then
        let rd := arg 0 args in
        parsed ← parse_offset_base (arg 1 args);
        match parsed with
        | Some (offset, base_reg) =>
            Ok (assemble_psrf_lw_sw op rd base_reg offset)
        | None => Ok ""
        end
      else Ok ""
    else if Text.str_in op ["psrf.sw"; "psrf.sb"] then
      if (2 <=? n)%nat then
        let rs2 := arg 0 args in
        parsed ← parse_offset_base (arg 1 args);
        match parsed with
        | Some (offset, base_reg) =>
            Ok (assemble_psrf_lw_sw op rs2 base_reg offset)
        | None => Ok ""
        end
      else Ok ""
    else Ok ""
  else Ok "".

(** [parse_instruction]; the flag [is_execution] is set by the caller. *)
Definition parse_instruction (line : string) : result AssembledInstruction :=
  let '(op, rest) := extract_token line in
  let args_str := trim_string (getline rest) in
  let args := split_args args_str in
  binary ← encode op args;
  hex ← (if String.eqb binary "" then Ok "" else to_hex binary);
  Ok {| op := op; binary := binary; hex := hex; is_execution := false |}.

(** *** Assembling a file *)

(** The lines the reading loop of [assemble] passes over. *)
Definition is_skipped (trimmed : string) : bool :=
  match trimmed with
  | EmptyString => true
  | String c _ =>
      Ascii.eqb c "#" || Ascii.eqb c "." || Ascii.eqb c "_"
      || Text.contains ":" trimmed
  end.

Definition with_section (instr : AssembledInstruction) (in_execution : bool)
  : AssembledInstruction :=
  {| op := op instr; binary := binary instr; hex := hex instr;
     is_execution := in_execution |}.

(** The reading loop of [assemble]. *)
Fixpoint read_loop (lines : list string) (in_execution_section : bool)
  : result (list AssembledInstruction) :=
  match lines with
  | [] => Ok []
  | line :: rest =>
      let trimmed := trim_string line in
      if is_skipped trimmed then
        read_loop rest
          (if Text.contains "Execution Section Begin" trimmed
           then true else in_execution_section)
      else
        instr ← parse_instruction trimmed;
        assembled ← read_loop rest in_execution_section;
        Ok (with_section instr in_execution_section :: assembled)
  end.

(** The memory address of a word: the PE in bits 10 and up, the section in
    bit 9, the running index of the section below. *)
Definition address (pe_number : Z) (is_execution : bool) (count : Z) : Z :=
  if is_execution
  then Z.lor (Z.shiftl (Z.land pe_number 0xFF) 10) count
  else Z.lor (Z.lor (Z.shiftl (Z.land pe_number 0xFF) 10) (Z.shiftl 1 9)) count.

(** [@ADDRESS WORD], the address as eight hexadecimal digits. *)
Definition mem_entry (address : Z) (hex : string) : string :=
  "@" +:+ Text.pad_left 8 "0" (Text.hex false (Int32.to_unsigned address))
  +:+ " " +:+ hex.

(** What the writing loop of [assemble] has produced so far. *)
Record Output : Type := {
  hex_file : list string;
  mem_file : list string;
  preload_count : Z;
  execution_count : Z
}.

Definition empty_output : Output :=
  {| hex_file := []; mem_file := []; preload_count := 0; execution_count := 0 |}.

(** One round of the writing loop of [assemble]. *)
Definition write_instruction (pe_number : Z) (out : Output)
    (instr : AssembledInstruction) : Output :=
  if is_execution instr then
    let address := address pe_number true (execution_count out) in
    {| hex_file := hex_file out ++ [hex instr];
       mem_file := mem_file out ++ [mem_entry address (hex instr)];
       preload_count := preload_count out;
       execution_count := Int32.add (execution_count out) 1 |}
  else
    let address := address pe_number false (preload_count out) in
    {| hex_file := hex_file out ++ [hex instr];
       mem_file := mem_file out ++ [mem_entry address (hex instr)];
       preload_count := Int32.add (preload_count out) 1;
       execution_count := execution_count out |}.

Definition write_loop (pe_number : Z) (assembled : list AssembledInstruction)
  : Output :=
  fold_left (write_instruction pe_number) assembled empty_output.

(** [assemble] on the lines of an input file that could be opened: the hex
    file, the memory file (whose lines are also the entries handed to the
    caller) and the two counters. *)
Definition assemble (lines : list string) (pe_number : Z) : result Output :=
  assembled ← read_loop lines false;
  Ok (write_loop pe_number assembled).

(** *** The driver *)

Fixpoint take_digits (s : string) : string * string :=
  match s with
  | String c r =>
      if Text.is_digit c
      then let '(digits, rest) := take_digits r in (String c digits, rest)
      else (EmptyString, s)
  | EmptyString => (EmptyString, EmptyString)
  end.

(** A match of [pe(\d+)_] at the start of [s]: the digits captured. *)
Definition match_pe_here (s : string) : option string :=
  match s with
  | String "p" (String "e" r) =>
      match take_digits r with
      | (String d digits, String "_" _) => Some (String d digits)
      | _ => None
      end
  | _ => None
  end.

(** [std::regex_search] for [pe(\d+)_]: the leftmost match. *)
Fixpoint regex_search_pe (s : string) : option string :=
  match match_pe_here s with
  | Some digits => Some digits
  | None =>
      match s with
      | String _ r => regex_search_pe r
      | EmptyString => None
      end
  end.

(** The PE number of a manifest entry: [0xFFFF] when the name has none. *)
Definition pe_number_of (assembly_file : string) : result Z :=
  match regex_search_pe assembly_file with
  | Some pe_num => Text.stoi pe_num
  | None => Ok 0xFFFF
  end.

(** A manifest entry with the lines of the file it names, or [None] when
    the file cannot be opened. *)
Definition SourceFile : Type := string * option (list string).

(** The loop of [main] over the manifest; [all_memory_entries] is the map
    from PE number to memory entries. *)
Fixpoint manifest_loop (files : list SourceFile)
    (all_memory_entries : gmap Z (list string))
  : result (gmap Z (list string)) :=
  match files with
  | [] => Ok all_memory_entries
  | (assembly_file, content) :: rest =>
      if String.eqb assembly_file ""
         || String.prefix "#" assembly_file
      then manifest_loop rest all_memory_entries
      else
        pe_number ← pe_number_of assembly_file;
        entries ←
          match content with
          | None => Ok []
          | Some lines => out ← assemble lines pe_number; Ok (mem_file out)
          end;
        manifest_loop rest (<[pe_number := entries]> all_memory_entries)
  end.

(** The count [main] prints as the total number of PEs. *)
Definition count_pes (all_memory_entries : gmap Z (list string)) : Z :=
  map_fold
    (fun pe _ total_pes =>
       if pe =? 0xFFFF then total_pes else Z.max total_pes (Int32.add pe 1))
    0 all_memory_entries.

(** A block of the combined file. *)
Inductive Marker : Type :=
| PEBlock (pe : Z)
| UnknownBlock.

Definition pe_block (all_memory_entries : gmap Z (list string)) (pe : Z)
  : list (Marker * list string) :=
  match all_memory_entries !! pe with
  | Some entries => [(PEBlock pe, entries)]
  | None => []
  end.

(** The blocks [main] writes to the combined file, in order. *)
Definition combined_blocks (all_memory_entries : gmap Z (list string))
  : list (Marker * list string) :=
  let total_pes := count_pes all_memory_entries in
  (flat_map (pe_block all_memory_entries) (seqZ 0 total_pes)
   ++ match all_memory_entries !! 0xFFFF with
      | Some entries => [(UnknownBlock, entries)]
      | None => []
      end)%list.

Definition marker_line (m : Marker) : string :=
  match m with
  | PEBlock pe => "// PE" +:+ Text.to_string pe +:+ " memory entries"
  | UnknownBlock => "// Unknown PE memory entries"
  end.

Definition block_lines (block : Marker * list string) : list string :=
  ("" :: marker_line (fst block) :: snd block)%list.

(** The lines of [combined_memory.mem]. *)
Definition combined_file (all_memory_entries : gmap Z (list string))
  : list string :=
  ([ "// Combined memory initialization file for all PEs";
     "// Format: @ADDRESS HEX_INSTRUCTION";
     "// Total PEs: " +:+ Text.to_string (count_pes all_memory_entries) ]
   ++ flat_map block_lines (combined_blocks all_memory_entries))%list.

(** [main] on a manifest that could be opened: the lines of the combined
    file. *)
Definition main (files : list SourceFile) : result (list string) :=
  all_memory_entries ← manifest_loop files ∅;
  Ok (combined_file all_memory_entries).

(** *** Notions used in the statements *)

(** A string of binary digits. *)
Fixpoint bit_string (s : string) : bool :=
  match s with
  | String c r => (Ascii.eqb c "0" || Ascii.eqb c "1") && bit_string r
  | EmptyString => true
  end.

(** A bit string of exactly [n] digits. *)
Definition is_word (n : nat) (s : string) : Prop :=
  String.length s = n /\ bit_string s = true.

(** The mnemonics for which [parse_instruction] has a branch. *)
Definition recognized (op : string) : bool :=
  Text.str_in op
    [ "hwlrf.lui"; "hwlrf.addi"; "lui"; "auipc";
      "add"; "sub"; "sll"; "slt"; "sltu"; "xor"; "srl"; "sra"; "or"; "and";
      "mul"; "slli"; "srli"; "srai";
      "addi"; "slti"; "sltiu"; "xori"; "ori"; "andi"; "jalr";
      "sb"; "sh"; "sw";
      "beq"; "bne"; "blt"; "bge"; "bltu"; "bgeu";
      "jal"; "ppsrf.addi"; "corf.addi"; "corf.lui"; "ret"; "nop";
      "psrf.lw"; "psrf.lb"; "psrf.zd.lw"; "psrf.sw"; "psrf.sb" ].

(** The mnemonic of a line. *)
Definition mnemonic (line : string) : string := fst (extract_token line).

(** The section in force after the reading loop has passed [lines]. *)
Fixpoint section_after (lines : list string) (in_execution_section : bool)
  : bool :=
  match lines with
  | [] => in_execution_section
  | line :: rest =>
      let trimmed := trim_string line in
      section_after rest
        (if is_skipped trimmed && Text.contains "Execution Section Begin" trimmed
         then true else in_execution_section)
  end.

(** The section bit of an address: 1 for preload, 0 for execution. *)
Definition section_bit (is_execution : bool) : Z :=
  if is_execution then 0 else 1.

(** The number of words of a section among [assembled]. *)
Fixpoint section_count (section : bool) (assembled : list AssembledInstruction)
  : Z :=
  match assembled with
  | [] => 0
  | instr :: rest =>
      (if Bool.eqb (is_execution instr) section then 1 else 0)
      + section_count section rest
  end.

(** The zero-based index of the [k]-th word inside its own section. *)
Definition local_index (assembled : list AssembledInstruction) (k : nat)
    (section : bool) : Z :=
  section_count section (take k assembled).

(** The name of a manifest entry carries the PE number [k]. *)
Definition resolved_pe (name : string) (k : Z) : Prop :=
  exists digits, regex_search_pe name = Some digits /\ Text.stoi digits = Ok k.

Definition unresolved (name : string) : bool :=
  match regex_search_pe name with
  | Some _ => false
  | None => true
  end.

(** The manifest entries [main] processes: not empty, not a comment. *)
Definition processed (files : list SourceFile) : list string :=
  List.filter (fun name => negb (String.eqb name "" || String.prefix "#" name))
    (map fst files).

(** Some processed entry carries no PE number. *)
Definition has_unresolved (files : list SourceFile) : bool :=
  existsb unresolved (processed files).

(** The lines of a file the reading loop of [assemble] hands to
    [parse_instruction]. *)
Definition instruction_lines (lines : list string) : list string :=
  List.filter (fun line => negb (is_skipped (trim_string line))) lines.

(** The number a string of binary digits denotes. *)
Definition value (s : string) : Z := binary_prefix s 0.

(** The number a string of hexadecimal digits denotes. *)
Definition hex_digit_value (c : ascii) : option Z :=
  let n := Z.of_N (N_of_ascii c) in
  if (48 <=? n) && (n <=? 57) then Some (n - 48)
  else if (97 <=? n) && (n <=? 102) then Some (n - 87)
  else if (65 <=? n) && (n <=? 70) then Some (n - 55)
  else None.

Fixpoint hex_prefix (s : string) (acc : Z) : Z :=
  match s with
  | String c r =>
      match hex_digit_value c with
      | Some d => hex_prefix r (16 * acc + d)
      | None => acc
      end
  | EmptyString => acc
  end.

Definition hex_value (s : string) : Z := hex_prefix s 0.

(** *** Notions for the text of an instruction *)

(** White space only. *)
Fixpoint all_space (s : string) : bool :=
  match s with
  | String c r => Text.is_space c && all_space r
  | EmptyString => true
  end.

Fixpoint last_not_space (s : string) : bool :=
  match s with
  | String c r =>
      match r with
      | EmptyString => negb (Text.is_space c)
      | String _ _ => last_not_space r
      end
  | EmptyString => true
  end.

Definition is_trimmed (s : string) : bool :=
  match s with
  | String c _ => negb (Text.is_space c) && last_not_space s
  | EmptyString => true
  end.

Fixpoint no_space (s : string) : bool :=
  match s with
  | String c r => negb (Text.is_space c) && no_space r
  | EmptyString => true
  end.

(** A mnemonic as [iss >> op] reads it: not empty, no white space. *)
Definition token (s : string) : bool :=
  negb (String.eqb s "") && no_space s.

Fixpoint no_newline (s : string) : bool :=
  match s with
  | String c r => negb (Ascii.eqb c (ascii_of_N 10)) && no_newline r
  | EmptyString => true
  end.

(** The flag [in_parentheses] after the splitting loop has read [s], when
    no comma of [s] stands outside parentheses. *)
Fixpoint scan (s : string) (in_parentheses : bool) : option bool :=
  match s with
  | String c r =>
      let in_parentheses :=
        if Ascii.eqb c "(" then true
        else if Ascii.eqb c ")" then false
        else in_parentheses in
      if Ascii.eqb c "," && negb in_parentheses then None
      else scan r in_parentheses
  | EmptyString => Some in_parentheses
  end.

(** An operand: not empty, no white space at its ends, no newline, its
    commas inside parentheses and its parentheses closed. *)
Definition operand (a : string) : bool :=
  negb (String.eqb a "") && is_trimmed a && no_newline a
  && match scan a false with Some false => true | _ => false end.

Fixpoint join_operands (args : list string) : string :=
  match args with
  | [] => ""
  | a :: rest =>
      match rest with
      | [] => a
      | _ :: _ => a +:+ ", " +:+ join_operands rest
      end
  end.

(** The text of an instruction: the mnemonic, and after a space the
    operands separated by a comma and a space. *)
Definition instruction_line (op : string) (args : list string) : string :=
  match args with
  | [] => op
  | _ :: _ => op +:+ " " +:+ join_operands args
  end.

Fixpoint has_char (x : ascii) (s : string) : bool :=
  match s with
  | String c r => Ascii.eqb c x || has_char x r
  | EmptyString => false
  end.

(** A text of characters that end no mnemonic and no operand: no white
    space, comma, parenthesis or colon. *)
Definition plain_char (c : ascii) : bool :=
  negb (Text.is_space c || Ascii.eqb c "," || Ascii.eqb c "("
        || Ascii.eqb c ")" || Ascii.eqb c ":").

Fixpoint plain (s : string) : bool :=
  match s with
  | String c r => plain_char c && plain r
  | EmptyString => true
  end.

(** *** Notions for file names and register operands *)

(** No [p] of the text is followed by an [e]. *)
Fixpoint no_pe (s : string) : bool :=
  match s with
  | String c r =>
      match r with
      | String c' _ =>
          negb (Ascii.eqb c "p" && Ascii.eqb c' "e") && no_pe r
      | EmptyString => true
      end
  | EmptyString => true
  end.

Fixpoint all_digits (s : string) : bool :=
  match s with
  | String c r => Text.is_digit c && all_digits r
  | EmptyString => true
  end.

(** The number a register operand [c<n>] reads as: [n] inside the table,
    register 0 outside. *)
Definition coefficient_register (n : Z) : Z :=
  if (0 <=? n) && (n <? 32) then n else 0.

(** A hexadecimal digit as [std::hex] prints it: [0]..[9] or [a]..[f]. *)
Definition is_hex_digit (c : ascii) : bool :=
  let n := N_of_ascii c in
  (((48 <=? n) && (n <=? 57)) || ((97 <=? n) && (n <=? 102)))%N.

Fixpoint hex_digits (s : string) : bool :=
  match s with
  | String c r => is_hex_digit c && hex_digits r
  | EmptyString => true
  end.

End Asm.

(** ** Sample inputs *)

Module Samples.
Import DFG.

Definition loop_10_50 : HardwareLoop :=
  {| loop_id := 1; pc_start := 10; pc_stop := 50; hwl_index := 2;
     iterations := 8 |}.

(** Base 4096 and stride 256 for [x1], clusters of 16 PEs, two banks. *)
Definition bank_config : DFGProcessor :=
  {| pe_assignments := [];
     mem_config := [("x1", 4096)];
     mem_offsets := {[ "x1_offset" := 256 ]};
     function_addresses := [];
     function_pe_assignments := [];
     total_pes := 32;
     clusters_count := 2;
     pes_per_cluster := 16;
     minimum_pes_required := 15;
     data_dup := 2;
     output_folder := "build/";
     delay_start := [] |}.

Definition blank : Instruction :=
  {| operation := ""; ra1 := "null"; ra2 := "null"; rd := "null";
     base_address := ""; format := ""; coefficients := []; var := None;
     psrf_var := []; hwl := None; imm := 0; target := ""; address := 0;
     offset := 0 |}.

Definition sample_psrf : Instruction :=
  {| operation := "psrf.lw"; ra1 := "x5"; ra2 := "null"; rd := "null";
     base_address := "x1"; format := "psrf-mem-type";
     coefficients := [("c0", 5000); ("c1", -5000); ("c2", 0); ("c3", 7)];
     var := Some 1; psrf_var := [("v0", 4); ("v1", 0)]; hwl := None;
     imm := 0; target := ""; address := 0; offset := 0 |}.

Definition sample_addi : Instruction :=
  {| operation := "ADDI"; ra1 := "x5"; ra2 := "null"; rd := "x6";
     base_address := ""; format := "i-type"; coefficients := [];
     var := None; psrf_var := []; hwl := None; imm := 3000; target := "";
     address := 0; offset := 0 |}.

Definition sample_hwl : Instruction :=
  {| operation := "hwl"; ra1 := "null"; ra2 := "null"; rd := "null";
     base_address := ""; format := "hwl-type"; coefficients := [];
     var := None; psrf_var := []; hwl := Some loop_10_50; imm := 0;
     target := ""; address := 0; offset := 0 |}.

(** Two positions per cluster: the first has a program of three
    instructions, the second has none. *)
Definition emit_config : DFGProcessor :=
  {| pe_assignments :=
       [ {| pe_id := 0; instructions := [sample_psrf; sample_addi; sample_hwl];
            has_psrf_mem_type := true; has_mem_type := false;
            required_base_registers := ["x1"]; has_hwl := true |};
         {| pe_id := 1; instructions := [];
            has_psrf_mem_type := false; has_mem_type := false;
            required_base_registers := []; has_hwl := false |} ];
     mem_config := [("x1", 4096)];
     mem_offsets := {[ "x1_offset" := 256 ]};
     function_addresses := [];
     function_pe_assignments := [];
     total_pes := 4;
     clusters_count := 2;
     pes_per_cluster := 2;
     minimum_pes_required := 1;
     data_dup := 2;
     output_folder := "build/";
     delay_start := [0; 1] |}.

(** The coefficient keys and the register index each of them names. *)
Definition coefficient_keys : list (string * Z) :=
  [("c0", 0); ("c1", 1); ("c2", 2); ("c3", 3); ("c4", 4); ("c5", 5)].

(** One preload word followed by two execution words. *)
Definition sample_words : list Asm.AssembledInstruction :=
  [ {| Asm.op := "addi"; Asm.binary := "00000000010100010000000010010011";
       Asm.hex := "00510093"; Asm.is_execution := false |};
    {| Asm.op := "nop"; Asm.binary := "00000000000000000000000000010011";
       Asm.hex := "00000013"; Asm.is_execution := true |};
    {| Asm.op := "ret"; Asm.binary := "00000000000000000000000000010011";
       Asm.hex := "00000013"; Asm.is_execution := true |} ].

(** A manifest of two named PEs and one file without a PE number. *)
Definition sample_manifest : list Asm.SourceFile :=
  [ ("build/pe2_assembly.s", Some ["nop"]);
    ("notes.s", Some ["ret"]);
    ("build/pe0_assembly.s", Some ["addi x1, x2, 5"]) ].

Definition sample_entries : gmap Z (list string) :=
  <[0 := ["@00000200 00510093"]]>
    (<[0xFFFF := ["@0003fe00 00000013"]]>
       (<[2 := ["@00000a00 00000013"]]> ∅)).

(** A manifest with a PE number above the one kept for undetermined PEs. *)
Definition wide_manifest : list Asm.SourceFile :=
  [ ("pe70000_a.s", Some ["nop"]); ("notes.s", Some ["ret"]) ].

(** The map the manifest loop builds from [wide_manifest]. *)
Definition wide_entries : gmap Z (list string) :=
  <[0xFFFF := ["@0003fe00 00000013"]]> (<[70000 := ["@0001c200 00000013"]]> ∅).

(** A load of the base instruction set and a call. *)
Definition sample_load : DFG.Instruction :=
  {| DFG.operation := "LW"; DFG.ra1 := "x5"; DFG.ra2 := "null";
     DFG.rd := "null"; DFG.base_address := "x1"; DFG.format := "mem-type";
     DFG.coefficients := []; DFG.var := None; DFG.psrf_var := [];
     DFG.hwl := None; DFG.imm := 0; DFG.target := ""; DFG.address := 0;
     DFG.offset := 8 |}.

Definition sample_jal : DFG.Instruction :=
  {| DFG.operation := "JAL"; DFG.ra1 := "null"; DFG.ra2 := "null";
     DFG.rd := "x1"; DFG.base_address := ""; DFG.format := "j-type";
     DFG.coefficients := []; DFG.var := None; DFG.psrf_var := [];
     DFG.hwl := None; DFG.imm := 0; DFG.target := "filter";
     DFG.address := 64; DFG.offset := 0 |}.

(** An assignment with one negative coefficient of large magnitude. *)
Definition sample_negative : DFG.Instruction :=
  {| DFG.operation := "psrf.lw"; DFG.ra1 := "x5"; DFG.ra2 := "null";
     DFG.rd := "null"; DFG.base_address := "x1";
     DFG.format := "psrf-mem-type";
     DFG.coefficients := [("c1", -5000)]; DFG.var := Some 1;
     DFG.psrf_var := []; DFG.hwl := None; DFG.imm := 0; DFG.target := "";
     DFG.address := 0; DFG.offset := 0 |}.

Definition negative_assignment : DFG.PEAssignment :=
  {| DFG.pe_id := 0; DFG.instructions := [sample_negative];
     DFG.has_psrf_mem_type := true; DFG.has_mem_type := false;
     DFG.required_base_registers := []; DFG.has_hwl := false |}.

(** Two files whose names carry no PE number, in the two orders. *)
Definition unnamed_manifest : list Asm.SourceFile :=
  [ ("first.s", Some ["addi x1, x0, 1"]);
    ("second.s", Some ["addi x2, x0, 2"]) ].

Definition unnamed_manifest_reversed : list Asm.SourceFile :=
  [ ("second.s", Some ["addi x2, x0, 2"]);
    ("first.s", Some ["addi x1, x0, 1"]) ].

End Samples.
Import Samples.

(** * Properties *)

Section Strings.

Lemma append_cons (x : ascii) (a b : string) :
  String x a +:+ b = String x (a +:+ b).
Proof. reflexivity. Qed.

Lemma append_assoc (a b c : string) : (a +:+ b) +:+ c = a +:+ (b +:+ c).
Proof.
  induction a as [|x a IH]; [reflexivity|].
  now rewrite !append_cons, IH.
Qed.

Lemma length_append (a b : string) :
  String.length (a +:+ b) = (String.length a + String.length b)%nat.
Proof.
  induction a as [|x a IH]; [reflexivity|].
  rewrite append_cons. cbn [String.length]. now rewrite IH.
Qed.

Lemma append_empty_r (s : string) : s +:+ "" = s.
Proof. induction s as [|c s IH]; [reflexivity|]. now rewrite append_cons, IH. Qed.

Lemma append_nil_l (s : string) : "" +:+ s = s.
Proof. reflexivity. Qed.

End Strings.

Section ImmediateCodec.
Import DFG.

Lemma land_4095 (v : Z) : Z.land v 0xFFF = v mod 4096.
Proof. change 0xFFF with (Z.ones 12). now rewrite Z.land_ones by lia. Qed.

Lemma land_ones20 (v : Z) : Z.land v 0xFFFFF = v mod 2 ^ 20.
Proof. change 0xFFFFF with (Z.ones 20). now rewrite Z.land_ones by lia. Qed.

Lemma land_2048 (v : Z) :
  Z.land v 0x800 = if v mod 4096 <? 2048 then 0 else 2048.
Proof.
  change 0x800 with (2 ^ 11).
  assert (E : Z.land v (2 ^ 11) = Z.b2z (Z.testbit v 11) * 2 ^ 11).
  { apply Z.bits_inj'. intros n Hn.
    rewrite Z.land_spec, Z.pow2_bits_eqb by lia.
    destruct (Z.testbit v 11) eqn:Hb; simpl Z.b2z.
    - rewrite Z.mul_1_l, Z.pow2_bits_eqb by lia.
      destruct (Z.eqb_spec 11 n) as [<-|Hne].
      + now rewrite Hb.
      + apply andb_false_r.
    - rewrite Z.mul_0_l, Z.bits_0.
      destruct (Z.eqb_spec 11 n) as [<-|Hne].
      + now rewrite Hb.
      + apply andb_false_r. }
  rewrite E, Z.testbit_spec' by lia.
  change (2 ^ 11) with 2048.
  destruct (Z.ltb_spec (v mod 4096) 2048); Z.to_euclidean_division_equations; lia.
Qed.

Lemma testbit_high_mask (n : Z) :
  0 <= n -> Z.testbit 0xFFFFF000 n = (12 <=? n) && (n <? 32).
Proof.
  intros Hn. change 0xFFFFF000 with (Z.shiftl (Z.ones 20) 12).
  rewrite Z.shiftl_spec by lia.
  destruct (Z.leb_spec 12 n), (Z.ltb_spec n 32); simpl.
  - apply Z.ones_spec_low; lia.
  - apply Z.ones_spec_high; lia.
  - apply Z.testbit_neg_r; lia.
  - apply Z.testbit_neg_r; lia.
Qed.

Lemma lor_high_mask (x : Z) :
  0 <= x < 2 ^ 32 -> Z.lor x 0xFFFFF000 = 0xFFFFF000 + x mod 4096.
Proof.
  intros Hx.
  assert (D : Z.land (x mod 2 ^ 12) 0xFFFFF000 = 0).
  { apply Z.bits_inj'. intros n Hn.
    rewrite Z.land_spec, Z.bits_0, testbit_high_mask by lia.
    destruct (Z.leb_spec 12 n); cbn [andb].
    - rewrite Z.mod_pow2_bits_high by lia. reflexivity.
    - apply andb_false_r. }
  change 4096 with (2 ^ 12).
  rewrite Z.add_comm, Z.add_nocarry_lxor, Z.lxor_lor by exact D.
  apply Z.bits_inj'. intros n Hn.
  rewrite !Z.lor_spec, testbit_high_mask by lia.
  destruct (Z.leb_spec 12 n), (Z.ltb_spec n 32); cbn [andb];
    rewrite ?orb_true_r, ?orb_false_r; try reflexivity.
  - rewrite Z.mod_pow2_bits_high by lia.
    destruct (Z.eq_dec x 0) as [->|]; [apply Z.bits_0|].
    apply Z.bits_above_log2; [lia|].
    apply Z.log2_lt_pow2; [lia|].
    apply Z.lt_le_trans with (2 ^ 32); [lia|].
    apply Z.pow_le_mono_r; lia.
  - now rewrite Z.mod_pow2_bits_low by lia.
  - now rewrite Z.mod_pow2_bits_low by lia.
Qed.

Lemma wrap_small (z : Z) : Int32.in_range z -> Int32.wrap z = z.
Proof.
  unfold Int32.in_range, Int32.min_signed, Int32.max_signed, Int32.wrap.
  intros H. Z.to_euclidean_division_equations; lia.
Qed.

Lemma wrap_add_l (a b : Z) : Int32.wrap (Int32.wrap a + b) = Int32.wrap (a + b).
Proof.
  unfold Int32.wrap.
  replace (((a + 2 ^ 31) mod 2 ^ 32 - 2 ^ 31 + b + 2 ^ 31))
    with ((a + 2 ^ 31) mod 2 ^ 32 + b) by lia.
  rewrite Z.add_mod_idemp_l by lia.
  f_equal. f_equal. lia.
Qed.

(** [signed12] reads the low twelve bits as a two's-complement number. *)
Lemma signed12_spec (x : Z) :
  -2048 <= x < 4096 -> signed12 x = if x <? 2048 then x else x - 4096.
Proof.
  intros Hx. unfold signed12. rewrite land_2048.
  destruct (Z.ltb_spec (x mod 4096) 2048) as [Hlo|Hhi]; cbn [negb Z.eqb].
  - destruct (Z.ltb_spec x 2048); [reflexivity|].
    Z.to_euclidean_division_equations; lia.
  - unfold Int32.to_unsigned.
    rewrite lor_high_mask by (apply Z.mod_pos_bound; lia).
    unfold Int32.wrap.
    destruct (Z.ltb_spec x 2048); Z.to_euclidean_division_equations; lia.
Qed.

(** C1. For every [int] value [v], the pair returned by
    [calculateLuiAddiValues v] rebuilds [v]: [(upper << 12) + signed12 lower],
    computed on 32-bit integers as the generator does, is [v]; from [-2048]
    upwards the equation also holds on unbounded integers.  The pair of 3000
    is (1, 3000), whose lower half reads -1096 as a signed 12-bit field; the
    pair of 5000 is (1, 904) and the pair of 100 is (0, 100). *)
Theorem calculateLuiAddiValues_roundtrip :
  (forall v : Z, Int32.in_range v ->
     lui_addi_value (fst (calculateLuiAddiValues v))
                    (signed12 (snd (calculateLuiAddiValues v))) = v
     /\ (-2048 <= v ->
         Z.shiftl (fst (calculateLuiAddiValues v)) 12
         + signed12 (snd (calculateLuiAddiValues v)) = v))
  /\ (calculateLuiAddiValues 3000 = (1, 3000) /\ signed12 3000 = -1096
      /\ 1 * 4096 + -1096 = 3000)
  /\ (calculateLuiAddiValues 5000 = (1, 904) /\ signed12 904 = 904)
  /\ (calculateLuiAddiValues 100 = (0, 100) /\ signed12 100 = 100).
Proof.
  split; [|repeat split; reflexivity].
  intros v Hv. unfold Int32.in_range, Int32.min_signed, Int32.max_signed in Hv.
  unfold calculateLuiAddiValues, lui_addi_value, Int32.add, Int32.shl.
  destruct (Z.leb_spec (-2048) v) as [Hlo|Hlo];
    [destruct (Z.leb_spec v 2047) as [Hhi|Hhi]|]; cbn [andb fst snd].
  - rewrite signed12_spec by lia.
    destruct (Z.ltb_spec v 2048); [|lia].
    change (Z.shiftl 0 12) with 0. change (Int32.wrap 0) with 0.
    split; [apply wrap_small; unfold Int32.in_range, Int32.min_signed,
              Int32.max_signed; lia | lia].
  - rewrite wrap_add_l, !land_4095, land_2048, Z.mod_mod by lia.
    rewrite signed12_spec by (Z.to_euclidean_division_equations; lia).
    destruct (Z.ltb_spec (v mod 4096) 2048); cbn [negb Z.eqb fst snd];
      rewrite land_ones20, Z.shiftr_div_pow2, Z.shiftl_mul_pow2 by lia;
      unfold Int32.wrap; change (2 ^ 12) with 4096;
      (split; [|intros _]); Z.to_euclidean_division_equations; lia.
  - rewrite wrap_add_l, !land_4095, land_2048, Z.mod_mod by lia.
    rewrite signed12_spec by (Z.to_euclidean_division_equations; lia).
    destruct (Z.ltb_spec (v mod 4096) 2048); cbn [negb Z.eqb fst snd];
      rewrite land_ones20, Z.shiftr_div_pow2, Z.shiftl_mul_pow2 by lia;
      unfold Int32.wrap; change (2 ^ 12) with 4096;
      (split; [|lia]); Z.to_euclidean_division_equations; lia.
Qed.

Lemma calculateLuiAddiValues_roundtrip_witness :
  Int32.in_range (-3000)
  /\ lui_addi_value (fst (calculateLuiAddiValues (-3000)))
                    (signed12 (snd (calculateLuiAddiValues (-3000)))) = -3000.
Proof.
  assert (H : Int32.in_range (-3000)) by (vm_compute; split; discriminate).
  split; [exact H|].
  exact (proj1 (proj1 calculateLuiAddiValues_roundtrip (-3000) H)).
Defined.

(** *** The hardware-loop word *)

Lemma lor_field (y k x : Z) :
  0 <= k -> 0 <= x < 2 ^ k -> Z.lor (y * 2 ^ k) x = y * 2 ^ k + x.
Proof.
  intros Hk Hx.
  assert (D : Z.land (y * 2 ^ k) x = 0).
  { apply Z.bits_inj'. intros n Hn.
    rewrite Z.land_spec, Z.bits_0.
    destruct (Z.lt_ge_cases n k).
    - now rewrite Z.mul_pow2_bits_low by lia.
    - replace x with (x mod 2 ^ k) by (apply Z.mod_small; lia).
      rewrite Z.mod_pow2_bits_high by lia. apply andb_false_r. }
  now rewrite (Z.add_nocarry_lxor _ _ D), (Z.lxor_lor _ _ D).
Qed.

Lemma land_ones_range (v k : Z) : 0 <= k -> 0 <= Z.land v (Z.ones k) < 2 ^ k.
Proof. intros Hk. rewrite Z.land_ones by lia. apply Z.mod_pos_bound. lia. Qed.

(** The word built by [calculateHWLImmediate] is the concatenation of its
    four masked fields: 9, 6, 5 and 12 bits, most significant first.  The
    second field is [pc_stop - pc_start]: the delay does not enter it. *)
Lemma calculateHWLImmediate_fields (hwl : HardwareLoop) (delay : Z) :
  calculateHWLImmediate hwl delay =
    Z.land (Int32.add (pc_start hwl) delay) 0x1FF * 2 ^ 23
    + Z.land (Int32.sub (pc_stop hwl) (pc_start hwl)) 0x3F * 2 ^ 17
    + Z.land (hwl_index hwl) 0x1F * 2 ^ 12
    + Z.land (iterations hwl) 0xFFF.
Proof.
  unfold calculateHWLImmediate. cbv zeta.
  pose proof (land_ones_range (Int32.add (pc_start hwl) delay) 9 ltac:(lia)) as Ha.
  pose proof (land_ones_range (Int32.sub (pc_stop hwl) (pc_start hwl)) 6
                ltac:(lia)) as Hb.
  pose proof (land_ones_range (hwl_index hwl) 5 ltac:(lia)) as Hc.
  pose proof (land_ones_range (iterations hwl) 12 ltac:(lia)) as Hd.
  change (Z.ones 9) with 0x1FF in Ha. change (Z.ones 6) with 0x3F in Hb.
  change (Z.ones 5) with 0x1F in Hc. change (Z.ones 12) with 0xFFF in Hd.
  set (a := Z.land (Int32.add (pc_start hwl) delay) 0x1FF) in *.
  set (b := Z.land (Int32.sub (pc_stop hwl) (pc_start hwl)) 0x3F) in *.
  set (c := Z.land (hwl_index hwl) 0x1F) in *.
  set (d := Z.land (iterations hwl) 0xFFF) in *.
  rewrite Z.lor_0_l, !Z.shiftl_mul_pow2 by lia.
  rewrite (lor_field a 23 (b * 2 ^ 17)) by lia.
  replace (a * 2 ^ 23 + b * 2 ^ 17) with ((a * 2 ^ 6 + b) * 2 ^ 17) by lia.
  rewrite (lor_field _ 17 (c * 2 ^ 12)) by lia.
  replace ((a * 2 ^ 6 + b) * 2 ^ 17 + c * 2 ^ 12)
    with (((a * 2 ^ 6 + b) * 2 ^ 5 + c) * 2 ^ 12) by lia.
  rewrite (lor_field _ 12 d) by lia.
  lia.
Qed.

Lemma calculateHWLImmediate_range (hwl : HardwareLoop) (delay : Z) :
  0 <= calculateHWLImmediate hwl delay < 2 ^ 32.
Proof.
  rewrite calculateHWLImmediate_fields.
  pose proof (land_ones_range (Int32.add (pc_start hwl) delay) 9 ltac:(lia)) as Ha.
  pose proof (land_ones_range (Int32.sub (pc_stop hwl) (pc_start hwl)) 6
                ltac:(lia)) as Hb.
  pose proof (land_ones_range (hwl_index hwl) 5 ltac:(lia)) as Hc.
  pose proof (land_ones_range (iterations hwl) 12 ltac:(lia)) as Hd.
  change (Z.ones 9) with 0x1FF in Ha. change (Z.ones 6) with 0x3F in Hb.
  change (Z.ones 5) with 0x1F in Hc. change (Z.ones 12) with 0xFFF in Hd.
  lia.
Qed.

Lemma wrap_congruent (z : Z) : exists q, Int32.wrap z = z + q * 2 ^ 32.
Proof.
  exists (- ((z + 2 ^ 31) / 2 ^ 32)). unfold Int32.wrap.
  Z.to_euclidean_division_equations; lia.
Qed.

(** Masking to a field of at most 32 bits does not see the wrap-around. *)
Lemma land_wrap (z k : Z) :
  0 <= k <= 32 -> Z.land (Int32.wrap z) (Z.ones k) = Z.land z (Z.ones k).
Proof.
  intros Hk. rewrite !Z.land_ones by lia.
  destruct (wrap_congruent z) as [q ->].
  replace (q * 2 ^ 32) with (q * 2 ^ (32 - k) * 2 ^ k).
  - apply Z.mod_add. apply Z.pow_nonzero; lia.
  - rewrite <- Z.mul_assoc, <- Z.pow_add_r by lia. do 2 f_equal. lia.
Qed.

(** Without a delay the code and the specification build the same word. *)
Lemma calculateHWLImmediate_no_delay (hwl : HardwareLoop) :
  calculateHWLImmediate hwl 0 = packHardwareLoop_spec hwl 0.
Proof.
  unfold calculateHWLImmediate, packHardwareLoop_spec, Int32.add, Int32.sub.
  cbv zeta. rewrite Z.lor_0_l, !Z.add_0_r.
  change 0x1FF with (Z.ones 9). change 0x3F with (Z.ones 6).
  now rewrite !land_wrap by lia.
Qed.

(** C2. With a delay of one cycle the loop (pc_start 10, pc_stop 50,
    index 2, 8 iterations) is packed by [calculateHWLImmediate] with a span
    field of 40, which is [pc_stop - pc_start]; the span counted from the
    delayed start, [pc_stop - (pc_start + delay)], is 39, so the word differs
    from the one the specification describes. *)
Theorem calculateHWLImmediate_span_without_delay :
  calculateHWLImmediate loop_10_50 1 = 97525768
  /\ Z.land (Z.shiftr (calculateHWLImmediate loop_10_50 1) 23) 0x1FF = 11
  /\ Z.land (Z.shiftr (calculateHWLImmediate loop_10_50 1) 17) 0x3F = 40
  /\ Z.land (pc_stop loop_10_50 - (pc_start loop_10_50 + 1)) 0x3F = 39
  /\ packHardwareLoop_spec loop_10_50 1 = 97394696
  /\ calculateHWLImmediate loop_10_50 1 <> packHardwareLoop_spec loop_10_50 1.
Proof. repeat split; try reflexivity. vm_compute. discriminate. Qed.

End ImmediateCodec.

Section AddressPlanner.
Import DFG Text.

Lemma wrap_add_r (a b : Z) : Int32.wrap (a + Int32.wrap b) = Int32.wrap (a + b).
Proof. now rewrite (Z.add_comm a), wrap_add_l, (Z.add_comm b). Qed.

Lemma add_add_mul (base stride cluster bank : Z) :
  Int32.add (Int32.add base (Int32.mul stride cluster)) bank
  = Int32.wrap (base + stride * cluster + bank).
Proof. unfold Int32.add, Int32.mul. now rewrite wrap_add_r, wrap_add_l. Qed.

Lemma add_mul (base stride cluster : Z) :
  Int32.add base (Int32.mul stride cluster)
  = Int32.wrap (base + stride * cluster).
Proof. unfold Int32.add, Int32.mul. now rewrite wrap_add_r. Qed.

(** C5. For a base symbol whose stride is configured and not zero,
    [calculateClusterBaseAddress] with duplication factor 2 returns
    base + stride * cluster + 100000 for a PE above 15 and
    base + stride * cluster for the others, as 32-bit integers, hence
    exactly these sums whenever they are representable.  A symbol whose
    stride is absent or zero gets its plain base address for every
    duplication factor.  With base 4096, stride 256, 16 PEs per cluster,
    PE 20 lies in cluster 1 and gets 104352. *)
Theorem calculateClusterBaseAddress_banks :
  (forall (d : DFGProcessor) (reg : string) (cluster pe stride : Z),
      mem_offsets d !! (reg +:+ "_offset") = Some stride ->
      stride <> 0 ->
      let base := default 0 (assoc reg (mem_config d)) in
      (pe > 15 ->
       calculateClusterBaseAddress d reg cluster 2 pe
         = Int32.wrap (base + stride * cluster + 100000)
       /\ (Int32.in_range (base + stride * cluster + 100000) ->
           calculateClusterBaseAddress d reg cluster 2 pe
             = base + stride * cluster + 100000))
      /\ (pe <= 15 ->
          calculateClusterBaseAddress d reg cluster 2 pe
            = Int32.wrap (base + stride * cluster)
          /\ (Int32.in_range (base + stride * cluster) ->
              calculateClusterBaseAddress d reg cluster 2 pe
                = base + stride * cluster)))
  /\ (forall (d : DFGProcessor) (reg : string) (cluster dup pe : Z),
        mem_offsets d !! (reg +:+ "_offset") = None
        \/ mem_offsets d !! (reg +:+ "_offset") = Some 0 ->
        calculateClusterBaseAddress d reg cluster dup pe
          = default 0 (assoc reg (mem_config d)))
  /\ (getClusterNumber bank_config 20 = 1
      /\ calculateClusterBaseAddress bank_config "x1"
           (getClusterNumber bank_config 20) 2 20 = 104352
      /\ 4096 + 256 * 1 + 100000 = 104352).
Proof.
  split; [|split; [|repeat split; reflexivity]].
  - intros d reg cluster pe stride Hs Hnz base.
    unfold calculateClusterBaseAddress. rewrite Hs.
    destruct (Z.eqb_spec stride 0) as [|_]; [contradiction|].
    cbn [Z.eqb Pos.eqb]. fold base.
    split; intros Hpe.
    + destruct (Z.gtb_spec pe 15); [|lia].
      rewrite add_add_mul. split; [reflexivity|]. apply wrap_small.
    + destruct (Z.gtb_spec pe 15); [lia|].
      rewrite add_mul. split; [reflexivity|]. apply wrap_small.
  - intros d reg cluster dup pe [H|H];
      unfold calculateClusterBaseAddress; rewrite H; reflexivity.
Qed.

Lemma calculateClusterBaseAddress_banks_witness :
  calculateClusterBaseAddress bank_config "x1" 1 2 20 = 4096 + 256 * 1 + 100000.
Proof.
  refine (proj2 (proj1 (proj1 calculateClusterBaseAddress_banks
                          bank_config "x1" 1 20 256 _ _) _) _).
  - reflexivity.
  - discriminate.
  - reflexivity.
  - vm_compute. split; discriminate.
Defined.

End AddressPlanner.

Section ProgramEmitter.
Import DFG Text.

(** The forms of a coefficient load in the preload block: the pair
    [corf.lui] (of [value >> 12]) and [corf.addi] (of [value & 0xFFF])
    exactly when the signed value is above 4095, a single [corf.addi]
    carrying the value otherwise, and nothing for a coefficient of zero. *)
Lemma preload_coefficient_forms (reg_base value idx : Z) (key : string) :
  (key, idx) ∈ coefficient_keys ->
  let reg_num := Int32.add reg_base idx in
  let lui :=
    "    corf.lui c" +:+ to_string reg_num +:+ ", "
    +:+ to_string (Z.shiftr value 12) +:+ nl in
  let addi v :=
    "    corf.addi c" +:+ to_string reg_num +:+ ", c" +:+ to_string reg_base
    +:+ ", " +:+ to_string v +:+ nl in
  (value = 0 -> preload_coefficient reg_base (key, value) = Ok "")
  /\ (value > 4095 ->
      preload_coefficient reg_base (key, value)
        = Ok (lui +:+ addi (Z.land value 0xFFF)))
  /\ (value <> 0 -> value <= 4095 ->
      preload_coefficient reg_base (key, value) = Ok (addi value))
  /\ (value <> 0 ->
      (exists rest, preload_coefficient reg_base (key, value)
                    = Ok ("    corf.lui" +:+ rest))
      <-> value > 4095).
Proof.
  intros Hkey reg_num lui addi.
  assert (Hreg : key_register key = Ok idx).
  { unfold coefficient_keys in Hkey.
    repeat (apply elem_of_cons in Hkey as [Hkey|Hkey];
            [injection Hkey as -> ->; reflexivity|]).
    now apply elem_of_nil in Hkey. }
  unfold preload_coefficient. rewrite Hreg. cbn [mbind result_bind].
  fold reg_num.
  repeat split.
  - now intros ->.
  - intros Hv. destruct (Z.eqb_spec value 0); [lia|].
    destruct (Z.gtb_spec value 4095); [|lia].
    subst lui addi. cbn beta. now rewrite !append_assoc.
  - intros Hnz Hv. destruct (Z.eqb_spec value 0); [lia|].
    destruct (Z.gtb_spec value 4095); [lia|]. reflexivity.
  - intros [rest Hrest]. destruct (Z.eqb_spec value 0); [lia|].
    destruct (Z.gtb_spec value 4095); [lia|]. discriminate Hrest.
  - intros Hv. destruct (Z.eqb_spec value 0); [lia|].
    destruct (Z.gtb_spec value 4095); [|lia]. eexists. reflexivity.
Qed.

(** C6. [generatePreloadSection] tests [value > 4095] on the signed
    coefficient, under the comment "corf.addi range is 0 to 4095. If
    negative, we need to sign extend the value": a coefficient below -4095,
    whose magnitude exceeds 4095, is not given the two-instruction form but a
    single [corf.addi] carrying the value.  For the assignment with the one
    coefficient -5000 under [c1] and selector 1 the section holds the line
    [corf.addi c7, c6, -5000], which the assembler encodes with the immediate
    field 0xC78 = 3192, the value modulo 4096. *)
Theorem generatePreloadSection_negative_coefficient :
  (forall (a : PEAssignment) (instr : Instruction) (key : string)
          (value register : Z),
      instructions a = [instr] ->
      format instr = "psrf-mem-type" ->
      psrf_var instr = [] ->
      coefficients instr = [(key, value)] ->
      key_register key = Ok register ->
      value < -4095 ->
      let selector := default 0 (var instr) in
      let reg_base := Int32.mul selector 6 in
      generatePreloadSection a
      = Ok ("    # Preload section for PSRF variables and coefficients" +:+ nl
            +:+ "    # Using var=" +:+ to_string selector
            +:+ " (registers " +:+ to_string reg_base +:+ "-"
            +:+ to_string (Int32.add reg_base 5) +:+ ")" +:+ nl
            +:+ "    corf.addi c" +:+ to_string (Int32.add reg_base register)
            +:+ ", c" +:+ to_string reg_base
            +:+ ", " +:+ to_string value +:+ nl
            +:+ nl))
  /\ Z.abs (-5000) > 4095
  /\ generatePreloadSection negative_assignment
     = Ok ("    # Preload section for PSRF variables and coefficients" +:+ nl
           +:+ "    # Using var=1 (registers 6-11)" +:+ nl
           +:+ "    corf.addi c7, c6, -5000" +:+ nl
           +:+ nl)
  /\ Asm.read_loop ["    corf.addi c7, c6, -5000"] false
     = Ok [ {| Asm.op := "corf.addi";
               Asm.binary := "11000111100000110000001110010100";
               Asm.hex := "c7830394";
               Asm.is_execution := false |} ]
  /\ Asm.value (substring 0 12 "11000111100000110000001110010100") = 0xC78
  /\ 0xC78 = (-5000) mod 4096
  /\ 0xC78 <> -5000.
Proof.
  split; [|repeat split; try (vm_compute; reflexivity); discriminate].
  intros a instr key value register Ha Hf Hp Hc Hk Hv selector reg_base.
  unfold generatePreloadSection. rewrite Ha. cbn [preload_loop].
  rewrite Hf. cbn [String.eqb Ascii.eqb Bool.eqb andb].
  unfold preload_instruction. rewrite Hp, Hc. cbn [concat_mapM].
  unfold preload_coefficient.
  destruct (Z.eqb_spec value 0) as [|_]; [lia|].
  rewrite Hk. cbn [mbind result_bind].
  destruct (Z.gtb_spec value 4095) as [|_]; [lia|].
  cbn [mbind result_bind negb andb].
  fold selector. fold reg_base. f_equal.
  rewrite ?append_assoc. reflexivity.
Qed.

Lemma generatePreloadSection_negative_coefficient_witness :
  generatePreloadSection negative_assignment
  = Ok ("    # Preload section for PSRF variables and coefficients" +:+ nl
        +:+ "    # Using var=1 (registers 6-11)" +:+ nl
        +:+ "    corf.addi c7, c6, -5000" +:+ nl
        +:+ nl).
Proof.
  apply (proj1 generatePreloadSection_negative_coefficient
           negative_assignment sample_negative "c1" (-5000) 1);
    try reflexivity.
Defined.

(** *** Which PEs receive a program *)

Lemma concat_mapM_ok {A : Type} (f : A -> result string) (l : list A) :
  (forall x, x ∈ l -> exists s, f x = Ok s) ->
  exists s, concat_mapM f l = Ok s.
Proof.
  induction l as [|x l IH]; intros H; cbn [concat_mapM].
  - now exists "".
  - destruct (H x) as [s Hs]; [apply elem_of_cons; now left|].
    destruct IH as [t Ht]; [intros y Hy; apply H, elem_of_cons; now right|].
    rewrite Hs. cbn [mbind result_bind]. rewrite Ht.
    now exists (s +:+ t).
Qed.

Lemma preload_psrf_var_ok (reg_base value : Z) (key : string) :
  (value <> 0 -> exists r, key_register key = Ok r) ->
  exists s, preload_psrf_var reg_base (key, value) = Ok s.
Proof.
  intros H. unfold preload_psrf_var.
  destruct (Z.eqb_spec value 0) as [|Hnz]; [now eexists|].
  destruct (H Hnz) as [r ->]. now eexists.
Qed.

Lemma preload_coefficient_ok (reg_base value : Z) (key : string) :
  (value <> 0 -> exists r, key_register key = Ok r) ->
  exists s, preload_coefficient reg_base (key, value) = Ok s.
Proof.
  intros H. unfold preload_coefficient.
  destruct (Z.eqb_spec value 0) as [|Hnz]; [now eexists|].
  destruct (H Hnz) as [r ->]. cbn [mbind result_bind].
  destruct (value >? 4095); now eexists.
Qed.

Lemma preload_instruction_ok (instr : Instruction) :
  (forall key value,
      (key, value) ∈ (psrf_var instr ++ coefficients instr)%list ->
      value <> 0 -> exists r, key_register key = Ok r) ->
  exists s, preload_instruction instr = Ok s.
Proof.
  intros H. unfold preload_instruction.
  destruct (concat_mapM_ok (preload_psrf_var (Int32.mul (default 0 (var instr)) 6))
              (psrf_var instr)) as [vars ->].
  { intros [key value] Hin. apply preload_psrf_var_ok. intros Hnz.
    apply (H key value); [apply elem_of_app; now left | exact Hnz]. }
  destruct (concat_mapM_ok
              (preload_coefficient (Int32.mul (default 0 (var instr)) 6))
              (coefficients instr)) as [coefs ->].
  { intros [key value] Hin. apply preload_coefficient_ok. intros Hnz.
    apply (H key value); [apply elem_of_app; now right | exact Hnz]. }
  now eexists.
Qed.

Lemma preload_loop_ok (instrs : list Instruction) :
  (forall instr key value,
      instr ∈ instrs -> format instr = "psrf-mem-type" ->
      (key, value) ∈ (psrf_var instr ++ coefficients instr)%list ->
      value <> 0 -> exists r, key_register key = Ok r) ->
  forall preload has_psrf,
  exists r, preload_loop instrs preload has_psrf = Ok r.
Proof.
  induction instrs as [|instr rest IH]; intros H preload has_psrf;
    cbn [preload_loop].
  - now eexists.
  - assert (Hrest : forall i key value,
               i ∈ rest -> format i = "psrf-mem-type" ->
               (key, value) ∈ (psrf_var i ++ coefficients i)%list ->
               value <> 0 -> exists r, key_register key = Ok r).
    { intros i key value Hi. apply H, elem_of_cons. now right. }
    destruct (String.eqb_spec (format instr) "psrf-mem-type") as [Hf|Hf].
    + destruct (preload_instruction_ok instr) as [text ->].
      { intros key value. apply H; [apply elem_of_cons; now left | exact Hf]. }
      cbn [mbind result_bind]. now apply IH.
    + now apply IH.
Qed.

Lemma generatePreloadSection_ok (a : PEAssignment) :
  valid_keys a -> exists s, generatePreloadSection a = Ok s.
Proof.
  intros H. unfold generatePreloadSection.
  destruct (preload_loop_ok (instructions a) H
              ("    # Preload section for PSRF variables and coefficients" +:+ nl)
              false) as [[preload has_psrf] ->].
  cbn [mbind result_bind]. destruct has_psrf; now eexists.
Qed.

Lemma pe_program_ok (d : DFGProcessor) (pe : Z) (a : PEAssignment) :
  valid_keys a -> exists s, pe_program d pe a = Ok s.
Proof.
  intros H. unfold pe_program.
  assert (Hpre : exists s,
             (if has_psrf_mem_type a || has_mem_type a
              then generatePreloadSection a else Ok "") = Ok s).
  { destruct (has_psrf_mem_type a || has_mem_type a);
      [now apply generatePreloadSection_ok | now eexists]. }
  destruct Hpre as [preload ->]. cbn [mbind result_bind].
  destruct (instruction_loop d (instructions a) 0 pe). now eexists.
Qed.

(** One round of the loop writes a file exactly under [program_condition]. *)
Lemma generate_pe_spec (d : DFGProcessor) (pe : Z) :
  0 < pes_per_cluster d ->
  (forall i, 0 <= i < pes_per_cluster d -> i <= minimum_pes_required d ->
             (Z.to_nat i < length (pe_assignments d))%nat) ->
  (forall a, a ∈ pe_assignments d -> valid_keys a) ->
  0 <= pe ->
  exists file, generate_pe d pe = Ok file
    /\ (forall f, file = Some f -> file_pe f = pe)
    /\ (is_Some file <-> program_condition d pe).
Proof.
  intros Hppc Hidx Hkeys Hpe. unfold generate_pe, program_condition.
  destruct (Z.eqb_spec (pes_per_cluster d) 0) as [|_]; [lia|].
  rewrite Z.rem_mod_nonneg by lia.
  pose proof (Z.mod_pos_bound pe (pes_per_cluster d) Hppc) as Hb.
  set (base_pe := pe mod pes_per_cluster d) in *.
  destruct (Z.gtb_spec base_pe (minimum_pes_required d)) as [Hgt|Hle].
  { exists None. split; [reflexivity|]. split; [discriminate|].
    split; [intros [? [=]] | intros [? _]; lia]. }
  destruct (lookup_lt_is_Some_2 (pe_assignments d) (Z.to_nat base_pe))
    as [a Ha]; [now apply Hidx|].
  rewrite Ha.
  set (size := Z.of_nat (length (instructions a))).
  destruct ((size >=? 10000) || (size =? 0)) eqn:Hsize.
  { exists None. split; [reflexivity|]. split; [discriminate|].
    split; [intros [? [=]] |].
    intros [_ (a' & Ha' & Hlen)]. injection Ha' as <-.
    fold size in Hlen. apply orb_true_iff in Hsize as [Hs|Hs]; lia. }
  destruct (pe_program_ok d pe a) as [text ->].
  { apply Hkeys. eapply list_elem_of_lookup_2. exact Ha. }
  cbn [mbind result_bind]. eexists. split; [reflexivity|].
  split; [now intros f [= <-]|].
  split; [|intros _; now eexists].
  intros _. split; [exact Hle|]. exists a. split; [reflexivity|].
  fold size. apply orb_false_iff in Hsize as [Hs1 Hs2]. unfold size in *. lia.
Qed.

Lemma generate_loop_spec (d : DFGProcessor) (pes : list Z) :
  0 < pes_per_cluster d ->
  (forall i, 0 <= i < pes_per_cluster d -> i <= minimum_pes_required d ->
             (Z.to_nat i < length (pe_assignments d))%nat) ->
  (forall a, a ∈ pe_assignments d -> valid_keys a) ->
  (forall pe, pe ∈ pes -> 0 <= pe) ->
  exists files, generate_loop d pes = Ok files
    /\ forall pe, pe ∈ map file_pe files <-> pe ∈ pes /\ program_condition d pe.
Proof.
  intros Hppc Hidx Hkeys. induction pes as [|p pes IH]; intros Hpos;
    cbn [generate_loop].
  - exists []. split; [reflexivity|]. intros pe. cbn [map].
    rewrite !elem_of_nil. tauto.
  - destruct (generate_pe_spec d p Hppc Hidx Hkeys) as (file & -> & Hfile & Hcond).
    { apply Hpos, elem_of_cons. now left. }
    destruct IH as (files & -> & IH).
    { intros q Hq. apply Hpos, elem_of_cons. now right. }
    cbn [mbind result_bind]. eexists. split; [reflexivity|].
    intros pe. destruct file as [f|].
    + cbn [map]. rewrite !elem_of_cons, IH, (Hfile f eq_refl).
      split.
      * intros [->|[? ?]]; [|tauto]. split; [now left|]. apply Hcond. now eexists.
      * intros [[->|?] ?]; tauto.
    + rewrite elem_of_cons, IH. split; [tauto|].
      intros [[->|?] Hc]; [|tauto].
      apply Hcond in Hc. destruct Hc as [? [=]].
Qed.

(** The text of a program: the heading, then the blocks in the order the
    generator writes them. *)
Lemma pe_program_text (d : DFGProcessor) (pe : Z) (a : PEAssignment)
    (text : string) :
  pe_program d pe a = Ok text ->
  exists preload,
    (if has_psrf_mem_type a || has_mem_type a
     then generatePreloadSection a else Ok "") = Ok preload
    /\ text
       = "# Assembly for PE" +:+ to_string pe
         +:+ " (Cluster " +:+ to_string (getClusterNumber d pe) +:+ ")" +:+ nl
         +:+ "# Generated with PSRF, HWL and function support" +:+ nl
         +:+ ".text" +:+ nl
         +:+ ".global _start" +:+ nl +:+ nl
         +:+ "_start:" +:+ nl
         +:+ match required_base_registers a with
             | [] => ""
             | _ :: _ => generateBaseAddressLoading d pe (data_dup d)
             end
         +:+ preload
         +:+ "    # ========== Execution Section Begin ==========" +:+ nl
         +:+ (if delay_of d pe >? 0
              then "    # Adding " +:+ to_string (delay_of d pe)
                   +:+ " NOPs for delay" +:+ nl
                   +:+ concat_map (fun _ => "    nop" +:+ nl)
                         (seq 0 (Z.to_nat (delay_of d pe)))
                   +:+ nl
              else "")
         +:+ fst (instruction_loop d (instructions a) 0 pe)
         +:+ match function_pe_assignments d with
             | [] => ""
             | _ :: _ =>
                 nl +:+ "    # ========== Function Sections =========="
                 +:+ nl
                 +:+ fst (function_loop d pe (function_pe_assignments d)
                            (snd (instruction_loop d (instructions a) 0 pe)))
             end
         +:+ "    # End of program" +:+ nl
         +:+ "    ret" +:+ nl.
Proof.
  unfold pe_program.
  destruct (if has_psrf_mem_type a || has_mem_type a
            then generatePreloadSection a else Ok "") as [preload|];
    cbn [mbind result_bind]; [|discriminate].
  destruct (instruction_loop d (instructions a) 0 pe) as [body hwl_count].
  intros [= <-]. exists preload. split; [reflexivity|]. cbn [fst snd].
  destruct (required_base_registers a), (delay_of d pe >? 0),
    (function_pe_assignments d); rewrite ?append_assoc, ?append_empty_r;
    rewrite ?append_nil_l; reflexivity.
Qed.

Lemma generate_pe_file (d : DFGProcessor) (pe : Z) (f : AssemblyFile) :
  generate_pe d pe = Ok (Some f) ->
  file_pe f = pe
  /\ file_name f
     = output_folder d +:+ "pe" +:+ to_string pe +:+ "_assembly.s"
  /\ exists a,
       pe_assignments d !! Z.to_nat (Z.rem pe (pes_per_cluster d)) = Some a
       /\ pe_program d pe a = Ok (file_text f).
Proof.
  unfold generate_pe.
  destruct (pes_per_cluster d =? 0); [discriminate|].
  destruct (_ >? _); [discriminate|].
  destruct (pe_assignments d !! _) as [a|]; [|discriminate].
  destruct (_ || _); [discriminate|].
  destruct (pe_program d pe a) as [text|] eqn:Ht; cbn [mbind result_bind];
    [|discriminate].
  intros [= <-]. cbn [file_pe file_name file_text]. eauto.
Qed.

Lemma generate_loop_files (d : DFGProcessor) (pes : list Z) :
  forall files,
    generate_loop d pes = Ok files ->
    (forall f, f ∈ files -> generate_pe d (file_pe f) = Ok (Some f))
    /\ map file_pe files `sublist_of` pes.
Proof.
  induction pes as [|p pes IH]; intros files; cbn [generate_loop].
  - intros [= <-]. split; [intros f Hf; now apply elem_of_nil in Hf|].
    constructor.
  - destruct (generate_pe d p) as [file|] eqn:Hp; cbn [mbind result_bind];
      [|discriminate].
    destruct (generate_loop d pes) as [rest|]; cbn [mbind result_bind];
      [|discriminate].
    destruct (IH rest eq_refl) as [Hrest Hsub]. intros [= <-].
    destruct file as [f0|].
    + destruct (generate_pe_file d p f0 Hp) as (Hpe & _). split.
      * intros f Hf. apply elem_of_cons in Hf as [->|Hf]; [|now apply Hrest].
        now rewrite Hpe.
      * cbn [map]. rewrite Hpe. now apply sublist_skip.
    + split; [exact Hrest | now apply sublist_cons].
Qed.

(** C8. On a configuration whose cluster size is positive, whose
    assignment vector covers the positions the loop reads and whose preload
    keys name registers, [generateAssembly] runs to the end and writes a
    program for a PE exactly when the PE is one of [0 .. total_pes - 1],
    [pe mod pes_per_cluster <= minimum_pes_required] and the assignment at
    that position has at least 1 and fewer than 10000 instructions; every
    other PE is skipped.  No PE gets two files, and the file of a PE is
    named [pe<N>_assembly.s] and holds the program of the assignment at its
    position: the heading, the base-address block, the preload block, the
    marker of the execution section, the delay block, the translated
    instructions, the function blocks and the final [ret]. *)
Theorem generateAssembly_emits_iff (d : DFGProcessor) :
  0 < pes_per_cluster d ->
  (forall i, 0 <= i < pes_per_cluster d -> i <= minimum_pes_required d ->
             (Z.to_nat i < length (pe_assignments d))%nat) ->
  (forall a, a ∈ pe_assignments d -> valid_keys a) ->
  exists files, generateAssembly d = Ok files
    /\ (forall pe, pe ∈ map file_pe files
                   <-> 0 <= pe < total_pes d /\ program_condition d pe)
    /\ NoDup (map file_pe files)
    /\ (forall f, f ∈ files ->
        let pe := file_pe f in
        exists a preload,
          pe_assignments d !! Z.to_nat (pe mod pes_per_cluster d) = Some a
          /\ (if has_psrf_mem_type a || has_mem_type a
              then generatePreloadSection a else Ok "") = Ok preload
          /\ file_name f
             = output_folder d +:+ "pe" +:+ to_string pe +:+ "_assembly.s"
          /\ file_text f
             = "# Assembly for PE" +:+ to_string pe
               +:+ " (Cluster " +:+ to_string (getClusterNumber d pe) +:+ ")"
               +:+ nl
               +:+ "# Generated with PSRF, HWL and function support" +:+ nl
               +:+ ".text" +:+ nl
               +:+ ".global _start" +:+ nl +:+ nl
               +:+ "_start:" +:+ nl
               +:+ match required_base_registers a with
                   | [] => ""
                   | _ :: _ => generateBaseAddressLoading d pe (data_dup d)
                   end
               +:+ preload
               +:+ "    # ========== Execution Section Begin =========="
               +:+ nl
               +:+ (if delay_of d pe >? 0
                    then "    # Adding " +:+ to_string (delay_of d pe)
                         +:+ " NOPs for delay" +:+ nl
                         +:+ concat_map (fun _ => "    nop" +:+ nl)
                               (seq 0 (Z.to_nat (delay_of d pe)))
                         +:+ nl
                    else "")
               +:+ fst (instruction_loop d (instructions a) 0 pe)
               +:+ match function_pe_assignments d with
                   | [] => ""
                   | _ :: _ =>
                       nl +:+ "    # ========== Function Sections =========="
                       +:+ nl
                       +:+ fst (function_loop d pe (function_pe_assignments d)
                                  (snd (instruction_loop d (instructions a)
                                          0 pe)))
                   end
               +:+ "    # End of program" +:+ nl
               +:+ "    ret" +:+ nl).
Proof.
  intros Hppc Hidx Hkeys. unfold generateAssembly.
  destruct (generate_loop_spec d (seqZ 0 (total_pes d)) Hppc Hidx Hkeys)
    as (files & Hrun & Hfiles).
  { intros pe Hpe. apply elem_of_seqZ in Hpe. lia. }
  destruct (generate_loop_files d _ files Hrun) as [Hfile Hsub].
  exists files. split; [exact Hrun|]. split; [|split].
  - intros pe. rewrite Hfiles, elem_of_seqZ. intuition lia.
  - exact (sublist_NoDup _ _ (NoDup_seqZ _ _) Hsub).
  - intros f Hf. cbv zeta. set (pe := file_pe f).
    assert (Hpe : 0 <= pe).
    { assert (Hin : pe ∈ map file_pe files)
        by (apply list_elem_of_fmap; eauto).
      apply Hfiles in Hin as [Hin _]. apply elem_of_seqZ in Hin. lia. }
    destruct (generate_pe_file d pe f (Hfile f Hf))
      as (_ & Hname & a & Ha & Ht).
    rewrite Z.rem_mod_nonneg in Ha by lia.
    destruct (pe_program_text d pe a _ Ht) as (preload & Hpre & Htext).
    exists a, preload. auto.
Qed.

Ltac list_cases H :=
  repeat (apply elem_of_cons in H as [H|H]); [..|now apply elem_of_nil in H].

Lemma emit_config_valid_keys (a : PEAssignment) :
  a ∈ pe_assignments emit_config -> valid_keys a.
Proof.
  intros Ha instr key value Hin Hf Hkv Hnz.
  cbn [pe_assignments emit_config] in Ha. list_cases Ha; subst a;
    cbn [instructions] in Hin; [|now apply elem_of_nil in Hin].
  list_cases Hin; subst instr; try discriminate Hf.
  cbn [psrf_var coefficients sample_psrf app] in Hkv.
  list_cases Hkv; injection Hkv as -> ->; try (now eexists); now destruct Hnz.
Qed.

Lemma generateAssembly_emits_iff_witness :
  exists files, generateAssembly emit_config = Ok files
    /\ (forall pe, pe ∈ map file_pe files
                   <-> 0 <= pe < total_pes emit_config
                       /\ program_condition emit_config pe)
    /\ NoDup (map file_pe files)
    /\ (forall f, f ∈ files ->
        exists a preload,
          pe_assignments emit_config
            !! Z.to_nat (file_pe f mod pes_per_cluster emit_config) = Some a
          /\ (if has_psrf_mem_type a || has_mem_type a
              then generatePreloadSection a else Ok "") = Ok preload
          /\ file_name f
             = "build/" +:+ "pe" +:+ to_string (file_pe f) +:+ "_assembly.s"
          /\ exists rest,
               file_text f = "# Assembly for PE" +:+ to_string (file_pe f)
                             +:+ rest).
Proof.
  destruct (generateAssembly_emits_iff emit_config)
    as (files & H1 & H2 & H3 & H4).
  - reflexivity.
  - cbn [pes_per_cluster minimum_pes_required pe_assignments emit_config length].
    intros i Hi _. lia.
  - exact emit_config_valid_keys.
  - exists files. split; [exact H1|]. split; [exact H2|]. split; [exact H3|].
    intros f Hf. destruct (H4 f Hf) as (a & preload & Ha & Hp & Hn & Ht).
    exists a, preload. split; [exact Ha|]. split; [exact Hp|].
    split; [exact Hn|]. eexists. exact Ht.
Defined.

(** The run on the sample configuration: PEs 0 and 2 sit at position 0 and
    get a file; PEs 1 and 3 sit at the empty position 1 and are skipped. *)
Example generateAssembly_emit_config :
  (files ← generateAssembly emit_config; Ok (map file_name files))
  = Ok ["build/pe0_assembly.s"; "build/pe2_assembly.s"].
Proof. vm_compute. reflexivity. Qed.

(** The program written for PE 0 of the sample configuration. *)
Example generateAssembly_emit_config_program :
  (files ← generateAssembly emit_config; Ok (map file_text (take 1 files)))
  = Ok [ concat_map (fun l => l +:+ nl)
           [ "# Assembly for PE0 (Cluster 0)";
             "# Generated with PSRF, HWL and function support";
             ".text";
             ".global _start";
             "";
             "_start:";
             "    # Base address loading section for cluster 0";
             "    # Loading x1 with address 0x1000 (4096)";
             "    # Using lui 1 and addi 0 to create 4096";
             "    lui x1, 1";
             "    addi x1, x1, 0";
             "";
             "    # Preload section for PSRF variables and coefficients";
             "    # Using var=1 (registers 6-11)";
             "    ppsrf.addi v6, v6, 4";
             "    corf.lui c6, 1";
             "    corf.addi c6, c6, 904";
             "    corf.addi c7, c6, -5000";
             "    corf.addi c9, c6, 7";
             "";
             "    # ========== Execution Section Begin ==========";
             "    psrf.lw x5, 1(x1)";
             "    # Loading immediate 3000 using LUI+ADDI: 1 << 12 + -1096 = 3000";
             "    lui x6, 1";
             "    addi x6, x5, -1096";
             "    # hwl_imm_1 = ((10 << 23) + (40 << 17) + (2 << 12) + 8";
             "    # Original pc_start=10, pc_stop=50, delay=0";
             "    hwlrf.lui L1, 21762";
             "    hwlrf.addi L1, L1, 8";
             "    # End of program";
             "    ret" ] ].
Proof. vm_compute. reflexivity. Qed.

End ProgramEmitter.

Section Encoder.
Import Asm.

Lemma length_substring (s : string) (a b : nat) :
  (a + b <= String.length s)%nat -> String.length (substring a b s) = b.
Proof.
  revert a b. induction s as [|c s IH]; intros a b H; cbn [String.length] in H.
  - assert (a = 0%nat) by lia. assert (b = 0%nat) by lia. now subst.
  - destruct a as [|a]; cbn [substring].
    + destruct b as [|b]; [reflexivity|]. cbn [String.length].
      f_equal. apply (IH 0%nat). lia.
    + apply IH. lia.
Qed.

Lemma bit_string_substring (s : string) (a b : nat) :
  bit_string s = true -> bit_string (substring a b s) = true.
Proof.
  revert a b. induction s as [|c s IH]; intros a b H.
  - now destruct a, b.
  - cbn [bit_string] in H. apply andb_true_iff in H as [Hc Hs].
    destruct a as [|a]; cbn [substring].
    + destruct b as [|b]; [reflexivity|]. cbn [bit_string].
      now rewrite Hc, (IH 0%nat).
    + now apply IH.
Qed.

Lemma bit_string_append (a b : string) :
  bit_string a = true -> bit_string b = true -> bit_string (a +:+ b) = true.
Proof.
  induction a as [|c a IH]; intros Ha Hb; [exact Hb|].
  rewrite append_cons. cbn [bit_string] in *.
  apply andb_true_iff in Ha as [Hc Ha]. now rewrite Hc, IH.
Qed.

Lemma is_word_append (n m k : nat) (a b : string) :
  is_word n a -> is_word m b -> k = (n + m)%nat -> is_word k (a +:+ b).
Proof.
  intros [Hn Ha] [Hm Hb] ->. split.
  - rewrite length_append. lia.
  - now apply bit_string_append.
Qed.

Lemma is_word_substring (n a b : nat) (s : string) :
  is_word n s -> (a + b <= n)%nat -> is_word b (substring a b s).
Proof.
  intros [Hn Hs] H. split.
  - apply length_substring. lia.
  - now apply bit_string_substring.
Qed.

Lemma bits_msb_first_word (n : nat) (z : Z) : is_word n (bits_msb_first n z).
Proof.
  induction n as [|n [IHl IHb]]; [now split|].
  cbn [bits_msb_first]. split.
  - cbn [String.length]. now rewrite IHl.
  - cbn [bit_string]. rewrite IHb. now destruct (Z.testbit z (Z.of_nat n)).
Qed.

Lemma to_binary_word (num : Z) (n : nat) :
  (n <= 32)%nat -> is_word n (to_binary num n).
Proof.
  intros Hn. unfold to_binary, Text.pad_left.
  set (z := if num <? 0 then _ else _).
  assert (W : is_word n (substring (32 - n) (32 - (32 - n)) (bitset32 z))).
  { replace (32 - (32 - n))%nat with n by lia.
    apply (is_word_substring 32); [apply bits_msb_first_word | lia]. }
  destruct W as [Wl Wb]. rewrite Wl, Nat.sub_diag. now split.
Qed.


Ltac word_step :=
  lazymatch goal with
  | |- is_word _ (to_binary _ _) => apply to_binary_word; lia
  | |- is_word _ (substring _ _ _) =>
      eapply is_word_substring; [apply to_binary_word; lia | lia]
  | H : is_word _ (code ?t ?i) |- is_word _ (code ?t ?i) => exact H
  | |- is_word _ (code _ _) => split; reflexivity
  end.

Ltac word_chain :=
  lazymatch goal with
  | |- is_word _ (?a +:+ ?b) =>
      eapply (is_word_append _ _ _ a b); [word_step | | reflexivity];
      word_chain
  | |- _ => word_step
  end.

Lemma assemble_i_type_word (instruction rd rs1 : string) (imm : Z) :
  is_word 7 (code instructions instruction) ->
  is_word 3 (code funct3 instruction) ->
  is_word 32 (assemble_i_type instruction rd rs1 imm).
Proof. intros H7 H3. unfold assemble_i_type. cbv zeta. word_chain. Qed.

Lemma assemble_s_type_word (instruction rs1 rs2 : string) (imm : Z) :
  is_word 7 (code instructions instruction) ->
  is_word 3 (code funct3 instruction) ->
  is_word 32 (assemble_s_type instruction rs1 rs2 imm).
Proof. intros H7 H3. unfold assemble_s_type. cbv zeta. word_chain. Qed.

Lemma assemble_b_type_word (instruction rs1 rs2 : string) (imm : Z) :
  is_word 7 (code instructions instruction) ->
  is_word 3 (code funct3 instruction) ->
  is_word 32 (assemble_b_type instruction rs1 rs2 imm).
Proof. intros H7 H3. unfold assemble_b_type. cbv zeta. word_chain. Qed.

Lemma assemble_j_type_word (rd : string) (imm : Z) :
  is_word 32 (assemble_j_type rd imm).
Proof. unfold assemble_j_type. cbv zeta. word_chain. Qed.

Lemma assemble_psrf_lw_sw_word (instruction rd rs1 : string) (imm : Z) :
  is_word 7 (code instructions instruction) ->
  is_word 3 (code funct3 instruction) ->
  is_word 32 (assemble_psrf_lw_sw instruction rd rs1 imm).
Proof. intros H7 H3. unfold assemble_psrf_lw_sw. cbv zeta. word_chain. Qed.

Lemma assemble_u_type_word (instruction rd : string) (imm : Z) :
  is_word 7 (code instructions instruction) ->
  is_word 32 (assemble_u_type instruction rd imm).
Proof. intros H7. unfold assemble_u_type. cbv zeta. word_chain. Qed.

Lemma assemble_lui_word (op rd : string) (imm : Z) :
  is_word 7 (code instructions op) -> is_word 32 (assemble_lui op rd imm).
Proof. intros H7. unfold assemble_lui. cbv zeta. word_chain. Qed.

Lemma assemble_corf_lui_word (op rd : string) (imm : Z) :
  is_word 7 (code instructions op) -> is_word 32 (assemble_corf_lui op rd imm).
Proof. intros H7. unfold assemble_corf_lui. cbv zeta. word_chain. Qed.

Lemma assemble_corf_addi_word (op rd rs1 : string) (imm : Z) :
  is_word 7 (code instructions op) ->
  is_word 3 (code funct3 op) ->
  is_word 32 (assemble_corf_addi op rd rs1 imm).
Proof. intros H7 H3. unfold assemble_corf_addi. cbv zeta. word_chain. Qed.

Lemma assemble_ppsrf_addi_word (op rd rs1 : string) (imm : Z) :
  is_word 7 (code instructions op) ->
  is_word 3 (code funct3 op) ->
  is_word 32 (assemble_ppsrf_addi op rd rs1 imm).
Proof. intros H7 H3. unfold assemble_ppsrf_addi. cbv zeta. word_chain. Qed.

Lemma assemble_hwlrf_lui_word (rd : string) (imm : Z) :
  is_word 32 (assemble_hwlrf_lui rd imm).
Proof. unfold assemble_hwlrf_lui. cbv zeta. word_chain. Qed.

Lemma assemble_hwlrf_addi_word (rd rs1 : string) (imm : Z) :
  is_word 32 (assemble_hwlrf_addi rd rs1 imm).
Proof. unfold assemble_hwlrf_addi. cbv zeta. word_chain. Qed.

Lemma assemble_r_type_word (instruction rd rs1 rs2 b : string) :
  is_word 7 (code instructions instruction) ->
  is_word 3 (code funct3 instruction) ->
  is_word 7 (code funct7 instruction) ->
  assemble_r_type instruction rd rs1 rs2 = Ok b ->
  is_word 32 b.
Proof.
  intros H7 H3 Hf. unfold assemble_r_type. cbv zeta.
  destruct (Text.str_in instruction _).
  - destruct (Text.stoi rs2) as [imm|]; cbn [mbind result_bind];
      [|discriminate]. intros [= <-]. word_chain.
  - intros [= <-]. word_chain.
Qed.

(** *** The hexadecimal rendering *)

Lemma length_replicate_char (n : nat) (c : ascii) :
  String.length (Text.replicate_char n c) = n.
Proof. induction n as [|n IH]; cbn; [reflexivity | now rewrite IH]. Qed.

Lemma length_pad_left (width : nat) (c : ascii) (s : string) :
  String.length (Text.pad_left width c s) = Nat.max width (String.length s).
Proof.
  unfold Text.pad_left. rewrite length_append, length_replicate_char. lia.
Qed.

Lemma length_hex_go (fuel : nat) (uppercase : bool) :
  forall (n : Z) (acc : string) (k : nat),
    (1 <= k)%nat -> 0 <= n < 16 ^ Z.of_nat k ->
    (String.length (Text.hex_go fuel uppercase n acc)
     <= k + String.length acc)%nat.
Proof.
  induction fuel as [|fuel IH]; intros n acc k Hk Hn; cbn [Text.hex_go].
  - lia.
  - destruct (Z.ltb_spec n 16) as [Hlt|Hge].
    + cbn [String.length]. lia.
    + destruct k as [|[|k]]; [lia | change (16 ^ Z.of_nat 1) with 16 in Hn; lia |].
      specialize (IH (n / 16)
                    (String (Text.hex_digit uppercase (n mod 16)) acc)
                    (S k) ltac:(lia)).
      cbn [String.length] in IH.
      assert (0 <= n / 16 < 16 ^ Z.of_nat (S k)).
      { replace (Z.of_nat (S (S k))) with (Z.of_nat (S k) + 1) in Hn by lia.
        rewrite Z.pow_add_r, Z.pow_1_r in Hn by lia.
        split; [apply Z.div_pos; lia|].
        apply Z.div_lt_upper_bound; lia. }
      specialize (IH H). lia.
Qed.

Lemma length_hex_32 (uppercase : bool) (n : Z) :
  0 <= n < 2 ^ 32 -> (String.length (Text.hex uppercase n) <= 8)%nat.
Proof.
  intros Hn. unfold Text.hex.
  pose proof (length_hex_go (S (Z.to_nat (Z.log2 n))) uppercase n "" 8
                ltac:(lia)) as H.
  cbn [String.length] in H. change (16 ^ Z.of_nat 8) with (2 ^ 32) in H.
  specialize (H Hn). lia.
Qed.

Lemma binary_prefix_bound (s : string) :
  bit_string s = true ->
  forall acc, 0 <= acc ->
    2 ^ Z.of_nat (String.length s) * acc <= binary_prefix s acc
    < 2 ^ Z.of_nat (String.length s) * (acc + 1).
Proof.
  induction s as [|c s IH]; intros Hs acc Hacc.
  - cbn. lia.
  - cbn [bit_string] in Hs. apply andb_true_iff in Hs as [Hc Hs].
    specialize (IH Hs).
    replace (Z.of_nat (String.length (String c s)))
      with (Z.of_nat (String.length s) + 1) by (cbn [String.length]; lia).
    rewrite Z.pow_add_r, Z.pow_1_r by lia.
    assert (0 < 2 ^ Z.of_nat (String.length s)) by (apply Z.pow_pos_nonneg; lia).
    apply orb_true_iff in Hc as [Hc|Hc]; apply Ascii.eqb_eq in Hc; subst c;
      cbn [binary_prefix].
    + specialize (IH (2 * acc) ltac:(lia)). nia.
    + specialize (IH (2 * acc + 1) ltac:(lia)). nia.
Qed.

(** A word of 32 bits has a rendering of exactly eight digits. *)
Lemma to_hex_word (b : string) :
  is_word 32 b -> exists h, to_hex b = Ok h /\ String.length h = 8%nat.
Proof.
  intros [Hl Hb].
  pose proof (binary_prefix_bound b Hb 0 ltac:(lia)) as Hv.
  rewrite Hl in Hv. change (2 ^ Z.of_nat 32) with (2 ^ 32) in Hv.
  unfold to_hex, stoul2.
  destruct b as [|c b]; [discriminate Hl|].
  cbn [bit_string] in Hb. apply andb_true_iff in Hb as [Hc Hb].
  assert (Hsp : Text.skip_spaces (String c b) = String c b).
  { apply orb_true_iff in Hc as [Hc|Hc]; apply Ascii.eqb_eq in Hc; now subst c. }
  rewrite Hsp.
  assert (Hsign : (match String c b with
                   | String "-" r => (true, r)
                   | String "+" r => (false, r)
                   | _ => (false, String c b)
                   end) = (false, String c b)).
  { apply orb_true_iff in Hc as [Hc|Hc]; apply Ascii.eqb_eq in Hc; now subst c. }
  rewrite Hsign, Hc.
  destruct (Z.ltb_spec (binary_prefix (String c b) 0) (2 ^ 64)); [|lia].
  cbn [mbind result_bind]. eexists. split; [reflexivity|].
  rewrite length_pad_left.
  pose proof (length_hex_32 false (binary_prefix (String c b) 0) ltac:(lia)).
  lia.
Qed.

Lemma str_in_In (s : string) (l : list string) :
  Text.str_in s l = true -> In s l.
Proof.
  unfold Text.str_in. intros H. apply existsb_exists in H as (x & Hx & He).
  apply String.eqb_eq in He. now subst x.
Qed.

Ltac table_word := split; reflexivity.

Ltac encoder_word :=
  lazymatch goal with
  | |- is_word _ (assemble_hwlrf_lui _ _) => apply assemble_hwlrf_lui_word
  | |- is_word _ (assemble_hwlrf_addi _ _ _) => apply assemble_hwlrf_addi_word
  | |- is_word _ (assemble_j_type _ _) => apply assemble_j_type_word
  | |- is_word _ (assemble_u_type _ _ _) =>
      apply assemble_u_type_word; table_word
  | |- is_word _ (assemble_corf_lui _ _ _) =>
      apply assemble_corf_lui_word; table_word
  | |- is_word _ (assemble_i_type _ _ _ _) =>
      apply assemble_i_type_word; table_word
  | |- is_word _ (assemble_s_type _ _ _ _) =>
      apply assemble_s_type_word; table_word
  | |- is_word _ (assemble_b_type _ _ _ _) =>
      apply assemble_b_type_word; table_word
  | |- is_word _ (assemble_psrf_lw_sw _ _ _ _) =>
      apply assemble_psrf_lw_sw_word; table_word
  | |- is_word _ (assemble_corf_addi _ _ _ _) =>
      apply assemble_corf_addi_word; table_word
  | |- is_word _ (assemble_ppsrf_addi _ _ _ _) =>
      apply assemble_ppsrf_addi_word; table_word
  end.

Ltac encode_result :=
  lazymatch goal with
  | |- Ok "" = Ok _ -> _ => intros [= <-]; left; reflexivity
  | |- Ok _ = Ok _ -> _ => intros [= <-]; right; encoder_word
  | |- Err _ = Ok _ -> _ => discriminate
  end.

Ltac encode_branch :=
  try (destruct (_ <=? _)%nat; [|encode_result]);
  lazymatch goal with
  | |- assemble_r_type _ _ _ _ = Ok _ -> _ =>
      intros Henc; right;
      refine (assemble_r_type_word _ _ _ _ _ _ _ _ Henc); table_word
  | |- context [parse_offset_base ?x] =>
      destruct (parse_offset_base x) as [[[? ?]|]|]; cbn [mbind result_bind];
      encode_result
  | |- context [Text.stoi ?x] =>
      destruct (Text.stoi x); cbn [mbind result_bind]; encode_result
  | |- _ => encode_result
  end.

Ltac encode_cases E :=
  apply str_in_In in E; cbn [In] in E;
  repeat (destruct E as [E|E]; [subst; encode_branch|]); contradiction.

(** Whatever [encode] returns is empty or a word of 32 bits. *)
Lemma encode_word (op : string) (args : list string) (b : string) :
  encode op args = Ok b -> b = "" \/ is_word 32 b.
Proof.
  unfold encode. cbv zeta.
  destruct (String.eqb_spec op "hwlrf.lui"); [subst; encode_branch|].
  destruct (String.eqb_spec op "hwlrf.addi"); [subst; encode_branch|].
  destruct (Text.str_in op ["lui"; "auipc"]) eqn:E1; [encode_cases E1|].
  destruct (Text.str_in op ["add"; "sub"; "sll"; "slt"; "sltu"; "xor"; "srl";
                            "sra"; "or"; "and"; "mul"; "slli"; "srli"; "srai"])
    eqn:E2; [encode_cases E2|].
  destruct (Text.str_in op ["addi"; "slti"; "sltiu"; "xori"; "ori"; "andi";
                            "jalr"]) eqn:E3; [encode_cases E3|].
  destruct (Text.str_in op ["sb"; "sh"; "sw"]) eqn:E4; [encode_cases E4|].
  destruct (Text.str_in op ["beq"; "bne"; "blt"; "bge"; "bltu"; "bgeu"]) eqn:E5;
    [encode_cases E5|].
  destruct (String.eqb_spec op "jal"); [subst; encode_branch|].
  destruct (String.eqb_spec op "ppsrf.addi"); [subst; encode_branch|].
  destruct (String.eqb_spec op "corf.addi"); [subst; encode_branch|].
  destruct (String.eqb_spec op "corf.lui"); [subst; encode_branch|].
  destruct (String.eqb_spec op "ret"); [subst; encode_branch|].
  destruct (String.eqb_spec op "nop"); [subst; encode_branch|].
  destruct (Text.contains "psrf." op); [|encode_branch].
  destruct (Text.str_in op ["psrf.lw"; "psrf.lb"; "psrf.zd.lw"]) eqn:E6;
    [encode_cases E6|].
  destruct (Text.str_in op ["psrf.sw"; "psrf.sb"]) eqn:E7; [encode_cases E7|].
  encode_branch.
Qed.


End Encoder.

Section MemoryImage.
Import Asm.

Lemma write_loop_snoc (pe : Z) (l : list AssembledInstruction)
    (x : AssembledInstruction) :
  write_loop pe (l ++ [x]) = write_instruction pe (write_loop pe l) x.
Proof. unfold write_loop. now rewrite fold_left_app. Qed.

Lemma section_count_snoc (e : bool) (l : list AssembledInstruction)
    (x : AssembledInstruction) :
  section_count e (l ++ [x])
  = section_count e l + (if Bool.eqb (is_execution x) e then 1 else 0).
Proof.
  induction l as [|y l IH]; cbn [section_count app]; [lia|]. rewrite IH. lia.
Qed.

Lemma section_count_range (e : bool) (l : list AssembledInstruction) :
  0 <= section_count e l <= Z.of_nat (length l).
Proof.
  induction l as [|y l IH]; cbn [section_count length]; [lia|].
  destruct (Bool.eqb (is_execution y) e); lia.
Qed.

(** The two counters of the writing loop count the words of each section. *)
Lemma write_loop_counts (pe : Z) (l : list AssembledInstruction) :
  Z.of_nat (length l) < 2 ^ 31 ->
  execution_count (write_loop pe l) = section_count true l
  /\ preload_count (write_loop pe l) = section_count false l
  /\ length (hex_file (write_loop pe l)) = length l
  /\ length (mem_file (write_loop pe l)) = length l.
Proof.
  induction l as [|x l IH] using rev_ind; intros Hlen.
  - now cbn.
  - rewrite length_app in Hlen. cbn [length] in Hlen.
    destruct IH as (He & Hp & Hh & Hm); [lia|].
    rewrite write_loop_snoc, !section_count_snoc, length_app.
    pose proof (section_count_range true l).
    pose proof (section_count_range false l).
    unfold write_instruction.
    destruct (is_execution x);
      cbn [execution_count preload_count hex_file mem_file Bool.eqb];
      rewrite ?length_app, ?He, ?Hp, ?Hh, ?Hm; cbn [length];
      unfold Int32.add; rewrite ?wrap_small
        by (unfold Int32.in_range, Int32.min_signed, Int32.max_signed; lia);
      repeat split; lia.
Qed.

Lemma write_loop_lookup (pe : Z) (l : list AssembledInstruction) :
  Z.of_nat (length l) < 2 ^ 31 ->
  forall (k : nat) (instr : AssembledInstruction),
    l !! k = Some instr ->
    mem_file (write_loop pe l) !! k
    = Some (mem_entry
              (address pe (is_execution instr)
                 (local_index l k (is_execution instr)))
              (hex instr))
    /\ hex_file (write_loop pe l) !! k = Some (hex instr).
Proof.
  induction l as [|x l IH] using rev_ind; intros Hlen k instr Hk.
  - discriminate Hk.
  - rewrite length_app in Hlen. cbn [length] in Hlen.
    destruct (write_loop_counts pe l) as (He & Hp & Hh & Hm); [lia|].
    rewrite write_loop_snoc. unfold local_index.
    destruct (Nat.lt_ge_cases k (length l)) as [Hlt|Hge].
    + rewrite lookup_app_l in Hk by exact Hlt.
      destruct (IH ltac:(lia) k instr Hk) as [IHm IHh].
      rewrite take_app_le by lia.
      unfold write_instruction.
      destruct (is_execution x); cbn [mem_file hex_file];
        rewrite !lookup_app_l by lia; split; assumption.
    + assert (k = length l) as ->.
      { apply lookup_lt_Some in Hk. rewrite length_app in Hk. cbn in Hk. lia. }
      rewrite lookup_app_r, Nat.sub_diag in Hk by lia. injection Hk as ->.
      rewrite take_app_le, firstn_all by lia.
      unfold write_instruction.
      destruct (is_execution instr) eqn:Hsec; cbn [mem_file hex_file];
        rewrite !lookup_app_r, ?Hm, ?Hh, ?Nat.sub_diag by lia;
        cbn [lookup list_lookup]; rewrite ?He, ?Hp; split; reflexivity.
Qed.

(** C4. The address of a word is
    [(pe & 0xFF) << 10 | section_bit << 9 | local_index], with section bit 1
    for preload and 0 for execution, and the writing loop of [assemble] gives
    the [k]-th word the address of its zero-based index inside its own
    section.  PE 3, execution index 5 is 0xC05 (3077); PE 3, preload index 2
    is 0xE02 (3586). *)
Theorem address_formula :
  (forall pe e idx,
      address pe e idx
      = Z.lor (Z.lor (Z.shiftl (Z.land pe 0xFF) 10) (Z.shiftl (section_bit e) 9))
              idx)
  /\ (forall pe (assembled : list AssembledInstruction) (k : nat) instr,
        Z.of_nat (length assembled) < 2 ^ 31 ->
        assembled !! k = Some instr ->
        mem_file (write_loop pe assembled) !! k
        = Some (mem_entry
                  (address pe (is_execution instr)
                     (local_index assembled k (is_execution instr)))
                  (hex instr)))
  /\ address 3 true 5 = 0xC05 /\ address 3 true 5 = 3077
  /\ address 3 false 2 = 0xE02 /\ address 3 false 2 = 3586.
Proof.
  split; [|split; [|repeat split; reflexivity]].
  - intros pe [|] idx; unfold address, section_bit; [|reflexivity].
    change (Z.shiftl 0 9) with 0. now rewrite Z.lor_0_r.
  - intros pe assembled k instr Hlen Hk.
    apply (write_loop_lookup pe assembled Hlen k instr Hk).
Qed.

Lemma address_formula_witness :
  mem_file (write_loop 3 sample_words) !! 2%nat = Some "@00000c01 00000013".
Proof.
  refine (proj1 (proj2 address_formula) 3 sample_words 2%nat
            {| op := "ret"; binary := "00000000000000000000000000010011";
               hex := "00000013"; is_execution := true |} _ _).
  - vm_compute. reflexivity.
  - reflexivity.
Defined.

Lemma land_255_range (pe : Z) : 0 <= Z.land pe 0xFF < 256.
Proof. apply (land_ones_range pe 8). lia. Qed.

Lemma address_execution (pe idx : Z) :
  0 <= idx < 1024 -> address pe true idx = 1024 * Z.land pe 0xFF + idx.
Proof.
  intros H. unfold address. rewrite Z.shiftl_mul_pow2 by lia.
  rewrite (lor_field _ 10 idx) by lia. lia.
Qed.

Lemma address_preload (pe idx : Z) :
  0 <= idx < 512 -> address pe false idx = 1024 * Z.land pe 0xFF + 512 + idx.
Proof.
  intros H. unfold address. rewrite !Z.shiftl_mul_pow2 by lia.
  rewrite (lor_field _ 10 (1 * 2 ^ 9)) by lia.
  replace (Z.land pe 0xFF * 2 ^ 10 + 1 * 2 ^ 9)
    with ((2 * Z.land pe 0xFF + 1) * 2 ^ 9) by lia.
  rewrite (lor_field _ 9 idx) by lia. lia.
Qed.

Lemma address_preload_bit (pe idx : Z) : Z.testbit (address pe false idx) 9 = true.
Proof.
  unfold address. rewrite !Z.lor_spec.
  change (Z.shiftl 1 9) with (2 ^ 9). rewrite Z.pow2_bits_true by lia.
  now rewrite orb_true_r.
Qed.

Lemma address_execution_bit (pe idx : Z) :
  0 <= idx < 512 -> Z.testbit (address pe true idx) 9 = false.
Proof.
  intros H. unfold address.
  rewrite Z.lor_spec, Z.shiftl_spec_low by lia. cbn [orb].
  destruct (Z.eq_dec idx 0) as [->|]; [apply Z.bits_0|].
  apply Z.bits_above_log2; [lia|].
  apply Z.log2_lt_pow2; lia.
Qed.

Lemma address_preload_high (pe r : Z) :
  0 <= r < 512 -> address pe false (512 + r) = address pe false r.
Proof.
  intros H. unfold address. change (Z.shiftl 1 9) with (1 * 2 ^ 9).
  replace (512 + r) with (Z.lor (1 * 2 ^ 9) r) by (rewrite lor_field; lia).
  rewrite Z.lor_assoc, <- (Z.lor_assoc _ (1 * 2 ^ 9) (1 * 2 ^ 9)).
  now rewrite Z.lor_diag.
Qed.

(** While its index is below 1024, a word of either section lies in the
    window of its PE. *)
Lemma address_window (pe : Z) (e : bool) (idx : Z) :
  0 <= idx < 1024 ->
  1024 * Z.land pe 0xFF <= address pe e idx < 1024 * Z.land pe 0xFF + 1024.
Proof.
  intros H. destruct e.
  - rewrite address_execution; lia.
  - destruct (Z.lt_ge_cases idx 512).
    + rewrite address_preload; lia.
    + replace idx with (512 + (idx - 512)) by lia.
      rewrite address_preload_high, address_preload; lia.
Qed.

Lemma address_execution_index_bit (pe idx : Z) :
  Z.testbit (address pe true idx) 9 = Z.testbit idx 9.
Proof.
  unfold address. now rewrite Z.lor_spec, Z.shiftl_spec_low by lia.
Qed.

Lemma address_section_bit (pe idx : Z) :
  Z.testbit idx 9 = true -> address pe true idx = address pe false idx.
Proof.
  intros H. unfold address. rewrite <- Z.lor_assoc. f_equal.
  apply Z.bits_inj'. intros n Hn. rewrite Z.lor_spec.
  change (Z.shiftl 1 9) with (2 ^ 9). rewrite Z.pow2_bits_eqb by lia.
  destruct (Z.eqb_spec 9 n) as [<-|_]; [now rewrite H | reflexivity].
Qed.

Lemma lor_high_bit (a b : Z) :
  0 <= a -> 1024 <= b -> 1024 <= Z.lor a b.
Proof.
  intros Ha Hb.
  assert (Hn : 0 <= Z.lor a b) by (apply Z.lor_nonneg; lia).
  destruct (Z.lt_ge_cases (Z.lor a b) 1024) as [Hlt|]; [|lia].
  exfalso.
  assert (Hbit : Z.testbit (Z.lor a b) (Z.log2 b) = true).
  { rewrite Z.lor_spec, (Z.bit_log2 b) by lia. apply orb_true_r. }
  assert (Hlog : 10 <= Z.log2 b) by (apply (Z.log2_le_mono 1024 b); lia).
  destruct (Z.eq_dec (Z.lor a b) 0) as [E|E].
  - rewrite E, Z.bits_0 in Hbit. discriminate.
  - rewrite Z.bits_above_log2 in Hbit; [discriminate|lia|].
    assert (Z.log2 (Z.lor a b) < 10) by (apply Z.log2_lt_pow2; lia). lia.
Qed.

Lemma address_outside (e : bool) (idx : Z) :
  1024 <= idx -> 1024 <= address 0 e idx.
Proof.
  intros H. unfold address.
  destruct e; (apply lor_high_bit; [vm_compute; discriminate | exact H]).
Qed.

(** C3, as the code has it. An execution word whose index has bit 9
    clear, as every index below 512 has, never shares its address with a
    preload word of the same PE, and one whose index has bit 9 set has the
    address of the preload word of the same index.  While the index of a
    word stays below 1024, in either section, its address lies in the window
    of 1024 words that starts at [1024 * (pe & 0xFF)], which no larger index
    of PE 0 does, so PE ids that differ in their low eight bits, in
    particular distinct ids between 0 and 255, have disjoint addresses. *)
Theorem address_disjoint :
  (forall pe i j,
      Z.testbit i 9 = false -> address pe true i <> address pe false j)
  /\ (forall i, 0 <= i < 512 -> Z.testbit i 9 = false)
  /\ (forall pe i,
        Z.testbit i 9 = true -> address pe true i = address pe false i)
  /\ (forall pe (e : bool) idx,
        0 <= idx < 1024 ->
        1024 * Z.land pe 0xFF <= address pe e idx < 1024 * Z.land pe 0xFF + 1024)
  /\ (forall (e : bool) idx, 1024 <= idx -> 1024 <= address 0 e idx)
  /\ (forall pe1 pe2 (e1 e2 : bool) i1 i2,
        Z.land pe1 0xFF <> Z.land pe2 0xFF ->
        0 <= i1 < 1024 -> 0 <= i2 < 1024 ->
        address pe1 e1 i1 <> address pe2 e2 i2)
  /\ (forall pe, 0 <= pe < 256 -> Z.land pe 0xFF = pe).
Proof.
  split; [|split; [|split; [|split; [|split; [|split]]]]].
  - intros pe i j Hi Heq.
    pose proof (address_execution_index_bit pe i) as H0.
    pose proof (address_preload_bit pe j) as H1. congruence.
  - intros i Hi. destruct (Z.eq_dec i 0) as [->|]; [apply Z.bits_0|].
    apply Z.bits_above_log2; [lia|]. apply Z.log2_lt_pow2; lia.
  - exact address_section_bit.
  - exact address_window.
  - exact address_outside.
  - intros pe1 pe2 e1 e2 i1 i2 Hne H1 H2 Heq.
    pose proof (address_window pe1 e1 i1 H1).
    pose proof (address_window pe2 e2 i2 H2). lia.
  - intros pe Hpe. change 0xFF with (Z.ones 8).
    rewrite Z.land_ones by lia. apply Z.mod_small. lia.
Qed.

Lemma address_disjoint_witness :
  address 3 true 5 <> address 3 false 2
  /\ address 3 true 1024 <> address 3 false 2
  /\ address 3 true 5 <> address 4 false 700.
Proof.
  destruct address_disjoint as (Hsame & _ & _ & _ & _ & Hcross & _).
  split; [|split].
  - apply (Hsame 3 5 2). reflexivity.
  - apply (Hsame 3 1024 2). reflexivity.
  - apply (Hcross 3 4 true false 5 700).
    + vm_compute. discriminate.
    + lia.
    + lia.
Defined.

(** C3, as stated, fails: execution index 512 of a PE has the address of
    its preload index 0, index 1024 of PE 0 has, in either section, the
    address of the first word of that section of PE 1, and PE 256 has the
    addresses of PE 0. *)
Lemma address_collisions :
  address 3 true 512 = address 3 false 0
  /\ (0 <> 1 /\ address 0 true 1024 = address 1 true 0)
  /\ (0 <> 1 /\ address 0 false 1024 = address 1 false 0)
  /\ (0 <> 256 /\ address 0 true 5 = address 256 true 5).
Proof. repeat split; discriminate. Qed.

End MemoryImage.

Section UnrecognizedLines.
Import Asm.

(** A mnemonic without a branch in [parse_instruction] is encoded as the
    empty string, whatever the operands. *)
Lemma encode_unrecognized (op : string) (args : list string) :
  recognized op = false -> encode op args = Ok "".
Proof.
  unfold recognized, Text.str_in. cbn [existsb]. intros H.
  repeat (apply orb_false_iff in H as [? H]).
  unfold encode, Text.str_in. cbn [existsb].
  repeat match goal with
         | E : String.eqb op _ = false |- _ => rewrite E; clear E
         end.
  cbn [orb]. now destruct (Text.contains "psrf." op).
Qed.

Lemma parse_instruction_unrecognized (line : string) :
  recognized (mnemonic line) = false ->
  parse_instruction line
  = Ok {| op := mnemonic line; binary := ""; hex := ""; is_execution := false |}.
Proof.
  unfold mnemonic, parse_instruction. destruct (extract_token line) as [mn rest].
  cbn [fst]. intros H. now rewrite (encode_unrecognized _ _ H).
Qed.

(** The reading loop on a list of lines followed by one more line. *)
Lemma read_loop_snoc (lines : list string) (line : string) :
  forall b,
    read_loop (lines ++ [line]) b
    = (assembled ← read_loop lines b;
       if is_skipped (trim_string line) then Ok assembled
       else instr ← parse_instruction (trim_string line);
            Ok (assembled ++ [with_section instr (section_after lines b)])%list).
Proof.
  induction lines as [|l lines IH]; intros b; cbn [app read_loop section_after].
  - cbn [mbind result_bind].
    destruct (is_skipped (trim_string line)); [reflexivity|].
    now destruct (parse_instruction (trim_string line)).
  - destruct (is_skipped (trim_string l)) eqn:Hs; cbn [andb].
    + apply IH.
    + rewrite IH.
      destruct (parse_instruction (trim_string l)) as [i|];
        cbn [mbind result_bind]; [|reflexivity].
      destruct (read_loop lines b) as [assembled|]; cbn [mbind result_bind];
        [|reflexivity].
      destruct (is_skipped (trim_string line)); [reflexivity|].
      now destruct (parse_instruction (trim_string line)).
Qed.

(** C7, as the code has it. A line whose mnemonic has no branch in
    [parse_instruction] yields no encoded word: its binary and hexadecimal
    strings are empty.  The line is still recorded: appended to a file it adds
    an empty line to the hex output and an address-only record to the memory
    records, and advances the counter of the section it stands in. *)
Theorem unrecognized_line_recorded (pe : Z) (lines : list string)
    (line : string) (out : Output) :
  is_skipped (trim_string line) = false ->
  recognized (mnemonic (trim_string line)) = false ->
  assemble lines pe = Ok out ->
  parse_instruction (trim_string line)
  = Ok {| op := mnemonic (trim_string line); binary := ""; hex := "";
          is_execution := false |}
  /\ assemble (lines ++ [line]) pe
     = Ok (if section_after lines false
           then {| hex_file := hex_file out ++ [""];
                   mem_file := mem_file out
                               ++ [mem_entry (address pe true (execution_count out)) ""];
                   preload_count := preload_count out;
                   execution_count := Int32.add (execution_count out) 1 |}
           else {| hex_file := hex_file out ++ [""];
                   mem_file := mem_file out
                               ++ [mem_entry (address pe false (preload_count out)) ""];
                   preload_count := Int32.add (preload_count out) 1;
                   execution_count := execution_count out |}).
Proof.
  intros Hskip Hrec Hout.
  pose proof (parse_instruction_unrecognized _ Hrec) as Hparse.
  split; [exact Hparse|].
  unfold assemble in *. rewrite read_loop_snoc, Hskip, Hparse.
  destruct (read_loop lines false) as [assembled|]; cbn [mbind result_bind] in *;
    [|discriminate].
  injection Hout as <-. rewrite write_loop_snoc.
  unfold write_instruction, with_section. cbn [is_execution hex].
  now destruct (section_after lines false).
Qed.

Lemma unrecognized_line_recorded_witness :
  assemble (["addi x1, x2, 5"] ++ ["foo x1, x2"])%list 0
  = Ok {| hex_file := ["00510093"; ""];
          mem_file := ["@00000200 00510093"; "@00000201 "];
          preload_count := 2;
          execution_count := 0 |}.
Proof.
  refine (proj2 (unrecognized_line_recorded 0 ["addi x1, x2, 5"] "foo x1, x2"
                   {| hex_file := ["00510093"];
                      mem_file := ["@00000200 00510093"];
                      preload_count := 1; execution_count := 0 |} _ _ _)).
  - reflexivity.
  - reflexivity.
  - vm_compute. reflexivity.
Defined.

(** C7, as stated, fails: the line [foo x1, x2] has no recognized mnemonic
    and still adds a line to the hex output, a record to the memory records
    and one to the preload counter. *)
Lemma unrecognized_line_contributes :
  recognized (mnemonic "foo x1, x2") = false
  /\ assemble ["foo x1, x2"] 0
     = Ok {| hex_file := [""]; mem_file := ["@00000200 "];
             preload_count := 1; execution_count := 0 |}
  /\ assemble [] 0
     = Ok {| hex_file := []; mem_file := [];
             preload_count := 0; execution_count := 0 |}.
Proof. repeat split; vm_compute; reflexivity. Qed.

End UnrecognizedLines.

Section CombinedImage.
Import Asm.

Lemma digit_not_space_or_sign (d : ascii) :
  Text.is_digit d = true ->
  Text.is_space d = false /\ d <> "-"%char /\ d <> "+"%char /\ 0 <= Text.digit_value d.
Proof.
  destruct d as [[] [] [] [] [] [] [] []]; intros H; try discriminate H;
    repeat split; try discriminate; vm_compute; discriminate.
Qed.

Lemma decimal_prefix_nonneg (s : string) :
  forall acc, 0 <= acc -> 0 <= Text.decimal_prefix s acc.
Proof.
  induction s as [|c s IH]; intros acc Hacc; cbn [Text.decimal_prefix]; [lia|].
  destruct (Text.is_digit c) eqn:Hc; [|lia].
  apply IH. destruct (digit_not_space_or_sign c Hc) as (_ & _ & _ & Hv). lia.
Qed.

Lemma stoi_digit_nonneg (d : ascii) (r : string) (k : Z) :
  Text.is_digit d = true -> Text.stoi (String d r) = Ok k -> 0 <= k.
Proof.
  intros Hd. destruct (digit_not_space_or_sign d Hd) as (Hsp & Hm & Hp & _).
  unfold Text.stoi. cbn [Text.skip_spaces]. rewrite Hsp.
  assert (Hsign : (match String d r with
                   | String "-" r0 => (true, r0)
                   | String "+" r0 => (false, r0)
                   | _ => (false, String d r)
                   end) = (false, String d r)).
  { destruct d as [[] [] [] [] [] [] [] []]; try reflexivity; congruence. }
  rewrite Hsign, Hd.
  pose proof (decimal_prefix_nonneg (String d r) 0 ltac:(lia)).
  destruct (_ && _); [|discriminate]. intros [= <-]. assumption.
Qed.

Lemma take_digits_head (s rest ds : string) (d : ascii) :
  take_digits s = (String d ds, rest) -> Text.is_digit d = true.
Proof.
  destruct s as [|c s]; cbn [take_digits]; [discriminate|].
  destruct (Text.is_digit c) eqn:Hc; [|discriminate].
  destruct (take_digits s). now intros [= <- _ _].
Qed.

Lemma match_pe_here_digit (s ds : string) :
  match_pe_here s = Some ds ->
  exists d r, ds = String d r /\ Text.is_digit d = true.
Proof.
  unfold match_pe_here.
  destruct s as [|c1 [|c2 s]]; try discriminate.
  - destruct c1 as [[] [] [] [] [] [] [] []]; discriminate.
  - destruct (take_digits s) as [[|d ds'] rest] eqn:Ht.
    + destruct c1 as [[] [] [] [] [] [] [] []]; try discriminate;
        destruct c2 as [[] [] [] [] [] [] [] []]; discriminate.
    + pose proof (take_digits_head _ _ _ _ Ht) as Hd.
      intros H. exists d, ds'. split; [|exact Hd].
      destruct c1 as [[] [] [] [] [] [] [] []]; try discriminate H;
        destruct c2 as [[] [] [] [] [] [] [] []]; try discriminate H;
        destruct rest as [|u rest]; try discriminate H;
        destruct u as [[] [] [] [] [] [] [] []]; try discriminate H;
        now injection H as <-.
Qed.

Lemma regex_search_pe_digit (s ds : string) :
  regex_search_pe s = Some ds ->
  exists d r, ds = String d r /\ Text.is_digit d = true.
Proof.
  induction s as [|c s IH]; cbn [regex_search_pe].
  - destruct (match_pe_here "") eqn:H; [|discriminate].
    intros [= <-]. now apply match_pe_here_digit in H.
  - destruct (match_pe_here (String c s)) eqn:H.
    + intros [= <-]. now apply match_pe_here_digit in H.
    + exact IH.
Qed.

(** A PE number read from a file name is never negative. *)
Lemma pe_number_of_nonneg (name : string) (k : Z) :
  pe_number_of name = Ok k -> 0 <= k.
Proof.
  unfold pe_number_of. destruct (regex_search_pe name) as [ds|] eqn:H.
  - destruct (regex_search_pe_digit _ _ H) as (d & r & -> & Hd).
    now apply stoi_digit_nonneg.
  - intros [= <-]. lia.
Qed.

Lemma processed_cons (name : string) (content : option (list string))
    (files : list SourceFile) :
  processed ((name, content) :: files)
  = if String.eqb name "" || String.prefix "#" name
    then processed files else name :: processed files.
Proof.
  unfold processed. cbn [map fst List.filter].
  now destruct (String.eqb name "" || String.prefix "#" name).
Qed.

(** The keys of the map after the manifest loop are the PE numbers of the
    processed entries, added to the keys it started with. *)
Lemma manifest_loop_keys (files : list SourceFile) :
  forall (m0 m : gmap Z (list string)),
    manifest_loop files m0 = Ok m ->
    forall k, is_Some (m !! k)
              <-> is_Some (m0 !! k)
                  \/ exists name, In name (processed files)
                                  /\ pe_number_of name = Ok k.
Proof.
  induction files as [|[name content] files IH]; intros m0 m Hrun k.
  - cbn in Hrun. injection Hrun as <-. cbn. split; [auto|].
    intros [H|(name & [] & _)]. exact H.
  - cbn [manifest_loop] in Hrun. rewrite processed_cons.
    destruct (String.eqb name "" || String.prefix "#" name).
    + apply (IH _ _ Hrun).
    + destruct (pe_number_of name) as [pe|] eqn:Hpe; cbn [mbind result_bind] in Hrun;
        [|discriminate].
      destruct (match content with
                | Some lines => assemble lines pe ≫= λ out, Ok (mem_file out)
                | None => Ok []
                end) as [entries|]; cbn [mbind result_bind] in Hrun;
        [|discriminate].
      rewrite (IH _ _ Hrun k), lookup_insert_is_Some. cbn [In].
      split.
      * intros [[->|[_ H]]|(n & Hn & Hk)]; eauto 6.
      * intros [H|(n & [<-|Hn] & Hk)].
        -- destruct (decide (pe = k)); auto.
        -- left. left. congruence.
        -- eauto.
Qed.

(** [count_pes] is one more than the largest key other than [0xFFFF]. *)
Lemma count_pes_spec (m : gmap Z (list string)) :
  (forall k, is_Some (m !! k) -> 0 <= k < 2 ^ 31 - 1) ->
  (forall k, is_Some (m !! k) -> k <> 0xFFFF -> k < count_pes m)
  /\ (count_pes m = 0
      \/ exists k, is_Some (m !! k) /\ k <> 0xFFFF /\ count_pes m = k + 1).
Proof.
  unfold count_pes.
  apply (map_fold_weak_ind
           (fun total (m : gmap Z (list string)) =>
              (forall k, is_Some (m !! k) -> 0 <= k < 2 ^ 31 - 1) ->
              (forall k, is_Some (m !! k) -> k <> 0xFFFF -> k < total)
              /\ (total = 0
                  \/ exists k, is_Some (m !! k) /\ k <> 0xFFFF /\ total = k + 1))).
  - intros _. split; [|now left]. intros k [x Hx]. now rewrite lookup_empty in Hx.
  - intros i x m' r Hi IH Hrange.
    destruct IH as [Hub Hmax].
    { intros k Hk. apply Hrange. rewrite lookup_insert_is_Some.
      destruct (decide (i = k)); auto. }
    assert (Hi' : 0 <= i < 2 ^ 31 - 1).
    { apply Hrange. rewrite lookup_insert_is_Some. now left. }
    assert (Hadd : Int32.add i 1 = i + 1).
    { unfold Int32.add. apply wrap_small.
      unfold Int32.in_range, Int32.min_signed, Int32.max_signed. lia. }
    rewrite Hadd.
    destruct (Z.eqb_spec i 0xFFFF) as [->|Hne].
    + split.
      * intros k Hk Hk'. apply lookup_insert_is_Some in Hk as [<-|[_ Hk]];
          [congruence | now apply Hub].
      * destruct Hmax as [->|(k & Hk & Hk' & ->)]; [now left|right].
        exists k. rewrite lookup_insert_is_Some. repeat split; auto.
    + split.
      * intros k Hk Hk'. apply lookup_insert_is_Some in Hk as [<-|[_ Hk]];
          [lia | specialize (Hub k Hk Hk'); lia].
      * right. destruct (Z.max_spec r (i + 1)) as [[Hlt ->]|[Hle ->]].
        -- exists i. rewrite lookup_insert_is_Some. auto.
        -- destruct Hmax as [->|(k & Hk & Hk' & ->)]; [lia|].
           exists k. rewrite lookup_insert_is_Some. repeat split; auto.
           destruct (decide (i = k)); auto.
Qed.

Lemma sorted_seqZ (a n : Z) : StronglySorted Z.lt (seqZ a n).
Proof.
  destruct (Z.le_gt_cases n 0) as [Hn|Hn].
  { rewrite seqZ_nil by lia. constructor. }
  rewrite <- (Z2Nat.id n) by lia. generalize (Z.to_nat n) as k. clear n Hn.
  intros k. revert a. induction k as [|k IH]; intros a.
  - constructor.
  - rewrite seqZ_cons by lia.
    replace (Z.pred (Z.of_nat (S k))) with (Z.of_nat k) by lia.
    constructor; [apply IH|].
    apply Forall_seqZ. lia.
Qed.

Lemma sorted_filter (P : Z -> Prop) `{!forall k, Decision (P k)} (l : list Z) :
  StronglySorted Z.lt l -> StronglySorted Z.lt (filter P l).
Proof.
  induction 1 as [|a l Hl IH Ha]; [constructor|].
  rewrite filter_cons. destruct (decide (P a)); [|exact IH].
  constructor; [exact IH|].
  apply Forall_forall. intros x Hx. apply list_elem_of_filter in Hx as [_ Hx].
  rewrite Forall_forall in Ha. now apply Ha.
Qed.

Lemma pe_block_markers (m : gmap Z (list string)) (l : list Z) :
  map fst (flat_map (pe_block m) l)
  = map PEBlock (filter (fun k => is_Some (m !! k)) l).
Proof.
  induction l as [|k l IH]; [reflexivity|].
  cbn [flat_map]. rewrite map_app, IH, filter_cons. unfold pe_block.
  destruct (decide (is_Some (m !! k))) as [[es Hes]|Hn].
  - now rewrite Hes.
  - destruct (m !! k); [exfalso; apply Hn; eauto | reflexivity].
Qed.

Lemma pe_number_of_cases (name : string) (k : Z) :
  pe_number_of name = Ok k
  <-> resolved_pe name k \/ (unresolved name = true /\ k = 0xFFFF).
Proof.
  unfold pe_number_of, resolved_pe, unresolved.
  destruct (regex_search_pe name) as [ds|]; split.
  - intros H. left. now exists ds.
  - intros [(ds' & [= <-] & H)|[[=] _]]. exact H.
  - intros [= <-]. now right.
  - intros [(ds' & [=] & _)|[_ ->]]. reflexivity.
Qed.

Lemma sorted_lt_NoDup (l : list Z) : StronglySorted Z.lt l -> NoDup l.
Proof.
  induction 1 as [|a l Hl IH Ha]; constructor; [|exact IH].
  intros Hin. rewrite Forall_forall in Ha. specialize (Ha a Hin). lia.
Qed.

(** A strictly ascending list is determined by its elements. *)
Lemma sorted_lt_unique (l1 l2 : list Z) :
  StronglySorted Z.lt l1 -> StronglySorted Z.lt l2 ->
  (forall k, k ∈ l1 <-> k ∈ l2) -> l1 = l2.
Proof.
  intros H1 H2 Heq.
  apply (StronglySorted_unique_strong Z.lt); [intros; lia | assumption..|].
  apply NoDup_Permutation; auto using sorted_lt_NoDup.
Qed.

Lemma combined_blocks_markers (files : list SourceFile)
    (m : gmap Z (list string)) :
  manifest_loop files ∅ = Ok m ->
  (forall name k, In name (processed files) -> resolved_pe name k -> k < 0xFFFF) ->
  exists ids : list Z,
    map fst (combined_blocks m)
    = (map PEBlock ids
       ++ (if has_unresolved files then [UnknownBlock] else []))%list
    /\ StronglySorted Z.lt ids
    /\ (forall k, k ∈ ids
                  <-> exists name, In name (processed files) /\ resolved_pe name k).
Proof.
  intros Hrun Hlow.
  pose proof (manifest_loop_keys files ∅ m Hrun) as Hkeys.
  assert (Hkey : forall k, is_Some (m !! k)
                 <-> exists name, In name (processed files)
                                  /\ pe_number_of name = Ok k).
  { intros k. rewrite Hkeys. split; [|auto].
    intros [[x Hx]|H]; [now rewrite lookup_empty in Hx | exact H]. }
  assert (Hres : forall k, is_Some (m !! k) -> k <> 0xFFFF ->
                 exists name, In name (processed files) /\ resolved_pe name k).
  { intros k Hk Hne. apply Hkey in Hk as (name & Hin & Hpe).
    apply pe_number_of_cases in Hpe as [Hr|[_ ->]]; [eauto | congruence]. }
  assert (Hrange : forall k, is_Some (m !! k) -> 0 <= k < 2 ^ 31 - 1).
  { intros k Hk. pose proof Hk as Hk'. apply Hkey in Hk' as (name & Hin & Hpe).
    pose proof (pe_number_of_nonneg _ _ Hpe).
    destruct (Z.eq_dec k 0xFFFF) as [->|Hne]; [lia|].
    destruct (Hres k Hk Hne) as (n & Hn & Hr). specialize (Hlow n k Hn Hr). lia. }
  destruct (count_pes_spec m Hrange) as [Hub Hmax].
  assert (Hcount : count_pes m <= 0xFFFF).
  { destruct Hmax as [->|(k & Hk & Hne & ->)]; [lia|].
    destruct (Hres k Hk Hne) as (n & Hn & Hr). specialize (Hlow n k Hn Hr). lia. }
  exists (filter (fun k => is_Some (m !! k)) (seqZ 0 (count_pes m))).
  split; [|split].
  - unfold combined_blocks. cbv zeta. rewrite map_app, pe_block_markers. f_equal.
    unfold has_unresolved.
    destruct (existsb unresolved (processed files)) eqn:Hex.
    + apply existsb_exists in Hex as (name & Hin & Hun).
      destruct (proj2 (Hkey 0xFFFF)) as [es ->]; [|reflexivity].
      exists name. split; [exact Hin|]. apply pe_number_of_cases. now right.
    + destruct (m !! 0xFFFF) as [es|] eqn:Hm; [|reflexivity]. exfalso.
      destruct (proj1 (Hkey 0xFFFF)) as (name & Hin & Hpe); [eauto|].
      apply pe_number_of_cases in Hpe as [Hr|[Hun _]].
      * specialize (Hlow name _ Hin Hr). lia.
      * assert (existsb unresolved (processed files) = true)
          by (apply existsb_exists; eauto).
        congruence.
  - apply sorted_filter, sorted_seqZ.
  - intros k. rewrite list_elem_of_filter, elem_of_seqZ. split.
    + intros [Hk Hr]. apply (Hres k Hk). lia.
    + intros (name & Hin & Hr).
      assert (Hk : is_Some (m !! k)).
      { apply Hkey. exists name. split; [exact Hin|].
        apply pe_number_of_cases. now left. }
      specialize (Hlow name k Hin Hr). specialize (Hrange k Hk).
      split; [exact Hk|]. specialize (Hub k Hk). lia.
Qed.

Lemma processed_Permutation (files files' : list SourceFile) :
  files ≡ₚ files' -> forall name, In name (processed files) <-> In name (processed files').
Proof.
  intros Hp name. unfold processed. rewrite !filter_In.
  rewrite <- !list_elem_of_In. now rewrite (fmap_Permutation fst _ _ Hp).
Qed.

(** The order of the blocks.  For a manifest whose file names carry PE
    numbers below 65535, the value the code keeps for an undetermined PE, the
    combined file lists one block per PE number found, in strictly ascending
    order, and after them one block for the entries without a PE number, when
    there are any; each block holds the entries stored for its PE.  The
    sequence of markers is the same for every order of the manifest. *)
Lemma combined_blocks_order (files : list SourceFile)
    (m : gmap Z (list string)) :
  manifest_loop files ∅ = Ok m ->
  (forall name k, In name (processed files) -> resolved_pe name k -> k < 0xFFFF) ->
  (exists ids : list Z,
      map fst (combined_blocks m)
      = (map PEBlock ids
         ++ (if has_unresolved files then [UnknownBlock] else []))%list
      /\ StronglySorted Z.lt ids
      /\ (forall k, k ∈ ids
                    <-> exists name, In name (processed files)
                                     /\ resolved_pe name k))
  /\ (forall marker entries,
        (marker, entries) ∈ combined_blocks m ->
        m !! (match marker with PEBlock pe => pe | UnknownBlock => 0xFFFF end)
        = Some entries)
  /\ (forall files' m',
        files ≡ₚ files' -> manifest_loop files' ∅ = Ok m' ->
        map fst (combined_blocks m') = map fst (combined_blocks m)).
Proof.
  intros Hrun Hlow. split; [now apply combined_blocks_markers|]. split.
  - intros marker entries Hin. unfold combined_blocks in Hin. cbv zeta in Hin.
    apply elem_of_app in Hin as [Hin|Hin].
    + apply list_elem_of_In, in_flat_map in Hin as (pe & _ & Hin).
      unfold pe_block in Hin. destruct (m !! pe) as [es|] eqn:Hpe; [|destruct Hin].
      destruct Hin as [[= <- <-]|[]]. exact Hpe.
    + destruct (m !! 0xFFFF) as [es|] eqn:Hun.
      * apply list_elem_of_singleton in Hin as [= -> ->]. exact Hun.
      * now apply elem_of_nil in Hin.
  - intros files' m' Hperm Hrun'.
    pose proof (processed_Permutation _ _ Hperm) as Hsame.
    assert (Hlow' : forall name k, In name (processed files') ->
                                   resolved_pe name k -> k < 0xFFFF).
    { intros name k Hin. apply Hlow, Hsame, Hin. }
    destruct (combined_blocks_markers files m Hrun Hlow) as (ids & -> & Hs & Hids).
    destruct (combined_blocks_markers files' m' Hrun' Hlow')
      as (ids' & -> & Hs' & Hids').
    f_equal.
    + f_equal. apply sorted_lt_unique; [assumption..|].
      intros k. rewrite Hids, Hids'. split; intros (n & Hn & Hr); exists n;
        (split; [apply Hsame, Hn | exact Hr]).
    + unfold has_unresolved.
      assert (E : existsb unresolved (processed files')
                  = existsb unresolved (processed files)); [|now rewrite E].
      apply eq_true_iff_eq. rewrite !existsb_exists.
      split; intros (n & Hn & Hu); exists n; (split; [apply Hsame, Hn | exact Hu]).
Qed.

Lemma pe_block_absent (m : gmap Z (list string)) (a n : Z) :
  (forall k, a <= k < a + n -> m !! k = None) ->
  flat_map (pe_block m) (seqZ a n) = [].
Proof.
  intros H.
  assert (G : forall l : list Z, (forall k, k ∈ l -> m !! k = None) ->
                                 flat_map (pe_block m) l = []).
  { induction l as [|k l IH]; intros Hl; [reflexivity|].
    cbn [flat_map]. unfold pe_block at 1.
    rewrite (Hl k) by (apply elem_of_cons; now left).
    apply IH. intros k' Hk'. apply Hl, elem_of_cons. now right. }
  apply G. intros k Hk. apply elem_of_seqZ in Hk. now apply H.
Qed.

Lemma wide_entries_blocks :
  combined_blocks wide_entries
  = [ (PEBlock 65535, ["@0003fe00 00000013"]);
      (PEBlock 70000, ["@0001c200 00000013"]);
      (UnknownBlock, ["@0003fe00 00000013"]) ].
Proof.
  unfold combined_blocks.
  assert (Hc : count_pes wide_entries = 70001) by (vm_compute; reflexivity).
  rewrite Hc. cbv zeta.
  replace 70001 with (65535 + (1 + (4464 + 1))) by reflexivity.
  rewrite !seqZ_app, !flat_map_app by lia.
  rewrite (pe_block_absent wide_entries 0 65535).
  2:{ intros k Hk. unfold wide_entries. rewrite !lookup_insert_ne by lia.
      apply lookup_empty. }
  rewrite (pe_block_absent wide_entries (0 + 65535 + 1) 4464).
  2:{ intros k Hk. unfold wide_entries. rewrite !lookup_insert_ne by lia.
      apply lookup_empty. }
  reflexivity.
Qed.

(** PE numbers from 65535 upwards.  With a file for
    PE 70000 in the manifest, the entries of the file without a PE number are
    listed under a marker of PE 65535, ahead of the block of PE 70000, and
    once more at the end; and a file named for PE 65535 only gets the block of
    the undetermined entries. *)
Lemma combined_file_unknown_before_resolved :
  unresolved "notes.s" = true
  /\ pe_number_of "pe70000_a.s" = Ok 70000
  /\ main wide_manifest
     = Ok [ "// Combined memory initialization file for all PEs";
            "// Format: @ADDRESS HEX_INSTRUCTION";
            "// Total PEs: 70001";
            ""; "// PE65535 memory entries"; "@0003fe00 00000013";
            ""; "// PE70000 memory entries"; "@0001c200 00000013";
            ""; "// Unknown PE memory entries"; "@0003fe00 00000013" ]
  /\ pe_number_of "pe65535_a.s" = Ok 65535
  /\ main [("pe65535_a.s", Some ["nop"])]
     = Ok [ "// Combined memory initialization file for all PEs";
            "// Format: @ADDRESS HEX_INSTRUCTION";
            "// Total PEs: 0";
            ""; "// Unknown PE memory entries"; "@0003fe00 00000013" ].
Proof.
  split; [reflexivity|]. split; [vm_compute; reflexivity|].
  split; [|split; vm_compute; reflexivity].
  unfold main.
  assert (Hrun : manifest_loop wide_manifest ∅ = Ok wide_entries)
    by (vm_compute; reflexivity).
  assert (Hc : count_pes wide_entries = 70001) by (vm_compute; reflexivity).
  rewrite Hrun. cbn [mbind result_bind]. unfold combined_file.
  rewrite wide_entries_blocks, Hc. vm_compute. reflexivity.
Qed.

(** C9. [main] keeps the number 0xFFFF for a file without a PE number and
    stores the records of every file under its number in one map, emptying
    the entry first.  Of two files without a PE number only the records of
    the one processed last reach the combined file, so the block written
    under "Then write entries for unknown PEs" does not hold the entries of
    all such files, and the file differs with the order of the manifest. *)
Theorem main_undetermined_entries :
  (unresolved "first.s" = true /\ unresolved "second.s" = true)
  /\ main unnamed_manifest
     = Ok [ "// Combined memory initialization file for all PEs";
            "// Format: @ADDRESS HEX_INSTRUCTION";
            "// Total PEs: 0";
            ""; "// Unknown PE memory entries"; "@0003fe00 00200113" ]
  /\ main unnamed_manifest_reversed
     = Ok [ "// Combined memory initialization file for all PEs";
            "// Format: @ADDRESS HEX_INSTRUCTION";
            "// Total PEs: 0";
            ""; "// Unknown PE memory entries"; "@0003fe00 00100093" ]
  /\ unnamed_manifest ≡ₚ unnamed_manifest_reversed
  /\ main unnamed_manifest <> main unnamed_manifest_reversed
  /\ assemble ["addi x1, x0, 1"] 0xFFFF
     = Ok {| hex_file := ["00100093"]; mem_file := ["@0003fe00 00100093"];
             preload_count := 1; execution_count := 0 |}.
Proof.
  split; [split; reflexivity|].
  split; [vm_compute; reflexivity|]. split; [vm_compute; reflexivity|].
  split; [apply perm_swap|]. split; [|vm_compute; reflexivity].
  vm_compute. discriminate.
Qed.

End CombinedImage.

Section CodecBounds.
Import DFG Text Samples.

(** X1. The word packed by [calculateHWLImmediate] is a 32-bit value from
    which the four fields are read back by shifting and masking: the delayed
    start modulo 512, the span [pc_stop - pc_start] modulo 64, the loop index
    modulo 32 and the iteration count modulo 4096. *)
Theorem calculateHWLImmediate_unpack (hwl : HardwareLoop) (delay : Z) :
  let imm := calculateHWLImmediate hwl delay in
  0 <= imm < 2 ^ 32
  /\ Z.land (Z.shiftr imm 23) 0x1FF = (pc_start hwl + delay) mod 512
  /\ Z.land (Z.shiftr imm 17) 0x3F = (pc_stop hwl - pc_start hwl) mod 64
  /\ Z.land (Z.shiftr imm 12) 0x1F = hwl_index hwl mod 32
  /\ Z.land imm 0xFFF = iterations hwl mod 4096.
Proof.
  cbv zeta. split; [apply calculateHWLImmediate_range|].
  rewrite calculateHWLImmediate_fields.
  unfold Int32.add, Int32.sub.
  change 0x1FF with (Z.ones 9). change 0x3F with (Z.ones 6).
  change 0x1F with (Z.ones 5). change 0xFFF with (Z.ones 12).
  rewrite !land_wrap by lia.
  rewrite !Z.shiftr_div_pow2, !Z.land_ones by lia.
  change (2 ^ 9) with 512. change (2 ^ 6) with 64. change (2 ^ 5) with 32.
  change (2 ^ 12) with 4096. change (2 ^ 23) with 8388608.
  change (2 ^ 17) with 131072.
  pose proof (Z.mod_pos_bound (pc_start hwl + delay) 512 ltac:(lia)).
  pose proof (Z.mod_pos_bound (pc_stop hwl - pc_start hwl) 64 ltac:(lia)).
  pose proof (Z.mod_pos_bound (hwl_index hwl) 32 ltac:(lia)).
  pose proof (Z.mod_pos_bound (iterations hwl) 4096 ltac:(lia)).
  set (a := (pc_start hwl + delay) mod 512) in *.
  set (b := (pc_stop hwl - pc_start hwl) mod 64) in *.
  set (c := hwl_index hwl mod 32) in *.
  set (d := iterations hwl mod 4096) in *.
  repeat split; Z.to_euclidean_division_equations; lia.
Qed.


(** X2. The pair [splitHWLImmediate] returns for a 32-bit word rebuilds the
    word modulo 2^32 when the lower half is read as a signed 12-bit field:
    the lower half is the low twelve bits, and the upper half, the high
    twenty bits plus the carry of the sign extension, is at most 2^20. *)
Theorem splitHWLImmediate_roundtrip (imm : Z) :
  0 <= imm < 2 ^ 32 ->
  let '(upper, lower) := splitHWLImmediate imm in
  (upper * 4096 + signed12 lower) mod 2 ^ 32 = imm
  /\ lower = imm mod 4096
  /\ 0 <= upper <= 2 ^ 20
  /\ (upper = 2 ^ 20 <-> 0xFFFFF800 <= imm).
Proof.
  intros Himm. unfold splitHWLImmediate. cbv zeta.
  rewrite !land_4095, land_2048, Z.mod_mod, land_ones20, Z.shiftr_div_pow2 by lia.
  change (2 ^ 12) with 4096. unfold Int32.to_unsigned.
  rewrite signed12_spec by (Z.to_euclidean_division_equations; lia).
  destruct (Z.ltb_spec (imm mod 4096) 2048); cbn [negb Z.eqb];
    repeat split; try (Z.to_euclidean_division_equations; lia).
Qed.

Lemma splitHWLImmediate_roundtrip_witness :
  let '(upper, lower) := splitHWLImmediate 0xFFFFF800 in
  (upper * 4096 + signed12 lower) mod 2 ^ 32 = 0xFFFFF800
  /\ lower = 0xFFFFF800 mod 4096
  /\ 0 <= upper <= 2 ^ 20
  /\ (upper = 2 ^ 20 <-> 0xFFFFF800 <= 0xFFFFF800).
Proof. apply (splitHWLImmediate_roundtrip 0xFFFFF800). lia. Defined.

(** X3. Neither half of the pair of [calculateLuiAddiValues] overflows its
    field: the upper half lies in [0, 2^20 - 1], the lower half read as a
    signed 12-bit field lies in [-2048, 2047], and the upper half is zero
    exactly when the value itself fits in twelve signed bits. *)
Theorem calculateLuiAddiValues_bounds (v : Z) :
  Int32.in_range v ->
  let '(upper, lower) := calculateLuiAddiValues v in
  0 <= upper <= 0xFFFFF
  /\ -2048 <= signed12 lower <= 2047
  /\ (upper = 0 <-> -2048 <= v <= 2047).
Proof.
  unfold Int32.in_range, Int32.min_signed, Int32.max_signed. intros Hv.
  unfold calculateLuiAddiValues.
  destruct (Z.leb_spec (-2048) v) as [Hlo|Hlo];
    [destruct (Z.leb_spec v 2047) as [Hhi|Hhi]|]; cbn [andb].
  - rewrite signed12_spec by lia. destruct (Z.ltb_spec v 2048); lia.
  - rewrite !land_4095, land_2048, Z.mod_mod by lia.
    rewrite signed12_spec by (Z.to_euclidean_division_equations; lia).
    rewrite land_ones20, Z.shiftr_div_pow2 by lia. change (2 ^ 12) with 4096.
    destruct (Z.ltb_spec (v mod 4096) 2048); cbn [negb Z.eqb];
      repeat split; try (Z.to_euclidean_division_equations; lia).
  - rewrite !land_4095, land_2048, Z.mod_mod by lia.
    rewrite signed12_spec by (Z.to_euclidean_division_equations; lia).
    rewrite land_ones20, Z.shiftr_div_pow2 by lia. change (2 ^ 12) with 4096.
    destruct (Z.ltb_spec (v mod 4096) 2048); cbn [negb Z.eqb];
      repeat split; try (Z.to_euclidean_division_equations; lia).
Qed.

Lemma calculateLuiAddiValues_bounds_witness :
  let '(upper, lower) := calculateLuiAddiValues (-3000) in
  0 <= upper <= 0xFFFFF
  /\ -2048 <= signed12 lower <= 2047
  /\ (upper = 0 <-> -2048 <= -3000 <= 2047).
Proof.
  apply (calculateLuiAddiValues_bounds (-3000)).
  vm_compute. split; discriminate.
Defined.

(** X4. With duplication factor 4 and a configured stride,
    [calculateClusterBaseAddress] adds the bank constant 100000 for the PEs
    16 to 30, 200000 for 32 to 46 and 300000 for 48 to 62; every other PE,
    which includes 31, 47 and 63, gets no bank constant.  With a factor other
    than 2 and 4 no PE gets one. *)
Theorem calculateClusterBaseAddress_four_banks (d : DFGProcessor)
    (reg : string) (cluster pe stride : Z) :
  mem_offsets d !! (reg +:+ "_offset") = Some stride ->
  stride <> 0 ->
  let base := default 0 (assoc reg (mem_config d)) in
  (16 <= pe <= 30 ->
   calculateClusterBaseAddress d reg cluster 4 pe
   = Int32.wrap (base + stride * cluster + 100000))
  /\ (32 <= pe <= 46 ->
      calculateClusterBaseAddress d reg cluster 4 pe
      = Int32.wrap (base + stride * cluster + 200000))
  /\ (48 <= pe <= 62 ->
      calculateClusterBaseAddress d reg cluster 4 pe
      = Int32.wrap (base + stride * cluster + 300000))
  /\ (pe <= 15 \/ pe = 31 \/ pe = 47 \/ 63 <= pe ->
      calculateClusterBaseAddress d reg cluster 4 pe
      = Int32.wrap (base + stride * cluster))
  /\ (forall dup, dup <> 2 -> dup <> 4 ->
      calculateClusterBaseAddress d reg cluster dup pe
      = Int32.wrap (base + stride * cluster)).
Proof.
  intros Hs Hnz base. unfold calculateClusterBaseAddress. rewrite Hs.
  destruct (Z.eqb_spec stride 0) as [|_]; [contradiction|]. fold base.
  change (4 =? 2) with false. change (4 =? 4) with true. cbv iota.
  repeat split.
  - intros H. destruct (Z.gtb_spec pe 15); [|lia].
    destruct (Z.ltb_spec pe 31); [|lia]. cbn [andb]. apply add_add_mul.
  - intros H. destruct (Z.gtb_spec pe 15); [|lia].
    destruct (Z.ltb_spec pe 31); [lia|]. cbn [andb].
    destruct (Z.gtb_spec pe 31); [|lia].
    destruct (Z.ltb_spec pe 47); [|lia]. cbn [andb]. apply add_add_mul.
  - intros H. destruct (Z.gtb_spec pe 15); [|lia].
    destruct (Z.ltb_spec pe 31); [lia|]. cbn [andb].
    destruct (Z.gtb_spec pe 31); [|lia].
    destruct (Z.ltb_spec pe 47); [lia|]. cbn [andb].
    destruct (Z.gtb_spec pe 47); [|lia].
    destruct (Z.ltb_spec pe 63); [|lia]. cbn [andb]. apply add_add_mul.
  - intros H.
    destruct (Z.gtb_spec pe 15), (Z.ltb_spec pe 31), (Z.gtb_spec pe 31),
      (Z.ltb_spec pe 47), (Z.gtb_spec pe 47), (Z.ltb_spec pe 63);
      cbn [andb]; try lia; apply add_mul.
  - intros dup H2 H4.
    destruct (Z.eqb_spec dup 2); [contradiction|].
    destruct (Z.eqb_spec dup 4); [contradiction|]. apply add_mul.
Qed.

Lemma calculateClusterBaseAddress_four_banks_witness :
  calculateClusterBaseAddress bank_config "x1" 1 4 31
  = Int32.wrap (4096 + 256 * 1).
Proof.
  refine (proj1 (proj2 (proj2 (proj2
            (calculateClusterBaseAddress_four_banks bank_config "x1" 1 31 256
               _ _)))) _).
  - reflexivity.
  - discriminate.
  - right. left. reflexivity.
Defined.

End CodecBounds.

Section AssembledFile.
Import Asm Samples.

Lemma read_loop_length (lines : list string) :
  forall b assembled,
    read_loop lines b = Ok assembled ->
    length assembled = length (instruction_lines lines).
Proof.
  induction lines as [|l lines IH]; intros b assembled H; cbn [read_loop] in H.
  - now injection H as <-.
  - unfold instruction_lines. cbn [List.filter].
    destruct (is_skipped (trim_string l)); cbn [negb].
    + apply (IH _ _ H).
    + destruct (parse_instruction (trim_string l)); cbn [mbind result_bind] in H;
        [|discriminate].
      destruct (read_loop lines b) as [rest|] eqn:Hr; cbn [mbind result_bind] in H;
        [|discriminate].
      injection H as <-. cbn [length]. f_equal. apply (IH _ _ Hr).
Qed.

Lemma length_filter_le {A : Type} (f : A -> bool) (l : list A) :
  (length (List.filter f l) <= length l)%nat.
Proof.
  induction l as [|x l IH]; cbn [List.filter length]; [lia|].
  destruct (f x); cbn [length]; lia.
Qed.

Lemma section_count_total (l : list AssembledInstruction) :
  section_count true l + section_count false l = Z.of_nat (length l).
Proof.
  induction l as [|x l IH]; cbn [section_count length]; [reflexivity|].
  destruct (is_execution x); cbn [Bool.eqb]; lia.
Qed.

(** X5. For a file of fewer than 2^31 lines, [assemble] writes one line of
    the hex file and one memory record for every line that is not blank, a
    comment, a directive or a label, and the preload and execution counters
    add up to that number. *)
Theorem assemble_counts (lines : list string) (pe : Z) (out : Output) :
  Z.of_nat (length lines) < 2 ^ 31 ->
  assemble lines pe = Ok out ->
  length (hex_file out) = length (instruction_lines lines)
  /\ length (mem_file out) = length (instruction_lines lines)
  /\ preload_count out + execution_count out
     = Z.of_nat (length (instruction_lines lines))
  /\ 0 <= preload_count out /\ 0 <= execution_count out.
Proof.
  intros Hlen. unfold assemble.
  destruct (read_loop lines false) as [assembled|] eqn:Hr;
    cbn [mbind result_bind]; [|discriminate].
  intros [= <-].
  pose proof (read_loop_length _ _ _ Hr) as Hl.
  pose proof (length_filter_le (fun line => negb (is_skipped (trim_string line)))
                lines) as Hle.
  fold (instruction_lines lines) in Hle.
  destruct (write_loop_counts pe assembled) as (He & Hp & Hh & Hm); [lia|].
  pose proof (section_count_total assembled).
  pose proof (section_count_range true assembled).
  pose proof (section_count_range false assembled).
  rewrite Hh, Hm, He, Hp, <- Hl. repeat split; lia.
Qed.

Lemma assemble_counts_witness :
  length (hex_file {| hex_file := ["00510093"; ""];
                      mem_file := ["@00000200 00510093"; "@00000201 "];
                      preload_count := 2; execution_count := 0 |})
  = length (instruction_lines ["# setup"; "addi x1, x2, 5"; "foo x1, x2"]).
Proof.
  refine (proj1 (assemble_counts ["# setup"; "addi x1, x2, 5"; "foo x1, x2"] 0
                   _ _ _)).
  - vm_compute. reflexivity.
  - vm_compute. reflexivity.
Defined.

Lemma read_loop_execution (lines : list string) :
  forall assembled,
    read_loop lines true = Ok assembled ->
    Forall (fun x => is_execution x = true) assembled.
Proof.
  induction lines as [|l lines IH]; intros assembled H; cbn [read_loop] in H.
  - injection H as <-. constructor.
  - destruct (is_skipped (trim_string l)).
    + destruct (Text.contains _ _); apply (IH _ H).
    + destruct (parse_instruction (trim_string l)); cbn [mbind result_bind] in H;
        [|discriminate].
      destruct (read_loop lines true) as [rest|] eqn:Hr;
        cbn [mbind result_bind] in H; [|discriminate].
      injection H as <-. constructor; [reflexivity | now apply IH].
Qed.

(** X6. In the list [assemble] builds from a file, every preload word comes
    before every execution word: once a word is tagged as execution, so are
    all the words after it. *)
Theorem read_loop_sections_ordered (lines : list string) (b : bool)
    (assembled : list AssembledInstruction) (i j : nat)
    (x y : AssembledInstruction) :
  read_loop lines b = Ok assembled ->
  (i <= j)%nat ->
  assembled !! i = Some x ->
  assembled !! j = Some y ->
  is_execution x = true ->
  is_execution y = true.
Proof.
  revert b assembled i j.
  induction lines as [|l lines IH]; intros b assembled i j H Hij Hi Hj Hx;
    cbn [read_loop] in H.
  - injection H as <-. discriminate Hi.
  - destruct (is_skipped (trim_string l)).
    + apply (IH _ _ _ _ H Hij Hi Hj Hx).
    + destruct (parse_instruction (trim_string l)) as [instr|];
        cbn [mbind result_bind] in H; [|discriminate].
      destruct (read_loop lines b) as [rest|] eqn:Hr;
        cbn [mbind result_bind] in H; [|discriminate].
      injection H as <-.
      destruct b.
      * pose proof (read_loop_execution _ _ Hr) as Hall.
        assert (Hall' : Forall (fun x => is_execution x = true)
                          (with_section instr true :: rest))
          by (constructor; [reflexivity | exact Hall]).
        rewrite Forall_lookup in Hall'. apply (Hall' j y Hj).
      * destruct i as [|i].
        { injection Hi as <-. discriminate Hx. }
        destruct j as [|j]; [lia|].
        apply (IH false rest i j Hr ltac:(lia) Hi Hj Hx).
Qed.

Lemma read_loop_sections_ordered_witness :
  is_execution {| op := "ret"; binary := "00000000000000000000000000010011";
                  hex := "00000013"; is_execution := true |} = true.
Proof.
  refine (read_loop_sections_ordered
            ["addi x1, x2, 5";
             "# ========== Execution Section Begin ==========";
             "nop"; "ret"] false _ 1 2
            {| op := "nop"; binary := "00000000000000000000000000010011";
               hex := "00000013"; is_execution := true |} _ _ _ _ _ _).
  - vm_compute. reflexivity.
  - lia.
  - reflexivity.
  - reflexivity.
  - reflexivity.
Defined.

End AssembledFile.

Section Driver.
Import Asm Samples.

Lemma manifest_loop_app (files1 files2 : list SourceFile) :
  forall m0,
    manifest_loop (files1 ++ files2) m0
    = (m ← manifest_loop files1 m0; manifest_loop files2 m).
Proof.
  induction files1 as [|[name content] files1 IH]; intros m0;
    cbn [app manifest_loop]; [reflexivity|].
  destruct (String.eqb name "" || String.prefix "#" name); [apply IH|].
  destruct (pe_number_of name) as [pe|]; cbn [mbind result_bind]; [|reflexivity].
  destruct (match content with
            | Some lines => assemble lines pe ≫= λ out, Ok (mem_file out)
            | None => Ok []
            end); cbn [mbind result_bind]; [apply IH | reflexivity].
Qed.

(** X7. The block of a PE in the combined file holds the records of the
    last manifest entry that names it, whatever earlier entries named the
    same PE: the records [assemble] produced for that file, or none when the
    file could not be opened. *)
Theorem manifest_last_entry_wins (files : list SourceFile) (name : string)
    (content : option (list string)) (m0 m : gmap Z (list string)) (pe : Z) :
  manifest_loop (files ++ [(name, content)]) m0 = Ok m ->
  name <> "" ->
  String.prefix "#" name = false ->
  pe_number_of name = Ok pe ->
  m !! pe = Some (match content with
                  | None => []
                  | Some lines =>
                      match assemble lines pe with
                      | Ok out => mem_file out
                      | Err _ => []
                      end
                  end).
Proof.
  intros Hrun Hne Hcomment Hpe. rewrite manifest_loop_app in Hrun.
  destruct (manifest_loop files m0) as [m1|]; cbn [mbind result_bind] in Hrun;
    [|discriminate].
  cbn [manifest_loop] in Hrun. rewrite Hcomment, Hpe in Hrun.
  destruct (String.eqb_spec name "") as [|_]; [contradiction|].
  cbn [orb mbind result_bind] in Hrun.
  destruct content as [lines|].
  - destruct (assemble lines pe) as [out|]; cbn [mbind result_bind] in Hrun;
      [|discriminate].
    injection Hrun as <-. apply lookup_insert_eq.
  - cbn [mbind result_bind] in Hrun. injection Hrun as <-. apply lookup_insert_eq.
Qed.

Lemma manifest_last_entry_wins_witness :
  (<[3 := []]> (<[3 := ["@00000e00 00000013"]]> (∅ : gmap Z (list string))))
    !! 3 = Some [].
Proof.
  refine (manifest_last_entry_wins [("pe3_a.s", Some ["nop"])] "pe3_b.s" None
            ∅ _ 3 _ _ _ _).
  - vm_compute. reflexivity.
  - discriminate.
  - reflexivity.
  - vm_compute. reflexivity.
Defined.

(** X8. The total that [main] prints in the header of the combined file is
    one more than the largest PE number found, not the number of files: it is
    above every PE number in the map other than 0xFFFF, and it is zero or the
    successor of such a number. *)
Theorem count_pes_largest (m : gmap Z (list string)) :
  (forall k, is_Some (m !! k) -> 0 <= k < 2 ^ 31 - 1) ->
  (forall k, is_Some (m !! k) -> k <> 0xFFFF -> k < count_pes m)
  /\ (count_pes m = 0
      \/ exists k, is_Some (m !! k) /\ k <> 0xFFFF /\ count_pes m = k + 1).
Proof. apply count_pes_spec. Qed.

Lemma count_pes_largest_witness :
  (forall k, is_Some (sample_entries !! k) -> k <> 0xFFFF ->
             k < count_pes sample_entries)
  /\ (count_pes sample_entries = 0
      \/ exists k, is_Some (sample_entries !! k) /\ k <> 0xFFFF
                   /\ count_pes sample_entries = k + 1).
Proof.
  apply count_pes_largest. intros k [es Hk]. unfold sample_entries in Hk.
  destruct (decide (k = 0)) as [->|]; [lia|].
  destruct (decide (k = 0xFFFF)) as [->|]; [lia|].
  destruct (decide (k = 2)) as [->|]; [lia|].
  rewrite !lookup_insert_ne, lookup_empty in Hk by congruence. discriminate.
Defined.

Lemma push_token_nonempty (args : list string) (token : string) :
  Forall (fun t => t <> "") args ->
  Forall (fun t => t <> "") (push_token args token).
Proof.
  intros H. unfold push_token.
  destruct (String.eqb_spec token ""); [exact H|].
  apply Forall_app. split; [exact H|]. now constructor.
Qed.

Lemma split_loop_nonempty (s : string) :
  forall current in_parentheses args,
    Forall (fun t => t <> "") args ->
    Forall (fun t => t <> "") (split_loop s current in_parentheses args).
Proof.
  induction s as [|c s IH]; intros current b args H; cbn [split_loop].
  - destruct (String.eqb current ""); [exact H | now apply push_token_nonempty].
  - destruct (Ascii.eqb c "," && _); apply IH;
      [now apply push_token_nonempty | exact H].
Qed.

(** X9. The operand list [parse_instruction] cuts from a line never holds an
    empty operand: two commas in a row, or a comma at either end, add
    nothing. *)
Theorem split_args_nonempty (args_str : string) :
  Forall (fun t => t <> "") (split_args args_str).
Proof. apply split_loop_nonempty. constructor. Qed.

End Driver.

Section PreloadShape.
Import DFG Text Samples.




End PreloadShape.

Section BitValues.
Import Asm Samples.

Lemma binary_prefix_acc (s : string) :
  bit_string s = true ->
  forall acc,
    binary_prefix s acc = acc * 2 ^ Z.of_nat (String.length s) + binary_prefix s 0.
Proof.
  induction s as [|c s IH]; intros Hs acc.
  - cbn. lia.
  - cbn [bit_string] in Hs. apply andb_true_iff in Hs as [Hc Hs].
    replace (Z.of_nat (String.length (String c s)))
      with (Z.of_nat (String.length s) + 1) by (cbn [String.length]; lia).
    rewrite Z.pow_add_r, Z.pow_1_r by lia.
    apply orb_true_iff in Hc as [Hc|Hc]; apply Ascii.eqb_eq in Hc; subst c;
      cbn [binary_prefix].
    + rewrite (IH Hs (2 * acc)), (IH Hs (2 * 0)). lia.
    + rewrite (IH Hs (2 * acc + 1)), (IH Hs (2 * 0 + 1)). lia.
Qed.

Lemma binary_prefix_append (a b : string) :
  bit_string a = true ->
  forall acc, binary_prefix (a +:+ b) acc = binary_prefix b (binary_prefix a acc).
Proof.
  induction a as [|c a IH]; intros Ha acc; [reflexivity|].
  rewrite append_cons. cbn [bit_string] in Ha.
  apply andb_true_iff in Ha as [Hc Ha].
  apply orb_true_iff in Hc as [Hc|Hc]; apply Ascii.eqb_eq in Hc; subst c;
    cbn [binary_prefix]; now apply IH.
Qed.

(** The value of two words written one after the other. *)
Lemma value_append (n m : nat) (a b : string) :
  is_word n a -> is_word m b ->
  value (a +:+ b) = value a * 2 ^ Z.of_nat m + value b.
Proof.
  intros [_ Ha] [Hm Hb]. unfold value.
  rewrite binary_prefix_append by exact Ha.
  rewrite (binary_prefix_acc b Hb). now rewrite Hm.
Qed.

Lemma mod_pow2_succ (z : Z) (n : nat) :
  z mod 2 ^ Z.of_nat (S n)
  = (if Z.testbit z (Z.of_nat n) then 2 ^ Z.of_nat n else 0)
    + z mod 2 ^ Z.of_nat n.
Proof.
  replace (Z.of_nat (S n)) with (Z.of_nat n + 1) by lia.
  rewrite Z.pow_add_r, Z.pow_1_r by lia.
  assert (0 < 2 ^ Z.of_nat n) by (apply Z.pow_pos_nonneg; lia).
  rewrite Z.rem_mul_r by lia.
  rewrite <- Z.testbit_spec' by lia.
  destruct (Z.testbit z (Z.of_nat n)); cbn [Z.b2z]; lia.
Qed.

Lemma value_bits (n : nat) (z : Z) :
  value (bits_msb_first n z) = z mod 2 ^ Z.of_nat n.
Proof.
  unfold value. induction n as [|n IH].
  - cbn. now rewrite Z.mod_1_r.
  - cbn [bits_msb_first]. rewrite mod_pow2_succ.
    destruct (bits_msb_first_word n z) as [Hl Hb].
    destruct (Z.testbit z (Z.of_nat n)); cbn [binary_prefix];
      rewrite (binary_prefix_acc _ Hb), Hl, IH; lia.
Qed.

Lemma substring_bits (n : nat) (z : Z) :
  forall a b : nat,
    (a + b <= n)%nat ->
    substring a b (bits_msb_first n z)
    = bits_msb_first b (Z.shiftr z (Z.of_nat (n - a - b))).
Proof.
  induction n as [|n IH]; intros a b H.
  - assert (a = 0%nat) by lia. assert (b = 0%nat) by lia. now subst.
  - cbn [bits_msb_first]. destruct a as [|a]; cbn [substring].
    + destruct b as [|b]; [reflexivity|].
      cbn [bits_msb_first]. rewrite (IH 0%nat b) by lia.
      replace (S n - 0 - S b)%nat with (n - 0 - b)%nat by lia.
      rewrite Z.shiftr_spec by lia.
      replace (Z.of_nat b + Z.of_nat (n - 0 - b)) with (Z.of_nat n) by lia.
      reflexivity.
    + rewrite (IH a b) by lia. reflexivity.
Qed.

Lemma bits_msb_first_ext (n : nat) (z z' : Z) :
  z mod 2 ^ Z.of_nat n = z' mod 2 ^ Z.of_nat n ->
  bits_msb_first n z = bits_msb_first n z'.
Proof.
  induction n as [|n IH]; intros H; [reflexivity|].
  rewrite !mod_pow2_succ in H.
  assert (0 < 2 ^ Z.of_nat n) by (apply Z.pow_pos_nonneg; lia).
  pose proof (Z.mod_pos_bound z (2 ^ Z.of_nat n) ltac:(lia)).
  pose proof (Z.mod_pos_bound z' (2 ^ Z.of_nat n) ltac:(lia)).
  cbn [bits_msb_first].
  destruct (Z.testbit z (Z.of_nat n)), (Z.testbit z' (Z.of_nat n));
    try lia; f_equal; apply IH; lia.
Qed.

Lemma to_binary_bits (num : Z) (n : nat) :
  (n <= 32)%nat -> to_binary num n = bits_msb_first n num.
Proof.
  intros Hn. unfold to_binary, Text.pad_left, bitset32.
  set (z := if num <? 0 then _ else _).
  rewrite substring_bits by lia.
  replace (32 - (32 - n))%nat with n by lia.
  rewrite Nat.sub_diag. change (Z.of_nat 0) with 0. rewrite Z.shiftr_0_r.
  destruct (bits_msb_first_word n z) as [Hl _]. rewrite Hl, Nat.sub_diag.
  change (Text.replicate_char 0 "0" +:+ bits_msb_first n z)
    with (bits_msb_first n z).
  apply bits_msb_first_ext. subst z.
  destruct (num <? 0); [|reflexivity].
  unfold Int32.add, Int32.shl. rewrite wrap_add_l.
  destruct (wrap_congruent (Z.shiftl 1 (Z.of_nat n) + num)) as [q ->].
  rewrite Z.shiftl_mul_pow2, Z.mul_1_l by lia.
  replace (2 ^ Z.of_nat n + num + q * 2 ^ 32)
    with (num + (1 + q * 2 ^ (32 - Z.of_nat n)) * 2 ^ Z.of_nat n).
  - apply Z.mod_add. apply Z.pow_nonzero; lia.
  - rewrite Z.mul_add_distr_r, <- Z.mul_assoc, <- Z.pow_add_r by lia.
    replace (32 - Z.of_nat n + Z.of_nat n) with 32 by lia. lia.
Qed.

(** X11. For a length of at most 30, where [1 << length] is an [int], and
    an [int] argument, [to_binary] writes the [length] low bits of the two's
    complement of its argument, most significant first: read back as a
    binary number the string is the argument modulo 2^length, so a value
    outside the field is truncated and a value inside it is kept. *)
Theorem to_binary_value (num : Z) (n : nat) :
  (n <= 30)%nat -> Int32.in_range num ->
  is_word n (to_binary num n)
  /\ value (to_binary num n) = num mod 2 ^ Z.of_nat n
  /\ (0 <= num < 2 ^ Z.of_nat n -> value (to_binary num n) = num)
  /\ (- 2 ^ Z.of_nat n <= num < 0 ->
      value (to_binary num n) = num + 2 ^ Z.of_nat n).
Proof.
  intros Hn _. split; [apply to_binary_word; lia|].
  rewrite to_binary_bits, value_bits by lia.
  assert (0 < 2 ^ Z.of_nat n) by (apply Z.pow_pos_nonneg; lia).
  repeat split.
  - intros H'. now apply Z.mod_small.
  - intros H'. symmetry. apply (Z.mod_unique _ _ (-1)); lia.
Qed.

Lemma to_binary_value_witness :
  is_word 12 (to_binary (-1096) 12)
  /\ value (to_binary (-1096) 12) = 3000
  /\ value (to_binary 904 12) = 904.
Proof.
  assert (R : forall z, -5000 <= z <= 5000 -> Int32.in_range z).
  { intros z Hz. unfold Int32.in_range, Int32.min_signed, Int32.max_signed. lia. }
  destruct (to_binary_value (-1096) 12 ltac:(lia) (R (-1096) ltac:(lia)))
    as (Hw & _ & _ & Hneg).
  destruct (to_binary_value 904 12 ltac:(lia) (R 904 ltac:(lia)))
    as (_ & _ & Hpos & _).
  split; [exact Hw|]. split.
  - rewrite Hneg; [reflexivity|]. vm_compute. split; [discriminate | reflexivity].
  - apply Hpos. vm_compute. split; [discriminate | reflexivity].
Defined.

Lemma value_to_binary (num : Z) (n : nat) :
  (n <= 32)%nat -> value (to_binary num n) = num mod 2 ^ Z.of_nat n.
Proof. intros Hn. now rewrite to_binary_bits, value_bits. Qed.

Lemma value_substring_to_binary (num : Z) (n a b : nat) :
  (n <= 32)%nat -> (a + b <= n)%nat ->
  value (substring a b (to_binary num n))
  = (num / 2 ^ Z.of_nat (n - a - b)) mod 2 ^ Z.of_nat b.
Proof.
  intros Hn Hab.
  rewrite to_binary_bits, substring_bits, value_bits, Z.shiftr_div_pow2 by lia.
  reflexivity.
Qed.

Ltac field_word :=
  lazymatch goal with
  | |- is_word _ (to_binary _ _) => apply to_binary_word; lia
  | |- is_word _ (substring _ _ _) =>
      eapply is_word_substring; [apply to_binary_word; lia | lia]
  | H : is_word _ (code ?t ?i) |- is_word _ (code ?t ?i) => exact H
  | |- is_word _ (code _ _) => split; reflexivity
  end.

Ltac fields_word :=
  lazymatch goal with
  | |- is_word _ (?a +:+ ?b) =>
      eapply (is_word_append _ _ _ a b); [field_word | | reflexivity];
      fields_word
  | |- _ => field_word
  end.

Ltac value_fields :=
  repeat lazymatch goal with
    | |- context [value (?a +:+ ?b)] =>
        erewrite (value_append _ _ a b); [| field_word | fields_word]
    end;
  rewrite ?value_to_binary, ?value_substring_to_binary by lia;
  repeat match goal with
    | |- context [Z.of_nat ?k] =>
        let v := eval vm_compute in (Z.of_nat k) in
        change (Z.of_nat k) with v
    end.

Lemma value_hwlrf_lui (rd : string) (imm : Z) :
  value (assemble_hwlrf_lui rd imm)
  = imm mod 2 ^ 20 * 2 ^ 12 + reg hwl_registers rd mod 2 ^ 5 * 2 ^ 7 + 0x3C.
Proof.
  unfold assemble_hwlrf_lui. cbv zeta. value_fields.
  change (value (code instructions "hwlrf.lui")) with 0x3C. ring.
Qed.

Lemma value_hwlrf_addi (rd rs1 : string) (imm : Z) :
  value (assemble_hwlrf_addi rd rs1 imm)
  = imm mod 2 ^ 12 * 2 ^ 20 + reg hwl_registers rs1 mod 2 ^ 5 * 2 ^ 15
    + 2 * 2 ^ 12 + reg hwl_registers rd mod 2 ^ 5 * 2 ^ 7 + 0x14.
Proof.
  unfold assemble_hwlrf_addi. cbv zeta. value_fields.
  change (value (code instructions "hwlrf.addi")) with 0x14.
  change (value (code funct3 "hwlrf.addi")) with 2. ring.
Qed.

Lemma value_lui (rd : string) (imm : Z) :
  value (assemble_u_type "lui" rd imm)
  = imm mod 2 ^ 20 * 2 ^ 12 + reg registers rd mod 2 ^ 5 * 2 ^ 7 + 0x37.
Proof.
  unfold assemble_u_type. cbv zeta. value_fields.
  change (value (code instructions "lui")) with 0x37. ring.
Qed.

Lemma value_addi (rd rs1 : string) (imm : Z) :
  value (assemble_i_type "addi" rd rs1 imm)
  = imm mod 2 ^ 12 * 2 ^ 20 + reg registers rs1 mod 2 ^ 5 * 2 ^ 15
    + reg registers rd mod 2 ^ 5 * 2 ^ 7 + 0x13.
Proof.
  unfold assemble_i_type. cbv zeta. value_fields.
  change (value (code instructions "addi")) with 0x13.
  change (value (code funct3 "addi")) with 0. ring.
Qed.

Lemma value_corf_addi (rd rs1 : string) (imm : Z) :
  value (assemble_corf_addi "corf.addi" rd rs1 imm)
  = imm mod 2 ^ 12 * 2 ^ 20 + reg registers_c rs1 mod 2 ^ 5 * 2 ^ 15
    + reg registers_c rd mod 2 ^ 5 * 2 ^ 7 + 0x14.
Proof.
  unfold assemble_corf_addi. cbv zeta. value_fields.
  change (value (code instructions "corf.addi")) with 0x14.
  change (value (code funct3 "corf.addi")) with 0. ring.
Qed.

(** X12. The register-immediate encoders lay their fields out as immediate
    (12 bits, truncated), source register, function code, destination
    register and opcode, from bit 31 down to bit 0; the register numbers come
    from the register file of the class. *)
Theorem immediate_layout (op rd rs1 : string) (imm : Z) :
  is_word 7 (code instructions op) ->
  is_word 3 (code funct3 op) ->
  let layout (file : list (string * Z)) :=
    imm mod 2 ^ 12 * 2 ^ 20 + reg file rs1 mod 2 ^ 5 * 2 ^ 15
    + value (code funct3 op) * 2 ^ 12 + reg file rd mod 2 ^ 5 * 2 ^ 7
    + value (code instructions op) in
  value (assemble_i_type op rd rs1 imm) = layout registers
  /\ value (assemble_psrf_lw_sw op rd rs1 imm) = layout registers
  /\ value (assemble_corf_addi op rd rs1 imm) = layout registers_c
  /\ value (assemble_ppsrf_addi op rd rs1 imm) = layout registers_p.
Proof.
  intros H7 H3 layout. subst layout. cbv beta.
  unfold assemble_i_type, assemble_psrf_lw_sw, assemble_corf_addi,
    assemble_ppsrf_addi. cbv zeta.
  repeat split; value_fields; ring.
Qed.

Lemma immediate_layout_witness :
  value (assemble_i_type "addi" "x1" "x2" 5)
  = 5 mod 2 ^ 12 * 2 ^ 20 + reg registers "x2" mod 2 ^ 5 * 2 ^ 15
    + value (code funct3 "addi") * 2 ^ 12 + reg registers "x1" mod 2 ^ 5 * 2 ^ 7
    + value (code instructions "addi").
Proof.
  refine (proj1 (immediate_layout "addi" "x1" "x2" 5 _ _)); split; reflexivity.
Defined.

(** X13. The store encoder splits its 12-bit immediate into bits 11 to 5,
    written at the top of the word, and bits 4 to 0, written between the
    function code and the opcode; the branch encoder writes bit 12, bits 10
    to 5, bits 4 to 1 and bit 11 of its 13-bit immediate in that order and
    leaves bit 0 out. *)
Theorem store_branch_layout (op rs1 rs2 : string) (imm : Z) :
  is_word 7 (code instructions op) ->
  is_word 3 (code funct3 op) ->
  value (assemble_s_type op rs1 rs2 imm)
  = (imm / 2 ^ 5) mod 2 ^ 7 * 2 ^ 25 + reg registers rs2 mod 2 ^ 5 * 2 ^ 20
    + reg registers rs1 mod 2 ^ 5 * 2 ^ 15 + value (code funct3 op) * 2 ^ 12
    + imm mod 2 ^ 5 * 2 ^ 7 + value (code instructions op)
  /\ value (assemble_b_type op rs1 rs2 imm)
     = (imm / 2 ^ 12) mod 2 * 2 ^ 31 + (imm / 2 ^ 5) mod 2 ^ 6 * 2 ^ 25
       + reg registers rs2 mod 2 ^ 5 * 2 ^ 20
       + reg registers rs1 mod 2 ^ 5 * 2 ^ 15
       + value (code funct3 op) * 2 ^ 12
       + (imm / 2) mod 2 ^ 4 * 2 ^ 8 + (imm / 2 ^ 11) mod 2 * 2 ^ 7
       + value (code instructions op).
Proof.
  intros H7 H3. unfold assemble_s_type, assemble_b_type. cbv zeta.
  split; value_fields; rewrite ?Z.pow_0_r, ?Z.div_1_r, ?Z.pow_1_r; ring.
Qed.

Lemma store_branch_layout_witness :
  value (assemble_s_type "sw" "x2" "x5" 8)
  = (8 / 2 ^ 5) mod 2 ^ 7 * 2 ^ 25 + reg registers "x5" mod 2 ^ 5 * 2 ^ 20
    + reg registers "x2" mod 2 ^ 5 * 2 ^ 15 + value (code funct3 "sw") * 2 ^ 12
    + 8 mod 2 ^ 5 * 2 ^ 7 + value (code instructions "sw").
Proof.
  refine (proj1 (store_branch_layout "sw" "x2" "x5" 8 _ _)); split; reflexivity.
Defined.

(** X14. The jump encoder writes, below bit 20 of its 21-bit immediate, the
    bits 9 to 0 in the ten places under bit 31, then bit 10, then bits 19 to
    12, the destination register and the opcode of [jal]; bit 11 of the
    immediate does not enter the word. *)
Theorem jump_layout (rd : string) (imm : Z) :
  value (assemble_j_type rd imm)
  = (imm / 2 ^ 20) mod 2 * 2 ^ 31 + imm mod 2 ^ 10 * 2 ^ 21
    + (imm / 2 ^ 10) mod 2 * 2 ^ 20 + (imm / 2 ^ 12) mod 2 ^ 8 * 2 ^ 12
    + reg registers rd mod 2 ^ 5 * 2 ^ 7 + 0x6F.
Proof.
  unfold assemble_j_type. cbv zeta.
  value_fields; rewrite ?Z.pow_0_r, ?Z.div_1_r, ?Z.pow_1_r.
  change (value (code instructions "jal")) with 0x6F. ring.
Qed.

(** X15. The upper-immediate encoders write the low 20 bits of the
    immediate above the destination register and the opcode; the register
    comes from the general file for [lui] and [auipc], from the coefficient
    file for [corf.lui] and from the loop registers for [hwlrf.lui]. *)
Theorem upper_layout (op rd : string) (imm : Z) :
  is_word 7 (code instructions op) ->
  value (assemble_u_type op rd imm)
  = imm mod 2 ^ 20 * 2 ^ 12 + reg registers rd mod 2 ^ 5 * 2 ^ 7
    + value (code instructions op)
  /\ value (assemble_corf_lui op rd imm)
     = imm mod 2 ^ 20 * 2 ^ 12 + reg registers_c rd mod 2 ^ 5 * 2 ^ 7
       + value (code instructions op)
  /\ value (assemble_hwlrf_lui rd imm)
     = imm mod 2 ^ 20 * 2 ^ 12 + reg hwl_registers rd mod 2 ^ 5 * 2 ^ 7 + 0x3C.
Proof.
  intros H7. unfold assemble_u_type, assemble_corf_lui, assemble_hwlrf_lui.
  cbv zeta. repeat split; value_fields.
  - ring.
  - change 0xFFFFF with (Z.ones 20). rewrite Z.land_ones, Z.mod_mod by lia. ring.
  - change (value (code instructions "hwlrf.lui")) with 0x3C. ring.
Qed.

Lemma upper_layout_witness :
  value (assemble_u_type "lui" "x1" 25)
  = 25 mod 2 ^ 20 * 2 ^ 12 + reg registers "x1" mod 2 ^ 5 * 2 ^ 7
    + value (code instructions "lui").
Proof.
  refine (proj1 (upper_layout "lui" "x1" 25 _)); split; reflexivity.
Defined.

(** X16. The register-register encoder writes the second function code, the
    second source, the first source, the function code, the destination and
    the opcode; for the shifts [slli], [srli] and [srai] the place of the
    second source takes the low five bits of the shift amount read from the
    third operand. *)
Theorem register_layout (op rd rs1 rs2 b : string) :
  is_word 7 (code instructions op) ->
  is_word 3 (code funct3 op) ->
  is_word 7 (code funct7 op) ->
  assemble_r_type op rd rs1 rs2 = Ok b ->
  exists second : Z,
    (if Text.str_in op ["slli"; "srli"; "srai"]
     then Text.stoi rs2 = Ok second
     else second = reg registers rs2)
    /\ value b
       = value (code funct7 op) * 2 ^ 25 + second mod 2 ^ 5 * 2 ^ 20
         + reg registers rs1 mod 2 ^ 5 * 2 ^ 15
         + value (code funct3 op) * 2 ^ 12
         + reg registers rd mod 2 ^ 5 * 2 ^ 7 + value (code instructions op).
Proof.
  intros H7 H3 Hf. unfold assemble_r_type. cbv zeta.
  destruct (Text.str_in op _).
  - destruct (Text.stoi rs2) as [shamt|]; cbn [mbind result_bind];
      [|discriminate].
    intros [= <-]. exists shamt. split; [reflexivity|]. value_fields. ring.
  - intros [= <-]. eexists. split; [reflexivity|]. value_fields. ring.
Qed.

Lemma register_layout_witness :
  exists second : Z,
    Text.stoi "3" = Ok second
    /\ value "00000000001100010001000010010011"
       = value (code funct7 "slli") * 2 ^ 25 + second mod 2 ^ 5 * 2 ^ 20
         + reg registers "x2" mod 2 ^ 5 * 2 ^ 15
         + value (code funct3 "slli") * 2 ^ 12
         + reg registers "x1" mod 2 ^ 5 * 2 ^ 7 + value (code instructions "slli").
Proof.
  refine (register_layout "slli" "x1" "x2" "3" _ _ _ _ _).
  - split; reflexivity.
  - split; reflexivity.
  - split; reflexivity.
  - vm_compute. reflexivity.
Defined.

End BitValues.

Section HexValues.
Import Asm Samples.

Lemma hex_digit_value_digit (uppercase : bool) (d : Z) :
  0 <= d < 16 -> hex_digit_value (Text.hex_digit uppercase d) = Some d.
Proof.
  intros Hd.
  assert (d = 0 \/ d = 1 \/ d = 2 \/ d = 3 \/ d = 4 \/ d = 5 \/ d = 6 \/ d = 7
          \/ d = 8 \/ d = 9 \/ d = 10 \/ d = 11 \/ d = 12 \/ d = 13 \/ d = 14
          \/ d = 15) as H by lia.
  destruct uppercase;
    repeat (destruct H as [->|H]; [reflexivity|]); subst d; reflexivity.
Qed.

Lemma hex_go_value (uppercase : bool) (fuel : nat) :
  forall n, 0 <= n < 16 ^ Z.of_nat fuel ->
    exists p, forall s a,
      hex_prefix (Text.hex_go fuel uppercase n s) a = hex_prefix s (a * p + n).
Proof.
  induction fuel as [|fuel IH]; intros n Hn.
  - exists 1. intros s a. cbn [Text.hex_go]. f_equal. change (16 ^ Z.of_nat 0) with 1 in Hn. lia.
  - cbn [Text.hex_go].
    pose proof (Z.mod_pos_bound n 16 ltac:(lia)) as Hm.
    destruct (Z.ltb_spec n 16) as [Hlt|Hge].
    + exists 16. intros s a. cbn [hex_prefix].
      rewrite hex_digit_value_digit by lia.
      rewrite Z.mod_small by lia. f_equal. lia.
    + destruct (IH (n / 16)) as [p Hp].
      { replace (Z.of_nat (S fuel)) with (Z.of_nat fuel + 1) in Hn by lia.
        rewrite Z.pow_add_r, Z.pow_1_r in Hn by lia.
        split; [apply Z.div_pos; lia | apply Z.div_lt_upper_bound; lia]. }
      exists (16 * p). intros s a. rewrite Hp. cbn [hex_prefix].
      rewrite hex_digit_value_digit by lia. f_equal.
      pose proof (Z.div_mod n 16 ltac:(lia)). lia.
Qed.

Lemma hex_fuel (n : Z) : 0 <= n -> n < 16 ^ Z.of_nat (S (Z.to_nat (Z.log2 n))).
Proof.
  intros Hn. rewrite Nat2Z.inj_succ, Z2Nat.id by apply Z.log2_nonneg.
  destruct (Z.eq_dec n 0) as [->|Hne]; [reflexivity|].
  destruct (Z.log2_spec n ltac:(lia)) as [_ Hlt].
  apply Z.lt_le_trans with (1 := Hlt).
  change 16 with (2 ^ 4). rewrite <- Z.pow_mul_r by (pose proof (Z.log2_nonneg n); lia).
  apply Z.pow_le_mono_r; pose proof (Z.log2_nonneg n); lia.
Qed.

(** The digits [Text.hex] prints denote the number printed: the fuel of the
    printer is never used up. *)
Lemma hex_value_hex (uppercase : bool) (n : Z) :
  0 <= n -> hex_value (Text.hex uppercase n) = n.
Proof.
  intros Hn. unfold hex_value, Text.hex.
  destruct (hex_go_value uppercase _ n (conj Hn (hex_fuel n Hn))) as [p Hp].
  rewrite Hp. cbn [hex_prefix]. lia.
Qed.

Lemma hex_prefix_zeros (k : nat) (s : string) :
  hex_prefix (Text.replicate_char k "0" +:+ s) 0 = hex_prefix s 0.
Proof.
  induction k as [|k IH]; [reflexivity|].
  cbn [Text.replicate_char]. rewrite append_cons. cbn [hex_prefix].
  exact IH.
Qed.



End HexValues.

Section EncodedWords.
Import Asm Samples.

Lemma hex_digit_lower (d : Z) :
  0 <= d < 16 -> is_hex_digit (Text.hex_digit false d) = true.
Proof.
  intros Hd.
  assert (d = 0 \/ d = 1 \/ d = 2 \/ d = 3 \/ d = 4 \/ d = 5 \/ d = 6 \/ d = 7
          \/ d = 8 \/ d = 9 \/ d = 10 \/ d = 11 \/ d = 12 \/ d = 13 \/ d = 14
          \/ d = 15) as H by lia.
  repeat (destruct H as [->|H]; [reflexivity|]); subst d; reflexivity.
Qed.

Lemma hex_go_digits (fuel : nat) :
  forall n acc, hex_digits acc = true ->
    hex_digits (Text.hex_go fuel false n acc) = true.
Proof.
  induction fuel as [|fuel IH]; intros n acc Hacc; cbn [Text.hex_go];
    [exact Hacc|].
  assert (Hd : hex_digits (String (Text.hex_digit false (n mod 16)) acc) = true).
  { cbn [hex_digits]. rewrite Hacc, andb_true_r.
    apply hex_digit_lower, Z.mod_pos_bound. lia. }
  destruct (n <? 16); [exact Hd | now apply IH].
Qed.

Lemma hex_digits_pad (k : nat) (s : string) :
  hex_digits s = true -> hex_digits (Text.replicate_char k "0" +:+ s) = true.
Proof.
  intros Hs. induction k as [|k IH]; [exact Hs|].
  cbn [Text.replicate_char]. rewrite append_cons. cbn [hex_digits].
  now rewrite IH.
Qed.

(** [std::stoul] reads a word of 32 binary digits as its value. *)
Lemma stoul2_word (b : string) : is_word 32 b -> stoul2 b = Ok (value b).
Proof.
  intros [Hl Hb].
  pose proof (binary_prefix_bound b Hb 0 ltac:(lia)) as Hv.
  rewrite Hl in Hv. change (2 ^ Z.of_nat 32) with (2 ^ 32) in Hv.
  unfold stoul2, value. destruct b as [|c b]; [discriminate Hl|].
  pose proof Hb as Hb'. cbn [bit_string] in Hb'.
  apply andb_true_iff in Hb' as [Hc _].
  assert (Hsp : Text.skip_spaces (String c b) = String c b).
  { apply orb_true_iff in Hc as [Hc|Hc]; apply Ascii.eqb_eq in Hc; now subst c. }
  rewrite Hsp.
  assert (Hsign : (match String c b with
                   | String "-" r => (true, r)
                   | String "+" r => (false, r)
                   | _ => (false, String c b)
                   end) = (false, String c b)).
  { apply orb_true_iff in Hc as [Hc|Hc]; apply Ascii.eqb_eq in Hc; now subst c. }
  rewrite Hsign, Hc.
  destruct (Z.ltb_spec (binary_prefix (String c b) 0) (2 ^ 64)); [reflexivity|].
  lia.
Qed.

(** The rendering of a word: eight lower-case hexadecimal digits of the
    same value. *)
Lemma to_hex_digits (b : string) :
  is_word 32 b ->
  exists h, to_hex b = Ok h
            /\ String.length h = 8%nat
            /\ hex_digits h = true
            /\ hex_value h = value b.
Proof.
  intros Hw. destruct (to_hex_word b Hw) as (h & Hh & Hlen).
  exists h. split; [exact Hh|]. split; [exact Hlen|].
  unfold to_hex in Hh. rewrite (stoul2_word b Hw) in Hh.
  cbn [mbind result_bind] in Hh. injection Hh as <-.
  destruct Hw as [_ Hb].
  pose proof (binary_prefix_bound b Hb 0 ltac:(lia)) as Hv. split.
  - unfold Text.pad_left. apply hex_digits_pad. unfold Text.hex.
    now apply hex_go_digits.
  - unfold hex_value, Text.pad_left. rewrite hex_prefix_zeros.
    apply hex_value_hex. unfold value. lia.
Qed.

(** C10. Every line that [parse_instruction] encodes, whatever its mnemonic
    and operands, has a binary string of exactly 32 binary digits and a
    hexadecimal rendering, the one [to_hex] gives for that string, of exactly
    8 hexadecimal digits, which denote the same number as the 32 bits. *)
Theorem parse_instruction_word (line : string) (r : AssembledInstruction) :
  parse_instruction line = Ok r ->
  binary r <> "" ->
  String.length (binary r) = 32%nat
  /\ bit_string (binary r) = true
  /\ to_hex (binary r) = Ok (hex r)
  /\ String.length (hex r) = 8%nat
  /\ hex_digits (hex r) = true
  /\ hex_value (hex r) = value (binary r).
Proof.
  unfold parse_instruction.
  destruct (extract_token line) as [mn rest].
  destruct (encode mn (split_args (trim_string (getline rest)))) as [b|] eqn:Henc;
    cbn [mbind result_bind]; [|discriminate].
  destruct (String.eqb_spec b "") as [->|Hb].
  - cbn [mbind result_bind]. intros [= <-]. cbn [binary]. congruence.
  - destruct (encode_word _ _ _ Henc) as [->|Hw]; [congruence|].
    destruct (to_hex_digits b Hw) as (h & Hh & Hlen & Hd & Hv). rewrite Hh.
    cbn [mbind result_bind]. intros [= <-] _. cbn [binary hex].
    destruct Hw as [Hl Hbits]. auto 10.
Qed.

Lemma parse_instruction_word_witness :
  exists r,
    parse_instruction "addi x1, x2, 5" = Ok r
    /\ binary r = "00000000010100010000000010010011"
    /\ hex r = "00510093"
    /\ String.length (binary r) = 32%nat
    /\ bit_string (binary r) = true
    /\ to_hex (binary r) = Ok (hex r)
    /\ String.length (hex r) = 8%nat
    /\ hex_digits (hex r) = true
    /\ hex_value (hex r) = value (binary r).
Proof.
  assert (H : parse_instruction "addi x1, x2, 5"
              = Ok {| op := "addi"; binary := "00000000010100010000000010010011";
                      hex := "00510093"; is_execution := false |})
    by (vm_compute; reflexivity).
  eexists. split; [exact H|]. split; [reflexivity|]. split; [reflexivity|].
  exact (parse_instruction_word _ _ H ltac:(discriminate)).
Defined.

End EncodedWords.

Section Tables.
Import Asm Samples.

Lemma assoc_absent {V : Type} (name : string) (m : list (string * V)) :
  (forall k v, In (k, v) m -> k <> name) -> Text.assoc name m = None.
Proof.
  induction m as [|[k v] m IH]; intros H; [reflexivity|].
  cbn [Text.assoc]. destruct (String.eqb_spec name k) as [->|_].
  - exfalso. apply (H k v); [now left | reflexivity].
  - apply IH. intros k' v' Hin. apply (H k' v'). now right.
Qed.

Lemma register_file_keys (prefix : string) (numbers : list Z) (k : string)
    (v : Z) :
  In (k, v) (register_file prefix numbers) ->
  k = prefix +:+ Text.to_string v /\ In v numbers.
Proof.
  unfold register_file. rewrite in_map_iff. intros (i & [= <- <-] & Hi). auto.
Qed.

Lemma register_file_lookup (prefix : string) (numbers : list Z) (i : Z) :
  NoDup numbers -> In i numbers ->
  reg (register_file prefix numbers) (prefix +:+ Text.to_string i) = i.
Proof.
  unfold reg. induction numbers as [|j numbers IH]; intros Hnd Hin; [destruct Hin|].
  cbn [register_file map Text.assoc].
  destruct (String.eqb_spec (prefix +:+ Text.to_string i)
              (prefix +:+ Text.to_string j)) as [Heq|Hne].
  - apply String.app_inj in Heq. unfold Text.to_string in Heq.
    apply pretty_Z_inj in Heq. now subst.
  - destruct Hin as [->|Hin]; [contradiction|].
    apply NoDup_cons in Hnd as [_ Hnd]. now apply IH.
Qed.





End Tables.

Section NumberText.
Import Text.

Lemma pretty_N_char_digit (d : N) :
  (d < 10)%N ->
  is_digit (pretty_N_char d) = true
  /\ digit_value (pretty_N_char d) = Z.of_N d.
Proof.
  intros H.
  assert (d = 0 \/ d = 1 \/ d = 2 \/ d = 3 \/ d = 4 \/ d = 5 \/ d = 6
          \/ d = 7 \/ d = 8 \/ d = 9)%N as C by lia.
  repeat (destruct C as [->|C]; [split; reflexivity|]). subst. split; reflexivity.
Qed.

Lemma pretty_N_go_append (x : N) :
  forall s t, pretty_N_go x s +:+ t = pretty_N_go x (s +:+ t).
Proof.
  induction (N.lt_wf_0 x) as [x _ IH]. intros s t.
  destruct (N.eq_dec x 0%N) as [->|Hx].
  - now rewrite !pretty_N_go_0.
  - rewrite (pretty_N_go_step x s), (pretty_N_go_step x (s +:+ t)) by lia.
    rewrite IH by (apply N.div_lt; lia). reflexivity.
Qed.

Lemma pretty_N_go_head (x : N) :
  forall s, (0 < x)%N ->
    exists c r, pretty_N_go x s = String c r /\ is_digit c = true.
Proof.
  induction (N.lt_wf_0 x) as [x _ IH]. intros s Hx.
  rewrite pretty_N_go_step by exact Hx.
  destruct (N.eq_dec (x / 10)%N 0%N) as [E|E].
  - rewrite E, pretty_N_go_0. eexists _, _. split; [reflexivity|].
    apply pretty_N_char_digit, N.mod_lt. lia.
  - apply IH.
    + apply N.div_lt; lia.
    + apply N.neq_0_lt_0. exact E.
Qed.

Lemma decimal_prefix_pretty (x : N) :
  forall s, decimal_prefix (pretty_N_go x s) 0 = decimal_prefix s (Z.of_N x).
Proof.
  induction (N.lt_wf_0 x) as [x _ IH]. intros s.
  destruct (N.eq_dec x 0%N) as [->|Hx].
  - now rewrite pretty_N_go_0.
  - rewrite pretty_N_go_step by lia.
    rewrite IH by (apply N.div_lt; lia).
    cbn [decimal_prefix].
    destruct (pretty_N_char_digit (x mod 10)) as [-> ->];
      [apply N.mod_lt; lia|].
    f_equal. rewrite N2Z.inj_div, N2Z.inj_mod.
    change (Z.of_N 10) with 10. pose proof (Z.div_mod (Z.of_N x) 10). lia.
Qed.

Lemma decimal_prefix_stop (t : string) (v : Z) :
  leading_digit t = false -> decimal_prefix t v = v.
Proof. destruct t as [|c t]; cbn; [reflexivity|]. now intros ->. Qed.

Lemma stoi_digits (c : ascii) (r : string) :
  is_digit c = true ->
  stoi (String c r)
  = (let v := decimal_prefix (String c r) 0 in
     if (Int32.min_signed <=? v) && (v <=? Int32.max_signed)
     then Ok v else Err OutOfRange).
Proof.
  intros Hd. destruct (digit_not_space_or_sign c Hd) as (Hsp & Hm & Hp & _).
  unfold stoi. cbn [skip_spaces]. rewrite Hsp.
  assert (Hsign : (match String c r with
                   | String "-" r0 => (true, r0)
                   | String "+" r0 => (false, r0)
                   | _ => (false, String c r)
                   end) = (false, String c r)).
  { destruct c as [[] [] [] [] [] [] [] []]; try reflexivity; congruence. }
  rewrite Hsign, Hd. reflexivity.
Qed.

Lemma stoi_minus_digits (c : ascii) (r : string) :
  is_digit c = true ->
  stoi (String "-" (String c r))
  = (let v := - decimal_prefix (String c r) 0 in
     if (Int32.min_signed <=? v) && (v <=? Int32.max_signed)
     then Ok v else Err OutOfRange).
Proof.
  intros Hd. unfold stoi. cbn [skip_spaces].
  change (is_space "-") with false. cbv iota. rewrite Hd. reflexivity.
Qed.

Lemma pretty_positive_text (p : positive) (t : string) :
  exists c r,
    pretty p +:+ t = String c r /\ is_digit c = true
    /\ decimal_prefix (String c r) 0 = decimal_prefix t (Z.pos p).
Proof.
  assert (E : pretty p +:+ t = pretty_N_go (N.pos p) t).
  { unfold pretty, pretty_positive, pretty, pretty_N.
    destruct (decide (N.pos p = 0%N)) as [H|_]; [discriminate H|].
    now rewrite pretty_N_go_append. }
  destruct (pretty_N_go_head (N.pos p) t) as (c & r & Hc & Hd); [lia|].
  exists c, r. rewrite E. split; [exact Hc|]. split; [exact Hd|].
  rewrite <- Hc. apply decimal_prefix_pretty.
Qed.

Lemma stoi_text (z : Z) (t : string) :
  Int32.in_range z -> leading_digit t = false ->
  stoi (to_string z +:+ t) = Ok z.
Proof.
  unfold Int32.in_range, to_string. intros Hz Ht.
  assert (R : forall v, Int32.min_signed <= v <= Int32.max_signed ->
              (Int32.min_signed <=? v) && (v <=? Int32.max_signed) = true).
  { intros v Hv. apply andb_true_intro. split; apply Z.leb_le; lia. }
  destruct z as [|p|p].
  - change (pretty 0) with "0". rewrite append_cons.
    rewrite stoi_digits by reflexivity. cbv zeta.
    cbn [decimal_prefix]. change (is_digit "0") with true. cbv iota.
    rewrite decimal_prefix_stop by exact Ht. reflexivity.
  - change (pretty (Z.pos p)) with (pretty p).
    destruct (pretty_positive_text p t) as (c & r & -> & Hd & Hv).
    rewrite stoi_digits by exact Hd. cbv zeta. rewrite Hv.
    rewrite decimal_prefix_stop by exact Ht. now rewrite R.
  - change (pretty (Z.neg p)) with ("-" +:+ pretty p).
    rewrite append_assoc, append_cons.
    destruct (pretty_positive_text p t) as (c & r & -> & Hd & Hv).
    change ("" +:+ String c r) with (String c r).
    rewrite stoi_minus_digits by exact Hd. cbv zeta. rewrite Hv.
    rewrite decimal_prefix_stop by exact Ht.
    rewrite R by (change (- Z.pos p) with (Z.neg p); lia). reflexivity.
Qed.

Lemma stoi_number (z : Z) :
  Int32.in_range z -> stoi (to_string z) = Ok z.
Proof.
  intros Hz. rewrite <- (append_empty_r (to_string z)).
  now apply stoi_text.
Qed.

(** X20. [std::stoi] reads back what [std::to_string] writes for an [int],
    also when text that does not begin with a digit follows the number. *)
Theorem stoi_to_string (z : Z) (t : string) :
  Int32.in_range z -> leading_digit t = false ->
  stoi (to_string z) = Ok z /\ stoi (to_string z +:+ t) = Ok z.
Proof.
  intros Hz Ht. split; [now apply stoi_number | now apply stoi_text].
Qed.

Lemma stoi_to_string_witness :
  stoi (to_string (-2147483648)) = Ok (-2147483648)
  /\ stoi (to_string (-2147483648) +:+ "(x1)") = Ok (-2147483648).
Proof.
  apply stoi_to_string;
    [unfold Int32.in_range; vm_compute; split; discriminate | reflexivity].
Defined.

End NumberText.

Section Trimming.
Import Asm.

Lemma all_space_append (a b : string) :
  all_space (a +:+ b) = all_space a && all_space b.
Proof.
  induction a as [|c a IH]; [reflexivity|].
  rewrite append_cons. cbn [all_space]. now rewrite IH, andb_assoc.
Qed.

Lemma find_first_all_space (a : string) :
  all_space a = true -> find_first_not_space a = None.
Proof.
  induction a as [|c a IH]; [reflexivity|]. cbn [all_space find_first_not_space].
  intros [-> H]%andb_true_iff. now rewrite (IH H).
Qed.

Lemma find_last_all_space (a : string) :
  all_space a = true -> find_last_not_space a = None.
Proof.
  induction a as [|c a IH]; [reflexivity|]. cbn [all_space find_last_not_space].
  intros [-> H]%andb_true_iff. now rewrite (IH H).
Qed.

Lemma find_first_padded (a r : string) (c : ascii) :
  all_space a = true -> Text.is_space c = false ->
  find_first_not_space (a +:+ String c r) = Some (String.length a).
Proof.
  intros Ha Hc. induction a as [|x a IH].
  - change ("" +:+ String c r) with (String c r).
    cbn [find_first_not_space String.length]. now rewrite Hc.
  - rewrite append_cons. cbn [all_space find_first_not_space String.length] in *.
    apply andb_true_iff in Ha as [-> Ha]. now rewrite (IH Ha).
Qed.

Lemma find_last_prefix (a s : string) (i : nat) :
  find_last_not_space s = Some i ->
  find_last_not_space (a +:+ s) = Some (String.length a + i)%nat.
Proof.
  intros H. induction a as [|x a IH]; [exact H|].
  rewrite append_cons. cbn [find_last_not_space String.length]. now rewrite IH.
Qed.

Lemma find_last_suffix (s b : string) :
  all_space b = true ->
  find_last_not_space (s +:+ b) = find_last_not_space s.
Proof.
  intros Hb. induction s as [|x s IH].
  - cbn. now apply find_last_all_space.
  - rewrite append_cons. cbn [find_last_not_space]. now rewrite IH.
Qed.

Lemma find_last_trimmed (c : ascii) (r : string) :
  last_not_space (String c r) = true ->
  find_last_not_space (String c r) = Some (String.length r).
Proof.
  revert c. induction r as [|c' r IH]; intros c H.
  - cbn in *. now destruct (Text.is_space c).
  - cbn [last_not_space] in H. cbn [find_last_not_space String.length].
    cbn [find_last_not_space] in IH. now rewrite (IH c' H).
Qed.

Lemma substring_middle (a s b : string) :
  substring (String.length a) (String.length s) (a +:+ s +:+ b) = s.
Proof.
  induction a as [|x a IH].
  - cbn [String.length]. change ("" +:+ s +:+ b) with (s +:+ b).
    induction s as [|y s IHs].
    + now destruct b.
    + rewrite append_cons. cbn [String.length substring]. now rewrite IHs.
  - rewrite append_cons. cbn [String.length substring]. exact IH.
Qed.

(** Trimming removes the white space around a trimmed text. *)
Lemma trim_string_padded (a s b : string) :
  all_space a = true -> all_space b = true -> is_trimmed s = true ->
  trim_string (a +:+ s +:+ b) = s.
Proof.
  intros Ha Hb Hs. unfold trim_string. destruct s as [|c r].
  - change ("" +:+ b) with b.
    rewrite find_first_all_space; [reflexivity|].
    rewrite all_space_append, Ha, Hb. reflexivity.
  - cbn [is_trimmed] in Hs. apply andb_true_iff in Hs as [Hc Hl].
    apply negb_true_iff in Hc.
    rewrite append_cons, (find_first_padded a (r +:+ b) c Ha Hc).
    rewrite <- append_cons.
    rewrite (find_last_prefix a (String c r +:+ b) (String.length r)).
    2:{ rewrite find_last_suffix by exact Hb. now apply find_last_trimmed. }
    replace (String.length a + String.length r - String.length a + 1)%nat
      with (String.length (String c r)) by (cbn [String.length]; lia).
    apply substring_middle.
Qed.

Lemma last_not_space_append (a : string) (c : ascii) (r : string) :
  last_not_space (a +:+ String c r) = last_not_space (String c r).
Proof.
  induction a as [|x a IH]; [reflexivity|].
  rewrite append_cons. cbn [last_not_space].
  destruct (a +:+ String c r) eqn:E.
  - destruct a; discriminate E.
  - exact IH.
Qed.

Lemma trim_decomposition (s : string) :
  exists a m b,
    s = a +:+ m +:+ b
    /\ all_space a = true /\ all_space b = true /\ is_trimmed m = true.
Proof.
  induction s as [|c s (a & m & b & -> & Ha & Hb & Hm)].
  - exists "", "", "". repeat split.
  - destruct (Text.is_space c) eqn:Hc.
    + exists (String c a), m, b. rewrite append_cons. cbn [all_space].
      rewrite Hc, Ha. repeat split; assumption.
    + destruct m as [|y m].
      * exists "", (String c ""), (a +:+ b). split; [reflexivity|].
        rewrite all_space_append, Ha, Hb. cbn. rewrite Hc. repeat split.
      * exists "", (String c (a +:+ String y m)), b.
        split; [now rewrite !append_cons, append_assoc|].
        split; [reflexivity|]. split; [exact Hb|].
        cbn [is_trimmed] in *. rewrite Hc. cbn [negb andb].
        apply andb_true_iff in Hm as [_ Hm].
        cbn [last_not_space]. destruct (a +:+ String y m) eqn:E.
        -- destruct a; discriminate E.
        -- rewrite <- E. now rewrite last_not_space_append.
Qed.

(** X21. [trim_string] removes white space at the two ends and nothing else:
    the line is its result between two runs of white space, the result is
    empty or begins and ends with a character that is not white space, and
    trimming it again changes nothing. *)
Theorem trim_string_strips (s : string) :
  (exists a b,
      s = a +:+ trim_string s +:+ b
      /\ all_space a = true /\ all_space b = true)
  /\ is_trimmed (trim_string s) = true
  /\ trim_string (trim_string s) = trim_string s.
Proof.
  destruct (trim_decomposition s) as (a & m & b & -> & Ha & Hb & Hm).
  rewrite (trim_string_padded a m b Ha Hb Hm).
  split; [now exists a, b|]. split; [exact Hm|].
  rewrite <- (trim_string_padded "" m "" eq_refl eq_refl Hm) at 2.
  change ("" +:+ m +:+ "") with (m +:+ ""). now rewrite append_empty_r.
Qed.

End Trimming.

Section Parsing.
Import Asm.

Lemma space_not_separator (c : ascii) :
  Text.is_space c = true ->
  Ascii.eqb c "(" = false /\ Ascii.eqb c ")" = false /\ Ascii.eqb c "," = false
  /\ Ascii.eqb c "#" = false.
Proof.
  destruct c as [[] [] [] [] [] [] [] []]; intros H; try discriminate H;
    repeat split; reflexivity.
Qed.

Lemma eqb_empty_false (c : ascii) (s : string) : String.eqb (String c s) "" = false.
Proof. reflexivity. Qed.

Lemma nonempty_cons (s : string) :
  String.eqb s "" = false -> exists c r, s = String c r.
Proof. destruct s as [|c r]; [discriminate|]. now exists c, r. Qed.

Lemma skip_spaces_token (op rest : string) :
  token op = true -> Text.skip_spaces (op +:+ rest) = op +:+ rest.
Proof.
  unfold token. destruct op as [|c op]; [discriminate|].
  cbn [negb String.eqb andb no_space].
  intros [Hc _]%andb_true_iff. apply negb_true_iff in Hc.
  rewrite append_cons. cbn [Text.skip_spaces]. now rewrite Hc.
Qed.

Lemma read_until_space_token (op rest : string) :
  no_space op = true ->
  match rest with String c _ => Text.is_space c = true | EmptyString => True end ->
  read_until_space (op +:+ rest) = (op, rest).
Proof.
  intros Hop Hrest. induction op as [|c op IH].
  - change ("" +:+ rest) with rest. destruct rest as [|c r]; [reflexivity|].
    cbn [read_until_space]. now rewrite Hrest.
  - cbn [no_space] in Hop. apply andb_true_iff in Hop as [Hc Hop].
    apply negb_true_iff in Hc. rewrite append_cons. cbn [read_until_space].
    now rewrite Hc, (IH Hop).
Qed.

Lemma no_newline_append (a b : string) :
  no_newline (a +:+ b) = no_newline a && no_newline b.
Proof.
  induction a as [|c a IH]; [reflexivity|].
  rewrite append_cons. cbn [no_newline]. now rewrite IH, andb_assoc.
Qed.

Lemma getline_no_newline (s : string) : no_newline s = true -> getline s = s.
Proof.
  induction s as [|c s IH]; [reflexivity|]. cbn [no_newline getline].
  intros [Hc Hs]%andb_true_iff. apply negb_true_iff in Hc.
  now rewrite Hc, (IH Hs).
Qed.

Lemma split_loop_scan (a : string) :
  forall t current inp inp' args,
    scan a inp = Some inp' ->
    split_loop (a +:+ t) current inp args
    = split_loop t (current +:+ a) inp' args.
Proof.
  induction a as [|c a IH]; intros t current inp inp' args H.
  - cbn [scan] in H. injection H as <-.
    now rewrite append_empty_r.
  - rewrite append_cons. cbn [scan split_loop] in *.
    destruct (Ascii.eqb c "," && negb _); [discriminate H|].
    rewrite (IH _ _ _ _ _ H), append_assoc. reflexivity.
Qed.

Lemma scan_spaces (pad s : string) (inp : bool) :
  all_space pad = true -> scan (pad +:+ s) inp = scan s inp.
Proof.
  intros H. induction pad as [|c pad IH]; [reflexivity|].
  cbn [all_space] in H. apply andb_true_iff in H as [Hc H].
  destruct (space_not_separator c Hc) as (E1 & E2 & E3 & _).
  rewrite append_cons. cbn [scan]. rewrite E1, E2, E3.
  cbn [andb]. exact (IH H).
Qed.

Lemma operand_parts (a : string) :
  operand a = true ->
  String.eqb a "" = false /\ is_trimmed a = true /\ no_newline a = true
  /\ scan a false = Some false.
Proof.
  unfold operand. intros H.
  apply andb_true_iff in H as [H Hs]. apply andb_true_iff in H as [H Hn].
  apply andb_true_iff in H as [He Ht]. apply negb_true_iff in He.
  repeat split; try assumption.
  destruct (scan a false) as [[]|]; try discriminate Hs. reflexivity.
Qed.

Lemma append_nonempty (pad a : string) :
  String.eqb a "" = false -> String.eqb (pad +:+ a) "" = false.
Proof.
  intros H. destruct pad; [exact H | reflexivity].
Qed.

Lemma split_loop_join (args : list string) :
  forall pad acc,
    all_space pad = true -> args <> [] -> forallb operand args = true ->
    split_loop (pad +:+ join_operands args) "" false acc = (acc ++ args)%list.
Proof.
  induction args as [|a rest IH]; intros pad acc Hpad Hne Hall; [contradiction|].
  cbn [forallb] in Hall. apply andb_true_iff in Hall as [Ha Hrest].
  destruct (operand_parts a Ha) as (He & Ht & _ & Hs).
  assert (Hscan : scan (pad +:+ a) false = Some false)
    by now rewrite scan_spaces.
  assert (Htrim : trim_string (pad +:+ a) = a).
  { rewrite <- (append_empty_r a) at 1. now apply trim_string_padded. }
  cbn [join_operands]. destruct rest as [|b rest].
  - rewrite <- (append_empty_r (pad +:+ a)).
    rewrite (split_loop_scan _ _ _ _ _ _ Hscan).
    cbn [split_loop]. change ("" +:+ (pad +:+ a)) with (pad +:+ a).
    rewrite (append_nonempty pad a He), Htrim.
    unfold push_token. now rewrite He.
  - rewrite <- append_assoc.
    rewrite (split_loop_scan _ _ _ _ _ _ Hscan).
    change (", " +:+ join_operands (b :: rest))
      with (String "," (" " +:+ join_operands (b :: rest))).
    cbn [split_loop]. change (Ascii.eqb "," "(") with false.
    change (Ascii.eqb "," ")") with false. change (Ascii.eqb "," ",") with true.
    cbn [negb andb]. change ("" +:+ (pad +:+ a)) with (pad +:+ a).
    rewrite Htrim. unfold push_token at 1. rewrite He.
    rewrite (IH " " (acc ++ [a])%list eq_refl ltac:(discriminate) Hrest).
    now rewrite <- app_assoc.
Qed.

Lemma no_space_last (c : ascii) (s : string) :
  no_space (String c s) = true -> last_not_space (String c s) = true.
Proof.
  revert c. induction s as [|d s IH]; intros c H.
  - cbn in *. now rewrite andb_true_r in H.
  - cbn [no_space] in H. apply andb_true_iff in H as [_ H].
    cbn [last_not_space]. now apply IH.
Qed.

Lemma token_trimmed (op : string) : token op = true -> is_trimmed op = true.
Proof.
  unfold token. destruct op as [|c op]; [reflexivity|].
  cbn [String.eqb negb andb]. intros H. cbn [is_trimmed].
  rewrite (no_space_last c op H). cbn [no_space] in H.
  apply andb_true_iff in H as [-> _]. reflexivity.
Qed.

Lemma is_trimmed_sandwich (x m y : string) :
  String.eqb x "" = false -> is_trimmed x = true ->
  String.eqb y "" = false -> is_trimmed y = true ->
  is_trimmed (x +:+ m +:+ y) = true.
Proof.
  intros Hx Htx Hy Hty.
  destruct (nonempty_cons x Hx) as (c & x' & ->).
  destruct (nonempty_cons y Hy) as (d & y' & ->).
  cbn [is_trimmed] in *. apply andb_true_iff in Htx as [Hc _].
  apply andb_true_iff in Hty as [_ Hd].
  rewrite append_cons. cbn [is_trimmed]. rewrite Hc. cbn [andb].
  rewrite <- append_cons, <- append_assoc. now rewrite last_not_space_append.
Qed.

Lemma join_operands_shape (args : list string) :
  args <> [] -> forallb operand args = true ->
  String.eqb (join_operands args) "" = false
  /\ is_trimmed (join_operands args) = true
  /\ no_newline (join_operands args) = true.
Proof.
  induction args as [|a rest IH]; intros Hne Hall; [contradiction|].
  cbn [forallb] in Hall. apply andb_true_iff in Hall as [Ha Hrest].
  destruct (operand_parts a Ha) as (He & Ht & Hn & _).
  cbn [join_operands]. destruct rest as [|b rest]; [now repeat split|].
  destruct (IH ltac:(discriminate) Hrest) as (He' & Ht' & Hn').
  destruct (nonempty_cons a He) as (c & a' & ->).
  split; [reflexivity|]. split.
  - now apply is_trimmed_sandwich.
  - rewrite !no_newline_append, Hn, Hn'. reflexivity.
Qed.

Lemma instruction_line_trimmed (op : string) (args : list string) :
  token op = true -> forallb operand args = true ->
  is_trimmed (instruction_line op args) = true.
Proof.
  intros Hop Hall. unfold instruction_line. destruct args as [|a rest].
  - now apply token_trimmed.
  - destruct (join_operands_shape (a :: rest) ltac:(discriminate) Hall)
      as (He & Ht & _).
    apply is_trimmed_sandwich; try assumption.
    + unfold token in Hop. apply andb_true_iff in Hop as [Hop _].
      now apply negb_true_iff in Hop.
    + now apply token_trimmed.
Qed.

(** The parser on the text of an instruction. *)
Lemma parse_instruction_line (op : string) (args : list string) :
  token op = true -> forallb operand args = true ->
  parse_instruction (instruction_line op args)
  = (binary ← encode op args;
     hex ← (if String.eqb binary "" then Ok "" else to_hex binary);
     Ok {| op := op; binary := binary; hex := hex; is_execution := false |}).
Proof.
  intros Hop Hall. unfold parse_instruction, extract_token, instruction_line.
  pose proof Hop as Hns. unfold token in Hns.
  apply andb_true_iff in Hns as [_ Hns].
  destruct args as [|a rest].
  - rewrite <- (append_empty_r op) at 1.
    rewrite (skip_spaces_token op "" Hop).
    rewrite (read_until_space_token op "" Hns I). reflexivity.
  - destruct (join_operands_shape (a :: rest) ltac:(discriminate) Hall)
      as (He & Ht & Hn).
    rewrite (skip_spaces_token op _ Hop).
    change (" " +:+ join_operands (a :: rest))
      with (String " " (join_operands (a :: rest))).
    rewrite (read_until_space_token op
               (String " " (join_operands (a :: rest))) Hns eq_refl).
    rewrite getline_no_newline by (cbn [no_newline]; now rewrite Hn).
    change (String " " (join_operands (a :: rest)))
      with (" " +:+ join_operands (a :: rest)).
    rewrite <- (append_empty_r (join_operands (a :: rest))) at 1.
    rewrite (trim_string_padded " " _ "" eq_refl eq_refl Ht).
    unfold split_args.
    change (join_operands (a :: rest)) with ("" +:+ join_operands (a :: rest)).
    rewrite (split_loop_join (a :: rest) "" [] eq_refl ltac:(discriminate) Hall).
    reflexivity.
Qed.

(** X22. A line that holds a mnemonic and, after a space, operands separated
    by a comma and a space is read back as that mnemonic and exactly those
    operands, whatever white space surrounds the line: commas inside
    parentheses do not cut an operand. *)
Theorem parse_instruction_operands (op : string) (args : list string)
    (before after : string) :
  token op = true -> forallb operand args = true ->
  all_space before = true -> all_space after = true ->
  parse_instruction
    (trim_string (before +:+ instruction_line op args +:+ after))
  = (binary ← encode op args;
     hex ← (if String.eqb binary "" then Ok "" else to_hex binary);
     Ok {| op := op; binary := binary; hex := hex; is_execution := false |}).
Proof.
  intros Hop Hall Hb Ha.
  rewrite (trim_string_padded before _ after Hb Ha
             (instruction_line_trimmed op args Hop Hall)).
  now apply parse_instruction_line.
Qed.

Lemma parse_instruction_operands_witness :
  parse_instruction
    (trim_string ("    " +:+ instruction_line "psrf.lw" ["x5"; "3(v1, 2)"] +:+ " "))
  = (binary ← encode "psrf.lw" ["x5"; "3(v1, 2)"];
     hex ← (if String.eqb binary "" then Ok "" else to_hex binary);
     Ok {| op := "psrf.lw"; binary := binary; hex := hex;
           is_execution := false |}).
Proof. apply parse_instruction_operands; reflexivity. Defined.

End Parsing.

Section PlainText.
Import Asm.

Lemma plain_char_cases (c : ascii) :
  plain_char c = true ->
  Text.is_space c = false /\ Ascii.eqb c "," = false /\ Ascii.eqb c "(" = false
  /\ Ascii.eqb c ")" = false /\ Ascii.eqb c ":" = false
  /\ Ascii.eqb c (ascii_of_N 10) = false.
Proof.
  destruct c as [[] [] [] [] [] [] [] []]; intros H; try discriminate H;
    repeat split; reflexivity.
Qed.

Lemma digit_plain (c : ascii) : Text.is_digit c = true -> plain_char c = true.
Proof.
  destruct c as [[] [] [] [] [] [] [] []]; intros H; try discriminate H;
    reflexivity.
Qed.

Lemma plain_append (a b : string) : plain (a +:+ b) = plain a && plain b.
Proof.
  induction a as [|c a IH]; [reflexivity|].
  rewrite append_cons. cbn [plain]. now rewrite IH, andb_assoc.
Qed.

Lemma plain_no_space (s : string) : plain s = true -> no_space s = true.
Proof.
  induction s as [|c s IH]; [reflexivity|]. cbn [plain no_space].
  intros [Hc Hs]%andb_true_iff.
  destruct (plain_char_cases c Hc) as (-> & _). now rewrite (IH Hs).
Qed.

Lemma plain_no_newline (s : string) : plain s = true -> no_newline s = true.
Proof.
  induction s as [|c s IH]; [reflexivity|]. cbn [plain no_newline].
  intros [Hc Hs]%andb_true_iff.
  destruct (plain_char_cases c Hc) as (_ & _ & _ & _ & _ & ->).
  now rewrite (IH Hs).
Qed.

Lemma plain_scan (s : string) (inp : bool) :
  plain s = true -> scan s inp = Some inp.
Proof.
  induction s as [|c s IH]; [reflexivity|]. cbn [plain scan].
  intros [Hc Hs]%andb_true_iff.
  destruct (plain_char_cases c Hc) as (_ & -> & -> & -> & _).
  cbn [andb]. exact (IH Hs).
Qed.

Lemma plain_no_colon (s : string) : plain s = true -> has_char ":" s = false.
Proof.
  induction s as [|c s IH]; [reflexivity|]. cbn [plain has_char].
  intros [Hc Hs]%andb_true_iff.
  destruct (plain_char_cases c Hc) as (_ & _ & _ & _ & -> & _).
  exact (IH Hs).
Qed.

Lemma plain_token (s : string) :
  plain s = true -> String.eqb s "" = false -> token s = true.
Proof.
  intros Hp He. unfold token. now rewrite He, (plain_no_space s Hp).
Qed.

Lemma plain_operand (s : string) :
  plain s = true -> String.eqb s "" = false -> operand s = true.
Proof.
  intros Hp He. unfold operand.
  rewrite He, (token_trimmed s (plain_token s Hp He)),
    (plain_no_newline s Hp), (plain_scan s false Hp). reflexivity.
Qed.

Lemma has_char_append (x : ascii) (a b : string) :
  has_char x (a +:+ b) = has_char x a || has_char x b.
Proof.
  induction a as [|c a IH]; [reflexivity|].
  rewrite append_cons. cbn [has_char]. now rewrite IH, orb_assoc.
Qed.

Lemma contains_char (x : ascii) (s : string) :
  has_char x s = false -> Text.contains (String x "") s = false.
Proof.
  unfold Text.contains. intros H.
  assert (E : index 0 (String x "") s = None); [|now rewrite E].
  induction s as [|c s IH]; [reflexivity|].
  cbn [has_char] in H. apply orb_false_iff in H as [Hc Hs].
  cbn [index String.prefix]. destruct (ascii_dec x c) as [->|_].
  - now rewrite Ascii.eqb_refl in Hc.
  - now rewrite (IH Hs).
Qed.

Lemma pretty_N_go_plain (x : N) :
  forall s, plain s = true -> plain (pretty_N_go x s) = true.
Proof.
  induction (N.lt_wf_0 x) as [x _ IH]. intros s Hs.
  destruct (N.eq_dec x 0%N) as [->|Hx].
  - now rewrite pretty_N_go_0.
  - rewrite pretty_N_go_step by lia. apply IH; [apply N.div_lt; lia|].
    cbn [plain]. rewrite Hs, andb_true_r.
    apply digit_plain, pretty_N_char_digit, N.mod_lt. lia.
Qed.

(** The text of a number is plain and not empty. *)
Lemma to_string_plain (z : Z) :
  plain (Text.to_string z) = true /\ String.eqb (Text.to_string z) "" = false.
Proof.
  assert (P : forall p : positive,
             plain (pretty p) = true /\ String.eqb (pretty p) "" = false).
  { intros p. unfold pretty, pretty_positive, pretty, pretty_N.
    destruct (decide (N.pos p = 0%N)) as [H|_]; [discriminate H|]. split.
    - now apply pretty_N_go_plain.
    - destruct (pretty_N_go_head (N.pos p) "") as (c & r & -> & _);
        [lia | reflexivity]. }
  unfold Text.to_string. destruct z as [|p|p].
  - split; reflexivity.
  - exact (P p).
  - change (pretty (Z.neg p)) with ("-" +:+ pretty p).
    rewrite plain_append, (proj1 (P p)). split; reflexivity.
Qed.

End PlainText.

Section Toolchain.
Import Asm Samples.

Ltac norm_text :=
  rewrite ?append_assoc;
  repeat (rewrite append_cons || rewrite append_nil_l).

(** A line of the generator in the reading loop of [assemble]. *)
Lemma read_loop_line (op : string) (args : list string) (before : string)
    (rest : list string) (b : bool) :
  token op = true -> forallb operand args = true ->
  all_space before = true ->
  is_skipped (instruction_line op args) = false ->
  read_loop ((before +:+ instruction_line op args) :: rest) b
  = (instr ← (binary ← encode op args;
              hex ← (if String.eqb binary "" then Ok "" else to_hex binary);
              Ok {| op := op; binary := binary; hex := hex;
                    is_execution := false |});
     assembled ← read_loop rest b;
     Ok (with_section instr b :: assembled)).
Proof.
  intros Hop Hall Hb Hskip. cbn [read_loop].
  assert (E : trim_string (before +:+ instruction_line op args)
              = instruction_line op args).
  { rewrite <- (append_empty_r (instruction_line op args)) at 1.
    exact (trim_string_padded before _ "" Hb eq_refl
             (instruction_line_trimmed op args Hop Hall)). }
  rewrite E, Hskip. now rewrite parse_instruction_line.
Qed.

Lemma hwl_register (i : Z) :
  1 <= i <= 7 -> reg hwl_registers ("L" +:+ Text.to_string i) = i.
Proof.
  intros Hi. unfold hwl_registers. apply register_file_lookup.
  - apply NoDup_seqZ.
  - apply list_elem_of_In, elem_of_seqZ. lia.
Qed.

Lemma splitHWLImmediate_range (imm : Z) :
  0 <= fst (DFG.splitHWLImmediate imm) <= 2 ^ 20
  /\ 0 <= snd (DFG.splitHWLImmediate imm) < 2 ^ 12.
Proof.
  unfold DFG.splitHWLImmediate. cbv zeta.
  pose proof (land_ones_range (Z.shiftr imm 12) 20 ltac:(lia)) as Hu.
  pose proof (land_ones_range imm 12 ltac:(lia)) as Hl.
  change (Z.ones 20) with 0xFFFFF in Hu. change (Z.ones 12) with 0xFFF in Hl.
  destruct (negb _); cbn [fst snd]; unfold Int32.to_unsigned.
  - rewrite Z.mod_small by lia. lia.
  - lia.
Qed.

Lemma word_hex (b : string) (op : string) :
  is_word 32 b ->
  exists h,
    (binary ← Ok b;
     hex ← (if String.eqb binary "" then Ok "" else to_hex binary);
     Ok {| op := op; binary := binary; hex := hex; is_execution := false |})
    = Ok {| op := op; binary := b; hex := h; is_execution := false |}
    /\ to_hex b = Ok h.
Proof.
  intros Hw. destruct (to_hex_word b Hw) as (h & Hh & _). exists h.
  split; [|exact Hh]. cbn [mbind result_bind].
  destruct b as [|c b]; [destruct Hw as [Hl _]; discriminate Hl|].
  cbn [String.eqb]. now rewrite Hh.
Qed.

Lemma encode_hwlrf_lui (rd imm_text : string) :
  encode "hwlrf.lui" [rd; imm_text]
  = (imm ← Text.stoi imm_text; Ok (assemble_hwlrf_lui rd imm)).
Proof. reflexivity. Qed.

Lemma encode_hwlrf_addi (rd rs1 imm_text : string) :
  encode "hwlrf.addi" [rd; rs1; imm_text]
  = (imm ← Text.stoi imm_text; Ok (assemble_hwlrf_addi rd rs1 imm)).
Proof. reflexivity. Qed.

(** A line is passed to the parser when its mnemonic begins with none of
    [#], [.] and [_] and it holds no colon. *)
Lemma is_skipped_line (c : ascii) (s : string) :
  Ascii.eqb c "#" = false -> Ascii.eqb c "." = false ->
  Ascii.eqb c "_" = false -> has_char ":" (String c s) = false ->
  is_skipped (String c s) = false.
Proof.
  intros H1 H2 H3 H. cbn [is_skipped]. rewrite H1, H2, H3. cbn [orb].
  now apply contains_char.
Qed.

Lemma read_hwl_pair (L us ls : string) (upper lower : Z) (b : bool) :
  plain L = true -> String.eqb L "" = false ->
  plain us = true -> String.eqb us "" = false ->
  plain ls = true -> String.eqb ls "" = false ->
  Text.stoi us = Ok upper -> Text.stoi ls = Ok lower ->
  exists h1 h2,
    read_loop [ "    hwlrf.lui " +:+ L +:+ ", " +:+ us;
                "    hwlrf.addi " +:+ L +:+ ", " +:+ L +:+ ", " +:+ ls ] b
    = Ok [ {| op := "hwlrf.lui"; binary := assemble_hwlrf_lui L upper;
              hex := h1; is_execution := b |};
           {| op := "hwlrf.addi"; binary := assemble_hwlrf_addi L L lower;
              hex := h2; is_execution := b |} ]
    /\ to_hex (assemble_hwlrf_lui L upper) = Ok h1
    /\ to_hex (assemble_hwlrf_addi L L lower) = Ok h2.
Proof.
  intros PL EL Pu Eu Pl El Su Sl.
  pose proof (plain_operand L PL EL) as OL.
  pose proof (plain_operand us Pu Eu) as Ou.
  pose proof (plain_operand ls Pl El) as Ol.
  assert (H1 : forallb operand [L; us] = true)
    by (cbn [forallb]; now rewrite OL, Ou).
  assert (H2 : forallb operand [L; L; ls] = true)
    by (cbn [forallb]; now rewrite OL, Ol).
  assert (S1 : is_skipped (instruction_line "hwlrf.lui" [L; us]) = false).
  { unfold instruction_line, join_operands. norm_text.
    apply is_skipped_line; try reflexivity. cbn [has_char].
    rewrite !has_char_append. cbn [has_char].
    rewrite (plain_no_colon L PL), (plain_no_colon us Pu). reflexivity. }
  assert (S2 : is_skipped (instruction_line "hwlrf.addi" [L; L; ls]) = false).
  { unfold instruction_line, join_operands. norm_text.
    apply is_skipped_line; try reflexivity. cbn [has_char].
    repeat first [rewrite has_char_append | progress cbn [has_char]].
    rewrite (plain_no_colon L PL), (plain_no_colon ls Pl). reflexivity. }
  destruct (word_hex _ "hwlrf.lui" (assemble_hwlrf_lui_word L upper))
    as (h1 & W1 & X1).
  destruct (word_hex _ "hwlrf.addi" (assemble_hwlrf_addi_word L L lower))
    as (h2 & W2 & X2).
  exists h1, h2. split; [|split; assumption].
  replace ("    hwlrf.lui " +:+ L +:+ ", " +:+ us)
    with ("    " +:+ instruction_line "hwlrf.lui" [L; us])
    by (unfold instruction_line, join_operands; now norm_text).
  replace ("    hwlrf.addi " +:+ L +:+ ", " +:+ L +:+ ", " +:+ ls)
    with ("    " +:+ instruction_line "hwlrf.addi" [L; L; ls])
    by (unfold instruction_line, join_operands; now norm_text).
  rewrite (read_loop_line "hwlrf.lui" [L; us] "    " _ b eq_refl H1 eq_refl S1).
  rewrite encode_hwlrf_lui, Su. cbn [mbind result_bind] in W1 |- *.
  rewrite W1. cbn [mbind result_bind].
  rewrite (read_loop_line "hwlrf.addi" [L; L; ls] "    " _ b eq_refl H2 eq_refl
             S2).
  rewrite encode_hwlrf_addi, Sl. cbn [mbind result_bind] in W2 |- *.
  rewrite W2. reflexivity.
Qed.

(** X23. The two instruction lines [generateHWLInstructions] writes for a
    hardware loop whose register is one of [L1]..[L7] are read by the
    assembler as two words: the first holds the low 20 bits of the upper
    half of the loop word above the loop register and the opcode of
    [hwlrf.lui], the second holds the lower half in its 12-bit immediate
    field, the loop register as source and destination and the opcode of
    [hwlrf.addi]. *)
Theorem hwl_lines_assembled (d : DFG.DFGProcessor) (instr : DFG.Instruction)
    (h : DFG.HardwareLoop) (hwl_count pe_id : Z) (b : bool) :
  DFG.hwl instr = Some h -> 1 <= DFG.loop_id h <= 7 ->
  let imm := DFG.calculateHWLImmediate h (DFG.delay_of d pe_id) in
  let upper := fst (DFG.splitHWLImmediate imm) in
  let lower := snd (DFG.splitHWLImmediate imm) in
  exists comments l1 l2 w1 w2,
    DFG.generateHWLInstructions d instr hwl_count pe_id
    = comments +:+ l1 +:+ Text.nl +:+ l2 +:+ Text.nl
    /\ no_newline l1 = true /\ no_newline l2 = true
    /\ read_loop [l1; l2] b = Ok [w1; w2]
    /\ value (binary w1)
       = upper mod 2 ^ 20 * 2 ^ 12 + DFG.loop_id h * 2 ^ 7 + 0x3C
    /\ value (binary w2)
       = lower * 2 ^ 20 + DFG.loop_id h * 2 ^ 15 + 2 * 2 ^ 12
         + DFG.loop_id h * 2 ^ 7 + 0x14
    /\ to_hex (binary w1) = Ok (hex w1) /\ to_hex (binary w2) = Ok (hex w2).
Proof.
  intros Hh Hid imm upper lower.
  destruct (splitHWLImmediate_range imm) as [Hu Hl].
  fold upper in Hu. fold lower in Hl.
  assert (T : DFG.generateHWLInstructions d instr hwl_count pe_id
              = ("    # hwl_imm_" +:+ Text.to_string hwl_count +:+ " = "
                 +:+ "((" +:+ Text.to_string
                                (Int32.add (DFG.pc_start h)
                                   (DFG.delay_of d pe_id))
                 +:+ " << 23) + "
                 +:+ "(" +:+ Text.to_string
                               (Int32.sub (DFG.pc_stop h)
                                  (Int32.add (DFG.pc_start h)
                                     (DFG.delay_of d pe_id)))
                 +:+ " << 17) + "
                 +:+ "(" +:+ Text.to_string (DFG.hwl_index h) +:+ " << 12) + "
                 +:+ Text.to_string (DFG.iterations h) +:+ Text.nl
                 +:+ "    # Original pc_start="
                 +:+ Text.to_string (DFG.pc_start h)
                 +:+ ", pc_stop=" +:+ Text.to_string (DFG.pc_stop h)
                 +:+ ", delay=" +:+ Text.to_string (DFG.delay_of d pe_id)
                 +:+ Text.nl)
                +:+ ("    hwlrf.lui " +:+ ("L" +:+ Text.to_string (DFG.loop_id h))
                     +:+ ", " +:+ Text.to_string upper)
                +:+ Text.nl
                +:+ ("    hwlrf.addi "
                     +:+ ("L" +:+ Text.to_string (DFG.loop_id h)) +:+ ", "
                     +:+ ("L" +:+ Text.to_string (DFG.loop_id h)) +:+ ", "
                     +:+ Text.to_string lower)
                +:+ Text.nl).
  { unfold DFG.generateHWLInstructions. rewrite Hh. cbv zeta. fold imm.
    rewrite (surjective_pairing (DFG.splitHWLImmediate imm)).
    fold upper lower. now norm_text. }
  clearbody upper lower. clear imm.
  set (L := "L" +:+ Text.to_string (DFG.loop_id h)) in *.
  destruct (to_string_plain (DFG.loop_id h)) as [Pid Eid].
  destruct (to_string_plain upper) as [Pu Eu].
  destruct (to_string_plain lower) as [Pl El].
  assert (PL : plain L = true) by (unfold L; now rewrite plain_append, Pid).
  assert (EL : String.eqb L "" = false) by (unfold L; now rewrite append_cons).
  assert (Su : Text.stoi (Text.to_string upper) = Ok upper).
  { apply stoi_number.
    unfold Int32.in_range, Int32.min_signed, Int32.max_signed. lia. }
  assert (Sl : Text.stoi (Text.to_string lower) = Ok lower).
  { apply stoi_number.
    unfold Int32.in_range, Int32.min_signed, Int32.max_signed. lia. }
  assert (RL : reg hwl_registers L = DFG.loop_id h)
    by (unfold L; now apply hwl_register).
  destruct (read_hwl_pair L _ _ upper lower b PL EL Pu Eu Pl El Su Sl)
    as (h1 & h2 & R & X1 & X2).
  clearbody L.
  eexists _, _, _, _, _.
  split; [exact T|]. split; [|split; [|split; [exact R|]]].
  - rewrite !no_newline_append, (plain_no_newline L PL),
      (plain_no_newline _ Pu). reflexivity.
  - rewrite !no_newline_append, (plain_no_newline L PL),
      (plain_no_newline _ Pl). reflexivity.
  - cbn [binary hex]. rewrite value_hwlrf_lui, value_hwlrf_addi, RL.
    rewrite (Z.mod_small (DFG.loop_id h)), (Z.mod_small lower) by lia.
    repeat split; assumption.
Qed.

Lemma hwl_lines_assembled_witness :
  let imm := DFG.calculateHWLImmediate loop_10_50 (DFG.delay_of emit_config 1) in
  let upper := fst (DFG.splitHWLImmediate imm) in
  let lower := snd (DFG.splitHWLImmediate imm) in
  exists comments l1 l2 w1 w2,
    DFG.generateHWLInstructions emit_config sample_hwl 1 1
    = comments +:+ l1 +:+ Text.nl +:+ l2 +:+ Text.nl
    /\ no_newline l1 = true /\ no_newline l2 = true
    /\ read_loop [l1; l2] true = Ok [w1; w2]
    /\ value (binary w1)
       = upper mod 2 ^ 20 * 2 ^ 12 + DFG.loop_id loop_10_50 * 2 ^ 7 + 0x3C
    /\ value (binary w2)
       = lower * 2 ^ 20 + DFG.loop_id loop_10_50 * 2 ^ 15 + 2 * 2 ^ 12
         + DFG.loop_id loop_10_50 * 2 ^ 7 + 0x14
    /\ to_hex (binary w1) = Ok (hex w1) /\ to_hex (binary w2) = Ok (hex w2).
Proof.
  apply (hwl_lines_assembled emit_config sample_hwl loop_10_50 1 1 true).
  - reflexivity.
  - vm_compute. split; discriminate.
Defined.

Lemma skip_spaces_all_space (a s : string) :
  all_space a = true -> Text.skip_spaces (a +:+ s) = Text.skip_spaces s.
Proof.
  intros H. induction a as [|c a IH]; [reflexivity|].
  cbn [all_space] in H. apply andb_true_iff in H as [Hc H].
  rewrite append_cons. cbn [Text.skip_spaces]. now rewrite Hc, (IH H).
Qed.

Lemma read_until_space_suffix (m b : string) :
  all_space b = true ->
  fst (read_until_space (m +:+ b)) = fst (read_until_space m).
Proof.
  intros Hb. induction m as [|c m IH].
  - rewrite append_nil_l. destruct b as [|c b]; [reflexivity|].
    cbn [all_space] in Hb. apply andb_true_iff in Hb as [Hc _].
    cbn [read_until_space]. now rewrite Hc.
  - rewrite append_cons. cbn [read_until_space].
    destruct (Text.is_space c); [reflexivity|].
    destruct (read_until_space (m +:+ b)) as [t1 r1].
    destruct (read_until_space m) as [t2 r2]. cbn [fst] in *. now rewrite IH.
Qed.

(** Trimming a line does not change its mnemonic. *)
Lemma mnemonic_trim (s : string) : mnemonic (trim_string s) = mnemonic s.
Proof.
  destruct (trim_decomposition s) as (a & m & b & -> & Ha & Hb & Hm).
  rewrite (trim_string_padded a m b Ha Hb Hm).
  unfold mnemonic, extract_token. rewrite (skip_spaces_all_space a _ Ha).
  destruct m as [|c m].
  - rewrite append_nil_l.
    replace (Text.skip_spaces b) with "".
    + reflexivity.
    + clear -Hb. induction b as [|c b IH]; [reflexivity|].
      cbn [all_space] in Hb. apply andb_true_iff in Hb as [Hc Hb].
      cbn [Text.skip_spaces]. rewrite Hc. now apply IH.
  - cbn [is_trimmed] in Hm. apply andb_true_iff in Hm as [Hc _].
    apply negb_true_iff in Hc. rewrite append_cons.
    cbn [Text.skip_spaces]. rewrite Hc. rewrite <- append_cons.
    symmetry. now apply read_until_space_suffix.
Qed.

Lemma mnemonic_line (op rest : string) :
  token op = true -> mnemonic ("    " +:+ op +:+ " " +:+ rest) = op.
Proof.
  intros Hop. unfold mnemonic, extract_token.
  rewrite (skip_spaces_all_space "    " _ eq_refl).
  rewrite (skip_spaces_token op _ Hop).
  pose proof Hop as Hns. unfold token in Hns.
  apply andb_true_iff in Hns as [_ Hns].
  change (" " +:+ rest) with (String " " rest).
  now rewrite (read_until_space_token op (String " " rest) Hns eq_refl).
Qed.

(** X24. For the loads [lw], [lb], [lh], [lbu] and [lhu] of a format other
    than [psrf-mem-type], the generator writes one instruction line, and the
    assembler has no encoding for it: the line gives an empty word, although
    the opcode table lists the mnemonic. *)
Theorem load_line_not_encoded (d : DFG.DFGProcessor) (instr : DFG.Instruction)
    (hwl_count pe_id : Z) :
  DFG.format instr <> "hwl-type" -> DFG.format instr <> "psrf-mem-type" ->
  In (DFG.operation instr)
     ["LW"; "lw"; "LB"; "lb"; "LH"; "lh"; "LBU"; "lbu"; "LHU"; "lhu"] ->
  exists line,
    DFG.generateInstructionCode d instr hwl_count pe_id
    = (line +:+ Text.nl, hwl_count)
    /\ parse_instruction (trim_string line)
       = Ok {| op := Text.tolower (DFG.operation instr); binary := "";
               hex := ""; is_execution := false |}
    /\ code instructions (Text.tolower (DFG.operation instr)) = "0000011".
Proof.
  intros Hh Hp Hop.
  apply String.eqb_neq in Hh. apply String.eqb_neq in Hp.
  assert (G : forall mn,
             token mn = true -> recognized mn = false ->
             parse_instruction
               (trim_string ("    " +:+ mn +:+ " " +:+ DFG.ra1 instr +:+ ", "
                             +:+ Text.to_string (DFG.offset instr) +:+ "("
                             +:+ DFG.base_address instr +:+ ")"))
             = Ok {| op := mn; binary := ""; hex := ""; is_execution := false |}).
  { intros mn Hmn Hr.
    pose proof (mnemonic_line mn
                  (DFG.ra1 instr +:+ ", "
                   +:+ Text.to_string (DFG.offset instr) +:+ "("
                   +:+ DFG.base_address instr +:+ ")") Hmn) as M.
    rewrite <- mnemonic_trim in M.
    rewrite parse_instruction_unrecognized; rewrite M; [reflexivity | exact Hr]. }
  unfold DFG.generateInstructionCode. rewrite Hh, Hp.
  cbn [In] in Hop.
  repeat (destruct Hop as [<-|Hop];
    [ eexists; split;
      [ unfold DFG.memory_line; cbn [Text.str_in existsb String.eqb Ascii.eqb
                                       Bool.eqb orb andb];
        rewrite <- !append_assoc; reflexivity
      | split; [rewrite !append_assoc; apply G; reflexivity | reflexivity] ]
    | ]).
  destruct Hop.
Qed.

Lemma load_line_not_encoded_witness :
  exists line,
    DFG.generateInstructionCode emit_config sample_load 0 0
    = (line +:+ Text.nl, 0)
    /\ parse_instruction (trim_string line)
       = Ok {| op := Text.tolower (DFG.operation sample_load); binary := "";
               hex := ""; is_execution := false |}
    /\ code instructions (Text.tolower (DFG.operation sample_load))
       = "0000011".
Proof.
  apply (load_line_not_encoded emit_config sample_load 0 0).
  - discriminate.
  - discriminate.
  - simpl. auto.
Defined.

Lemma scan_append (a b : string) :
  forall inp inp', scan a inp = Some inp' -> scan (a +:+ b) inp = scan b inp'.
Proof.
  induction a as [|c a IH]; intros inp inp' H.
  - cbn [scan] in H. now injection H as <-.
  - rewrite append_cons. cbn [scan] in *.
    destruct (Ascii.eqb c "," && negb _); [discriminate H|].
    exact (IH _ _ H).
Qed.

Lemma append_nonempty_l (a b : string) :
  String.eqb a "" = false -> String.eqb (a +:+ b) "" = false.
Proof. destruct a; [discriminate | reflexivity]. Qed.

Lemma encode_jal (rd offset_text : string) :
  encode "jal" [rd; offset_text]
  = (offset ← Text.stoi offset_text; Ok (assemble_j_type rd offset)).
Proof. reflexivity. Qed.

(** The operand of the jump line: the number, two spaces and the comment. *)
Lemma commented_number (z : Z) (note : string) :
  Int32.in_range z -> plain note = true -> String.eqb note "" = false ->
  let text := Text.to_string z +:+ "  # Call " +:+ note in
  operand text = true /\ has_char ":" text = false
  /\ Text.stoi text = Ok z.
Proof.
  intros Hz Pn En text. subst text.
  destruct (to_string_plain z) as [Pz Ez].
  split; [|split].
  - unfold operand.
    rewrite (append_nonempty_l _ _ Ez).
    rewrite (is_trimmed_sandwich _ "  # Call " _ Ez
               (token_trimmed _ (plain_token _ Pz Ez)) En
               (token_trimmed _ (plain_token _ Pn En))).
    rewrite !no_newline_append, (plain_no_newline _ Pz), (plain_no_newline _ Pn).
    rewrite (scan_append _ _ false false (plain_scan _ false Pz)).
    rewrite (scan_append "  # Call " note false false eq_refl).
    rewrite (plain_scan _ false Pn). reflexivity.
  - rewrite !has_char_append, (plain_no_colon _ Pz), (plain_no_colon _ Pn).
    reflexivity.
  - apply stoi_text; [exact Hz | reflexivity].
Qed.

(** X25. The jump line the generator writes carries a comment after the
    number; the assembler takes the comment into the second operand, reads
    the number in front of it and encodes the jump to it. *)
Theorem jal_line_assembled (d : DFG.DFGProcessor) (instr : DFG.Instruction)
    (hwl_count pe_id : Z) (b : bool) :
  DFG.format instr <> "hwl-type" -> DFG.format instr <> "i-type" ->
  DFG.format instr <> "r-type" ->
  In (DFG.operation instr) ["JAL"; "jal"] ->
  plain (DFG.rd instr) = true -> DFG.rd instr <> "" ->
  plain (DFG.target instr) = true ->
  Int32.in_range (DFG.imm instr) -> Int32.in_range (DFG.address instr) ->
  let number :=
    if String.eqb (DFG.target instr) "" then DFG.imm instr
    else DFG.address instr in
  exists line word,
    DFG.generateInstructionCode d instr hwl_count pe_id
    = (line +:+ Text.nl, hwl_count)
    /\ read_loop [line] b = Ok [word]
    /\ op word = "jal"
    /\ binary word = assemble_j_type (DFG.rd instr) number
    /\ to_hex (binary word) = Ok (hex word)
    /\ is_execution word = b.
Proof.
  intros Hh Hi Hr Hop Prd Erd Pt Himm Haddr number.
  apply String.eqb_neq in Hh. apply String.eqb_neq in Hi.
  apply String.eqb_neq in Hr. apply String.eqb_neq in Erd.
  set (note := if String.eqb (DFG.target instr) "" then "somewhere"
               else DFG.target instr).
  assert (Pn : plain note = true)
    by (unfold note; destruct (String.eqb (DFG.target instr) ""); auto).
  assert (En : String.eqb note "" = false).
  { unfold note. destruct (String.eqb (DFG.target instr) "") eqn:E;
      [reflexivity | exact E]. }
  assert (Hn : Int32.in_range number)
    by (unfold number; destruct (String.eqb (DFG.target instr) ""); auto).
  destruct (commented_number number note Hn Pn En) as (Oa & Ca & Sa).
  set (text := Text.to_string number +:+ "  # Call " +:+ note) in *.
  assert (T : DFG.generateInstructionCode d instr hwl_count pe_id
              = (("    " +:+ instruction_line "jal" [DFG.rd instr; text])
                 +:+ Text.nl, hwl_count)).
  { unfold DFG.generateInstructionCode. rewrite Hh, Hi, Hr.
    unfold text, note, number, instruction_line, join_operands.
    cbn [In] in Hop.
    destruct Hop as [<-|[<-|[]]];
      cbn [Text.str_in existsb String.eqb Ascii.eqb Bool.eqb orb andb negb];
      destruct (String.eqb (DFG.target instr) ""); cbn [negb];
      now norm_text. }
  clearbody text.
  assert (Hall : forallb operand [DFG.rd instr; text] = true).
  { cbn [forallb]. now rewrite (plain_operand _ Prd Erd), Oa. }
  assert (Hs : is_skipped (instruction_line "jal" [DFG.rd instr; text]) = false).
  { unfold instruction_line, join_operands. norm_text.
    apply is_skipped_line; try reflexivity.
    repeat first [rewrite has_char_append | progress cbn [has_char]].
    rewrite (plain_no_colon _ Prd), Ca. reflexivity. }
  destruct (word_hex _ "jal" (assemble_j_type_word (DFG.rd instr) number))
    as (h & W & X).
  eexists _, _. split; [exact T|].
  rewrite (read_loop_line "jal" _ "    " [] b eq_refl Hall eq_refl Hs).
  rewrite encode_jal, Sa. cbn [mbind result_bind] in W |- *.
  rewrite W. cbn [mbind result_bind read_loop]. split; [reflexivity|].
  cbn [with_section op binary hex is_execution]. repeat split. exact X.
Qed.

Lemma jal_line_assembled_witness :
  exists line word,
    DFG.generateInstructionCode emit_config sample_jal 0 0
    = (line +:+ Text.nl, 0)
    /\ read_loop [line] true = Ok [word]
    /\ op word = "jal"
    /\ binary word = assemble_j_type "x1" 64
    /\ to_hex (binary word) = Ok (hex word)
    /\ is_execution word = true.
Proof.
  apply (jal_line_assembled emit_config sample_jal 0 0 true).
  - discriminate.
  - discriminate.
  - discriminate.
  - simpl. auto.
  - reflexivity.
  - discriminate.
  - reflexivity.
  - unfold Int32.in_range. vm_compute. split; discriminate.
  - unfold Int32.in_range. vm_compute. split; discriminate.
Defined.

Lemma index_char (x : ascii) (a rest : string) :
  has_char x a = false ->
  index 0 (String x "") (a +:+ String x rest) = Some (String.length a).
Proof.
  intros H. induction a as [|c a IH].
  - rewrite append_nil_l. cbn [index String.prefix String.length].
    destruct (ascii_dec x x) as [_|N]; [|contradiction].
    now destruct rest.
  - cbn [has_char] in H. apply orb_false_iff in H as [Hc H].
    rewrite append_cons. cbn [index String.prefix String.length].
    destruct (ascii_dec x c) as [->|_].
    + now rewrite Ascii.eqb_refl in Hc.
    + now rewrite (IH H).
Qed.

Lemma index_from (p a s : string) :
  index (String.length a) p (a +:+ s)
  = (fun k => (String.length a + k)%nat) <$> index 0 p s.
Proof.
  induction a as [|c a IH].
  - rewrite append_nil_l. cbn [String.length]. now destruct (index 0 p s).
  - rewrite append_cons. cbn [String.length index]. rewrite IH.
    now destruct (index 0 p s).
Qed.

Lemma plain_no_parentheses (s : string) :
  plain s = true -> has_char "(" s = false /\ has_char ")" s = false.
Proof.
  induction s as [|c s IH]; [now split|]. cbn [plain has_char].
  intros [Hc Hs]%andb_true_iff.
  destruct (plain_char_cases c Hc) as (_ & _ & -> & -> & _).
  exact (IH Hs).
Qed.

(** The operand [offset(base)] the generator writes is read back. *)
Lemma parse_offset_base_text (v : Z) (base : string) :
  Int32.in_range v -> plain base = true ->
  parse_offset_base (Text.to_string v +:+ "(" +:+ base +:+ ")")
  = Ok (Some (v, base)).
Proof.
  intros Hv Pb. destruct (to_string_plain v) as [Pv Ev].
  destruct (plain_no_parentheses _ Pv) as [Ov _].
  destruct (plain_no_parentheses _ Pb) as [_ Cb].
  set (vs := Text.to_string v) in *.
  unfold parse_offset_base.
  change ("(" +:+ base +:+ ")") with (String "(" (base +:+ ")")).
  rewrite (index_char "(" vs _ Ov).
  rewrite index_from.
  change (String "(" (base +:+ ")")) with (String "(" base +:+ String ")" "").
  rewrite (index_char ")" (String "(" base) "" Cb). cbn [fmap option_fmap option_map].
  change (String "(" base +:+ String ")" "") with ("(" +:+ base +:+ ")").
  assert (E1 : substring 0 (String.length vs) (vs +:+ "(" +:+ base +:+ ")") = vs)
    by exact (substring_middle "" vs ("(" +:+ base +:+ ")")).
  assert (E2 : substring (String.length vs + 1)
                 (String.length vs + String.length (String "(" base)
                  - String.length vs - 1)
                 (vs +:+ "(" +:+ base +:+ ")") = base).
  { replace (String.length vs + 1)%nat with (String.length (vs +:+ "("))
      by (rewrite length_append; reflexivity).
    replace (String.length vs + String.length (String "(" base)
             - String.length vs - 1)%nat with (String.length base)
      by (cbn [String.length]; lia).
    rewrite <- (append_assoc vs "(" (base +:+ ")")).
    apply substring_middle. }
  rewrite E1, E2.
  assert (T1 : trim_string vs = vs).
  { rewrite <- (append_empty_r vs) at 1.
    exact (trim_string_padded "" vs "" eq_refl eq_refl
             (token_trimmed _ (plain_token _ Pv Ev))). }
  assert (T2 : trim_string base = base).
  { rewrite <- (append_empty_r base) at 1.
    apply (trim_string_padded "" base "" eq_refl eq_refl).
    destruct base as [|c r]; [reflexivity|].
    exact (token_trimmed _ (plain_token _ Pb eq_refl)). }
  rewrite T1, T2, Ev. unfold vs. rewrite (stoi_number v Hv). reflexivity.
Qed.

(** A line of the generator that the reading loop hands to the parser. *)
Lemma read_single (op : string) (args : list string) (b : bool)
    (bin : string) :
  token op = true -> forallb operand args = true ->
  is_skipped (instruction_line op args) = false ->
  encode op args = Ok bin -> bin = "" \/ is_word 32 bin ->
  exists h,
    read_loop ["    " +:+ instruction_line op args] b
    = Ok [{| op := op; binary := bin; hex := h; is_execution := b |}]
    /\ (if String.eqb bin "" then h = "" else to_hex bin = Ok h).
Proof.
  intros Hop Hall Hs He Hw.
  rewrite (read_loop_line op args "    " [] b Hop Hall eq_refl Hs), He.
  cbn [mbind result_bind read_loop]. destruct Hw as [->|Hw].
  - exists "". split; reflexivity.
  - destruct (to_hex_word bin Hw) as (h & Hh & _). exists h.
    destruct bin as [|c bin]; [destruct Hw as [Hl _]; discriminate Hl|].
    cbn [String.eqb]. rewrite Hh. split; reflexivity.
Qed.

Lemma psrf_mnemonic (op : string) :
  In op ["psrf.lw"; "psrf.sw"; "psrf.lb"; "psrf.sb"; "psrf.zd.lw"] ->
  token op = true
  /\ (forall rest, is_skipped (op +:+ rest)
                   = Text.contains ":" (op +:+ rest))
  /\ has_char ":" op = false
  /\ is_word 7 (code instructions op) /\ is_word 3 (code funct3 op)
  /\ (forall rd ob,
        encode op [rd; ob]
        = (parsed ← parse_offset_base ob;
           match parsed with
           | Some (offset, base_reg) =>
               Ok (assemble_psrf_lw_sw op rd base_reg offset)
           | None => Ok ""
           end))
  /\ (forall x, encode op [x] = Ok "")
  /\ Text.str_in op ["LW"; "lw"; "SW"; "sw"; "LB"; "lb"; "LH"; "lh";
                     "LBU"; "lbu"; "LHU"; "lhu"; "SB"; "sb"; "SH"; "sh";
                     "psrf.lw"; "psrf.lb"; "psrf.sw"; "psrf.sb"; "psrf.zd.lw"]
     = true
  /\ Text.str_in op ["psrf.lw"; "psrf.sw"; "psrf.lb"; "psrf.sb"; "psrf.zd.lw"]
     = true.
Proof.
  cbn [In]. intros H.
  repeat (destruct H as [<-|H];
          [repeat split; intros; reflexivity|]).
  destruct H.
Qed.

(** X26. For a PSRF load or store of format [psrf-mem-type] the generator
    writes the scratch variable as the offset in front of the base register.
    With a variable, the assembler reads the line back as the register, the
    offset and the base and encodes them; without one the line has a single
    operand and gives an empty word. *)
Theorem psrf_line_assembled (d : DFG.DFGProcessor) (instr : DFG.Instruction)
    (hwl_count pe_id : Z) (b : bool) :
  DFG.format instr = "psrf-mem-type" ->
  In (DFG.operation instr)
     ["psrf.lw"; "psrf.sw"; "psrf.lb"; "psrf.sb"; "psrf.zd.lw"] ->
  plain (DFG.ra1 instr) = true -> DFG.ra1 instr <> "" ->
  plain (DFG.base_address instr) = true ->
  (forall v, DFG.var instr = Some v -> Int32.in_range v) ->
  exists line word,
    DFG.generateInstructionCode d instr hwl_count pe_id
    = (line +:+ Text.nl, hwl_count)
    /\ read_loop [line] b = Ok [word]
    /\ op word = DFG.operation instr
    /\ binary word
       = match DFG.var instr with
         | Some v =>
             assemble_psrf_lw_sw (DFG.operation instr) (DFG.ra1 instr)
               (DFG.base_address instr) v
         | None => ""
         end
    /\ is_execution word = b.
Proof.
  intros Hf Hop Pr Er Pb Hv. apply String.eqb_neq in Er.
  destruct (psrf_mnemonic _ Hop)
    as (Tok & Skip & Col & W7 & W3 & Enc2 & Enc1 & In1 & In2).
  set (mn := DFG.operation instr) in *.
  set (args := match DFG.var instr with
               | Some v => [DFG.ra1 instr;
                            Text.to_string v +:+ "(" +:+ DFG.base_address instr
                            +:+ ")"]
               | None => [DFG.ra1 instr +:+ "(" +:+ DFG.base_address instr
                          +:+ ")"]
               end).
  assert (T : DFG.generateInstructionCode d instr hwl_count pe_id
              = (("    " +:+ instruction_line mn args) +:+ Text.nl, hwl_count)).
  { unfold DFG.generateInstructionCode. fold mn. rewrite Hf, In1, In2.
    cbn [String.eqb Ascii.eqb Bool.eqb andb]. unfold args, instruction_line.
    destruct (DFG.var instr); unfold join_operands; now rewrite !append_assoc. }
  destruct (plain_no_parentheses _ Pr) as [Or Cr].
  destruct (plain_no_parentheses _ Pb) as [Ob Cb].
  assert (Closed : forall x : string,
             plain x = true -> String.eqb x "" = false ->
             let text := x +:+ "(" +:+ DFG.base_address instr +:+ ")" in
             operand text = true /\ has_char ":" text = false).
  { intros x Px Ex text. subst text. split.
    - unfold operand. rewrite (append_nonempty_l _ _ Ex).
      pose proof (is_trimmed_sandwich x ("(" +:+ DFG.base_address instr) ")" Ex
                    (token_trimmed _ (plain_token _ Px Ex)) eq_refl eq_refl)
        as Ht.
      rewrite append_assoc in Ht. rewrite Ht.
      rewrite <- !append_assoc.
      rewrite !no_newline_append, (plain_no_newline _ Px),
        (plain_no_newline _ Pb).
      rewrite !append_assoc.
      rewrite (scan_append _ _ false false (plain_scan _ false Px)).
      change ("(" +:+ DFG.base_address instr +:+ ")")
        with (String "(" (DFG.base_address instr +:+ ")")).
      cbn [scan]. change (Ascii.eqb "(" "(") with true.
      change (Ascii.eqb "(" ",") with false. cbn [andb].
      rewrite (scan_append _ _ true true (plain_scan _ true Pb)). reflexivity.
    - repeat first [rewrite has_char_append | progress cbn [has_char]].
      rewrite (plain_no_colon _ Px), (plain_no_colon _ Pb). reflexivity. }
  assert (Facts : forallb operand args = true
                  /\ has_char ":" (join_operands args) = false
                  /\ args <> []
                  /\ encode mn args
                     = Ok match DFG.var instr with
                          | Some v =>
                              assemble_psrf_lw_sw mn (DFG.ra1 instr)
                                (DFG.base_address instr) v
                          | None => ""
                          end).
  { unfold args. destruct (DFG.var instr) as [v|] eqn:Ev.
    - destruct (to_string_plain v) as [Pv Ev'].
      destruct (Closed _ Pv Ev') as [O C]. cbn [forallb join_operands].
      rewrite Enc2, (parse_offset_base_text v _ (Hv v eq_refl) Pb).
      set (text := Text.to_string v +:+ "(" +:+ DFG.base_address instr +:+ ")")
        in *.
      rewrite (plain_operand _ Pr Er), O, has_char_append.
      change (", " +:+ text) with (String "," (String " " text)).
      cbn [has_char]. rewrite (plain_no_colon _ Pr), C.
      repeat split. discriminate.
    - destruct (Closed _ Pr Er) as [O C]. cbn [forallb join_operands].
      rewrite O, C. repeat split; [discriminate|]. apply Enc1. }
  destruct Facts as (Hall & Hcol & Hne & Henc).
  assert (Hs : is_skipped (instruction_line mn args) = false).
  { unfold instruction_line. destruct args as [|a rest]; [contradiction|].
    rewrite Skip. apply (contains_char ":").
    repeat first [rewrite has_char_append | progress cbn [has_char]].
    now rewrite Col, Hcol. }
  destruct (read_single mn args b _ Tok Hall Hs Henc) as (h & R & _).
  { destruct (DFG.var instr); [right | left; reflexivity].
    now apply assemble_psrf_lw_sw_word. }
  eexists _, _. split; [exact T|]. split; [exact R|].
  cbn [op binary is_execution]. repeat split.
Qed.

Lemma psrf_line_assembled_witness :
  exists line word,
    DFG.generateInstructionCode emit_config sample_psrf 0 0
    = (line +:+ Text.nl, 0)
    /\ read_loop [line] true = Ok [word]
    /\ op word = "psrf.lw"
    /\ binary word = assemble_psrf_lw_sw "psrf.lw" "x5" "x1" 1
    /\ is_execution word = true.
Proof.
  apply (psrf_line_assembled emit_config sample_psrf 0 0 true).
  - reflexivity.
  - simpl. auto.
  - reflexivity.
  - discriminate.
  - reflexivity.
  - intros v [= <-]. unfold Int32.in_range. vm_compute. split; discriminate.
Defined.

Lemma lui_addi_fields (v : Z) :
  Int32.in_range v -> ~ (-2048 <= v <= 2047) ->
  exists upper low,
    DFG.calculateLuiAddiValues v = (upper, low)
    /\ 1 <= upper <= 0xFFFFF /\ 0 <= low < 4096
    /\ DFG.signed12 low = (if low <? 2048 then low else low - 4096)
    /\ (upper * 4096 + DFG.signed12 low) mod 2 ^ 32 = v mod 2 ^ 32.
Proof.
  unfold Int32.in_range, Int32.min_signed, Int32.max_signed. intros Hv Hout.
  unfold DFG.calculateLuiAddiValues.
  assert (E : (-2048 <=? v) && (v <=? 2047) = false).
  { destruct (Z.leb_spec (-2048) v), (Z.leb_spec v 2047); try reflexivity. lia. }
  rewrite E. cbv zeta. eexists _, _. split; [reflexivity|].
  rewrite !land_4095, land_2048, Z.mod_mod by lia.
  rewrite signed12_spec by (Z.to_euclidean_division_equations; lia).
  rewrite land_ones20, Z.shiftr_div_pow2 by lia. change (2 ^ 12) with 4096.
  destruct (Z.ltb_spec (v mod 4096) 2048); cbn [negb Z.eqb];
    repeat split; try (Z.to_euclidean_division_equations; lia).
Qed.

Lemma encode_lui (rd imm_text : string) :
  encode "lui" [rd; imm_text]
  = (imm ← Text.stoi imm_text; Ok (assemble_u_type "lui" rd imm)).
Proof. reflexivity. Qed.

Lemma encode_addi (rd rs1 imm_text : string) :
  encode "addi" [rd; rs1; imm_text]
  = (imm ← Text.stoi imm_text; Ok (assemble_i_type "addi" rd rs1 imm)).
Proof. reflexivity. Qed.

(** Two lines of the generator in the reading loop. *)
Lemma read_two (op1 op2 : string) (args1 args2 : list string) (b : bool)
    (bin1 bin2 : string) :
  token op1 = true -> forallb operand args1 = true ->
  is_skipped (instruction_line op1 args1) = false ->
  encode op1 args1 = Ok bin1 -> is_word 32 bin1 ->
  token op2 = true -> forallb operand args2 = true ->
  is_skipped (instruction_line op2 args2) = false ->
  encode op2 args2 = Ok bin2 -> is_word 32 bin2 ->
  exists h1 h2,
    read_loop ["    " +:+ instruction_line op1 args1;
               "    " +:+ instruction_line op2 args2] b
    = Ok [{| op := op1; binary := bin1; hex := h1; is_execution := b |};
          {| op := op2; binary := bin2; hex := h2; is_execution := b |}]
    /\ to_hex bin1 = Ok h1 /\ to_hex bin2 = Ok h2.
Proof.
  intros T1 A1 S1 E1 W1 T2 A2 S2 E2 W2.
  destruct (word_hex bin1 op1 W1) as (h1 & R1 & X1).
  destruct (word_hex bin2 op2 W2) as (h2 & R2 & X2).
  exists h1, h2. split; [|split; assumption].
  rewrite (read_loop_line op1 args1 "    " _ b T1 A1 eq_refl S1), E1.
  cbn [mbind result_bind] in R1 |- *. rewrite R1. cbn [mbind result_bind].
  rewrite (read_loop_line op2 args2 "    " _ b T2 A2 eq_refl S2), E2.
  cbn [mbind result_bind] in R2 |- *. rewrite R2. reflexivity.
Qed.

(** X28. For a base register whose cluster address does not fit twelve
    signed bits, [generateBaseAddressLoading] writes a [lui] line and an
    [addi] line, and the assembler turns them into two words whose immediate
    fields rebuild the address: the upper field times 4096 plus the lower
    field read as a signed 12-bit number is the address modulo 2^32. *)
Theorem base_address_lines_assembled (d : DFG.DFGProcessor)
    (pe_id data_dup cluster_num base_value : Z) (reg_name : string) (b : bool) :
  let address :=
    DFG.calculateClusterBaseAddress d reg_name cluster_num data_dup pe_id in
  base_value <> 0 ->
  plain reg_name = true -> reg_name <> "" ->
  Int32.in_range address -> ~ (-2048 <= address <= 2047) ->
  exists comments l1 l2 w1 w2 upper low,
    DFG.base_register_loading d pe_id data_dup cluster_num
      (reg_name, base_value)
    = comments +:+ l1 +:+ Text.nl +:+ l2 +:+ Text.nl +:+ Text.nl
    /\ no_newline l1 = true /\ no_newline l2 = true
    /\ read_loop [l1; l2] b = Ok [w1; w2]
    /\ 0 <= upper < 2 ^ 20 /\ 0 <= low < 2 ^ 12
    /\ value (binary w1)
       = upper * 2 ^ 12 + reg registers reg_name mod 2 ^ 5 * 2 ^ 7 + 0x37
    /\ value (binary w2)
       = low * 2 ^ 20 + reg registers reg_name mod 2 ^ 5 * 2 ^ 15
         + reg registers reg_name mod 2 ^ 5 * 2 ^ 7 + 0x13
    /\ (upper * 4096 + (if low <? 2048 then low else low - 4096)) mod 2 ^ 32
       = address mod 2 ^ 32.
Proof.
  intros address Hb Pr Er Hin Hout. apply String.eqb_neq in Er.
  destruct (lui_addi_fields address Hin Hout)
    as (upper & low & Hc & Hu & Hl & Hs & Hv).
  set (low' := DFG.signed12 low) in *.
  assert (Hl' : -2048 <= low' <= 2047)
    by (rewrite Hs; destruct (Z.ltb_spec low 2048); lia).
  assert (T : DFG.base_register_loading d pe_id data_dup cluster_num
                (reg_name, base_value)
              = ("    # Loading " +:+ reg_name +:+ " with address 0x"
                 +:+ Text.hex true (Int32.to_unsigned address)
                 +:+ " (" +:+ Text.to_string address +:+ ")" +:+ Text.nl
                 +:+ "    # Using lui " +:+ Text.to_string upper
                 +:+ " and addi " +:+ Text.to_string low'
                 +:+ " to create "
                 +:+ Text.to_string (DFG.lui_addi_value upper low')
                 +:+ Text.nl)
                +:+ ("    " +:+ instruction_line "lui"
                                  [reg_name; Text.to_string upper])
                +:+ Text.nl
                +:+ ("    " +:+ instruction_line "addi"
                                  [reg_name; reg_name; Text.to_string low'])
                +:+ Text.nl +:+ Text.nl).
  { unfold DFG.base_register_loading.
    destruct (Z.eqb_spec base_value 0) as [|_]; [contradiction|].
    fold address. rewrite Hc. fold low'.
    destruct (Z.eqb_spec upper 0) as [|_]; [lia|].
    rewrite orb_true_r. unfold instruction_line, join_operands.
    now norm_text. }
  destruct (to_string_plain upper) as [Pu Eu].
  destruct (to_string_plain low') as [Pl El].
  pose proof (plain_operand _ Pr Er) as Or.
  assert (A1 : forallb operand [reg_name; Text.to_string upper] = true)
    by (cbn [forallb]; now rewrite Or, (plain_operand _ Pu Eu)).
  assert (A2 : forallb operand [reg_name; reg_name; Text.to_string low'] = true)
    by (cbn [forallb]; now rewrite Or, (plain_operand _ Pl El)).
  assert (S1 : is_skipped (instruction_line "lui"
                             [reg_name; Text.to_string upper]) = false).
  { unfold instruction_line, join_operands. norm_text.
    apply is_skipped_line; try reflexivity.
    repeat first [rewrite has_char_append | progress cbn [has_char]].
    rewrite (plain_no_colon _ Pr), (plain_no_colon _ Pu). reflexivity. }
  assert (S2 : is_skipped (instruction_line "addi"
                             [reg_name; reg_name; Text.to_string low'])
               = false).
  { unfold instruction_line, join_operands. norm_text.
    apply is_skipped_line; try reflexivity.
    repeat first [rewrite has_char_append | progress cbn [has_char]].
    rewrite (plain_no_colon _ Pr), (plain_no_colon _ Pl). reflexivity. }
  assert (E1 : encode "lui" [reg_name; Text.to_string upper]
               = Ok (assemble_u_type "lui" reg_name upper)).
  { rewrite encode_lui, stoi_number; [reflexivity|].
    unfold Int32.in_range, Int32.min_signed, Int32.max_signed. lia. }
  assert (E2 : encode "addi" [reg_name; reg_name; Text.to_string low']
               = Ok (assemble_i_type "addi" reg_name reg_name low')).
  { rewrite encode_addi, stoi_number; [reflexivity|].
    unfold Int32.in_range, Int32.min_signed, Int32.max_signed. lia. }
  destruct (read_two "lui" "addi" _ _ b _ _ eq_refl A1 S1 E1
              (assemble_u_type_word "lui" reg_name upper
                 (conj eq_refl eq_refl))
              eq_refl A2 S2 E2
              (assemble_i_type_word "addi" reg_name reg_name low'
                 (conj eq_refl eq_refl) (conj eq_refl eq_refl)))
    as (h1 & h2 & R & _ & _).
  assert (N : forall x : string,
             plain x = true ->
             no_newline ("    " +:+ instruction_line "lui" [reg_name; x]) = true
             /\ no_newline ("    " +:+ instruction_line "addi"
                                       [reg_name; reg_name; x]) = true).
  { intros x Px. unfold instruction_line, join_operands.
    rewrite !no_newline_append, (plain_no_newline _ Pr),
      (plain_no_newline _ Px). split; reflexivity. }
  eexists _, _, _, _, _, upper, low.
  split; [exact T|]. split; [exact (proj1 (N _ Pu))|].
  split; [exact (proj2 (N _ Pl))|]. split; [exact R|].
  cbn [binary]. rewrite value_lui, value_addi.
  rewrite (Z.mod_small upper) by lia.
  assert (M : low' mod 2 ^ 12 = low).
  { rewrite Hs. destruct (Z.ltb_spec low 2048);
      Z.to_euclidean_division_equations; lia. }
  rewrite M. rewrite <- Hs. fold low'.
  repeat split; lia.
Qed.

Lemma base_address_lines_assembled_witness :
  exists comments l1 l2 w1 w2 upper low,
    DFG.base_register_loading bank_config 20 2 1 ("x1", 4096)
    = comments +:+ l1 +:+ Text.nl +:+ l2 +:+ Text.nl +:+ Text.nl
    /\ no_newline l1 = true /\ no_newline l2 = true
    /\ read_loop [l1; l2] false = Ok [w1; w2]
    /\ 0 <= upper < 2 ^ 20 /\ 0 <= low < 2 ^ 12
    /\ value (binary w1)
       = upper * 2 ^ 12 + reg registers "x1" mod 2 ^ 5 * 2 ^ 7 + 0x37
    /\ value (binary w2)
       = low * 2 ^ 20 + reg registers "x1" mod 2 ^ 5 * 2 ^ 15
         + reg registers "x1" mod 2 ^ 5 * 2 ^ 7 + 0x13
    /\ (upper * 4096 + (if low <? 2048 then low else low - 4096)) mod 2 ^ 32
       = DFG.calculateClusterBaseAddress bank_config "x1" 1 2 20 mod 2 ^ 32.
Proof.
  apply (base_address_lines_assembled bank_config 20 2 1 4096 "x1" false).
  - discriminate.
  - reflexivity.
  - discriminate.
  - vm_compute. split; discriminate.
  - vm_compute. intros [_ H]. apply H. reflexivity.
Defined.

Lemma coefficient_register_name (n : Z) :
  reg registers_c ("c" +:+ Text.to_string n) = coefficient_register n.
Proof.
  unfold coefficient_register, registers_c.
  destruct (Z.leb_spec 0 n) as [H0|H0];
    [destruct (Z.ltb_spec n 32) as [H1|H1]|]; cbn [andb].
  - apply register_file_lookup; [apply NoDup_seqZ|].
    apply list_elem_of_In, elem_of_seqZ. lia.
  - unfold reg. rewrite assoc_absent; [reflexivity|].
    intros k v Hin. apply register_file_keys in Hin as [-> Hv].
    apply list_elem_of_In, elem_of_seqZ in Hv. intros Heq.
    apply String.app_inj, pretty_Z_inj in Heq. lia.
  - unfold reg. rewrite assoc_absent; [reflexivity|].
    intros k v Hin. apply register_file_keys in Hin as [-> Hv].
    apply list_elem_of_In, elem_of_seqZ in Hv. intros Heq.
    apply String.app_inj, pretty_Z_inj in Heq. lia.
Qed.

Lemma encode_corf_addi (rd rs1 imm_text : string) :
  encode "corf.addi" [rd; rs1; imm_text]
  = (imm ← Text.stoi imm_text;
     Ok (assemble_corf_addi "corf.addi" rd rs1 imm)).
Proof. reflexivity. Qed.

(** X29. For a non-zero coefficient of at most 4095, the one [corf.addi]
    line of the preload section is assembled into a word whose immediate
    field holds the coefficient modulo 4096, so a negative coefficient below
    -2048 is truncated; the two register fields hold the numbers of the
    target and of the first register of the group when these lie in 0..31,
    and register 0 otherwise. *)
Theorem coefficient_line_assembled (reg_base coefficient register : Z)
    (key : string) (b : bool) :
  DFG.key_register key = Ok register ->
  coefficient <> 0 -> coefficient <= 4095 -> Int32.in_range coefficient ->
  exists line word,
    DFG.preload_coefficient reg_base (key, coefficient)
    = Ok (line +:+ Text.nl)
    /\ read_loop [line] b = Ok [word]
    /\ op word = "corf.addi"
    /\ value (binary word)
       = coefficient mod 2 ^ 12 * 2 ^ 20
         + coefficient_register reg_base * 2 ^ 15
         + coefficient_register (Int32.add reg_base register) * 2 ^ 7
         + 0x14
    /\ to_hex (binary word) = Ok (hex word).
Proof.
  intros Hk Hnz Hle Hin.
  set (n := Int32.add reg_base register).
  set (rd := "c" +:+ Text.to_string n).
  set (rs := "c" +:+ Text.to_string reg_base).
  assert (T : DFG.preload_coefficient reg_base (key, coefficient)
              = Ok (("    " +:+ instruction_line "corf.addi"
                                  [rd; rs; Text.to_string coefficient])
                    +:+ Text.nl)).
  { unfold DFG.preload_coefficient.
    destruct (Z.eqb_spec coefficient 0) as [|_]; [contradiction|].
    rewrite Hk. cbn [mbind result_bind]. fold n.
    destruct (Z.gtb_spec coefficient 4095) as [|_]; [lia|].
    unfold instruction_line, join_operands, rd, rs. now norm_text. }
  destruct (to_string_plain n) as [Pn _].
  destruct (to_string_plain reg_base) as [Pb _].
  destruct (to_string_plain coefficient) as [Pc Ec].
  assert (Prd : plain rd = true) by (unfold rd; now rewrite plain_append, Pn).
  assert (Prs : plain rs = true) by (unfold rs; now rewrite plain_append, Pb).
  assert (A : forallb operand [rd; rs; Text.to_string coefficient] = true).
  { cbn [forallb].
    rewrite (plain_operand rd Prd eq_refl), (plain_operand rs Prs eq_refl),
      (plain_operand _ Pc Ec). reflexivity. }
  assert (S : is_skipped (instruction_line "corf.addi"
                            [rd; rs; Text.to_string coefficient]) = false).
  { unfold instruction_line, join_operands. norm_text.
    apply is_skipped_line; try reflexivity.
    repeat first [rewrite has_char_append | progress cbn [has_char]].
    rewrite (plain_no_colon _ Prd), (plain_no_colon _ Prs),
      (plain_no_colon _ Pc). reflexivity. }
  assert (E : encode "corf.addi" [rd; rs; Text.to_string coefficient]
              = Ok (assemble_corf_addi "corf.addi" rd rs coefficient)).
  { now rewrite encode_corf_addi, (stoi_number _ Hin). }
  destruct (read_single "corf.addi" _ b _ eq_refl A S E) as (h & R & X).
  { right. apply assemble_corf_addi_word; split; reflexivity. }
  eexists _, _. split; [exact T|]. split; [exact R|].
  cbn [op binary hex]. split; [reflexivity|]. split.
  - rewrite value_corf_addi. unfold rd, rs.
    rewrite !coefficient_register_name.
    assert (M : forall x, coefficient_register x mod 2 ^ 5
                          = coefficient_register x).
    { intros x. unfold coefficient_register.
      destruct (Z.leb_spec 0 x), (Z.ltb_spec x 32); cbn [andb];
        try reflexivity. apply Z.mod_small. lia. }
    now rewrite !M.
  - destruct (assemble_corf_addi "corf.addi" rd rs coefficient) eqn:W.
    + pose proof (assemble_corf_addi_word "corf.addi" rd rs coefficient) as Hw.
      rewrite W in Hw. destruct Hw as [Hl _]; [split; reflexivity..|].
      discriminate Hl.
    + exact X.
Qed.

Lemma coefficient_line_assembled_witness :
  exists line word,
    DFG.preload_coefficient 6 ("c1", -5000) = Ok (line +:+ Text.nl)
    /\ read_loop [line] false = Ok [word]
    /\ op word = "corf.addi"
    /\ value (binary word)
       = (-5000) mod 2 ^ 12 * 2 ^ 20 + coefficient_register 6 * 2 ^ 15
         + coefficient_register (Int32.add 6 1) * 2 ^ 7 + 0x14
    /\ to_hex (binary word) = Ok (hex word).
Proof.
  apply (coefficient_line_assembled 6 (-5000) 1 "c1" false).
  - reflexivity.
  - discriminate.
  - discriminate.
  - vm_compute. split; discriminate.
Defined.

End Toolchain.

Section FileNames.
Import Asm Samples.

Lemma pretty_N_go_digits (x : N) :
  forall s, all_digits s = true -> all_digits (pretty_N_go x s) = true.
Proof.
  induction (N.lt_wf_0 x) as [x _ IH]. intros s Hs.
  destruct (N.eq_dec x 0%N) as [->|Hx].
  - now rewrite pretty_N_go_0.
  - rewrite pretty_N_go_step by lia. apply IH; [apply N.div_lt; lia|].
    cbn [all_digits]. rewrite Hs, andb_true_r.
    apply pretty_N_char_digit, N.mod_lt. lia.
Qed.

Lemma to_string_digits (z : Z) :
  0 <= z -> all_digits (Text.to_string z) = true.
Proof.
  intros Hz. unfold Text.to_string. destruct z as [|p|p]; [reflexivity| |lia].
  change (pretty (Z.pos p)) with (pretty (N.pos p)). unfold pretty, pretty_N.
  destruct (decide (N.pos p = 0%N)) as [H|_]; [discriminate H|].
  now apply pretty_N_go_digits.
Qed.

Lemma take_digits_all (ds rest : string) :
  all_digits ds = true -> Text.leading_digit rest = false ->
  take_digits (ds +:+ rest) = (ds, rest).
Proof.
  intros Hd Hr. induction ds as [|c ds IH].
  - rewrite append_nil_l. destruct rest as [|c r]; [reflexivity|].
    cbn [Text.leading_digit] in Hr. cbn [take_digits]. now rewrite Hr.
  - cbn [all_digits] in Hd. apply andb_true_iff in Hd as [Hc Hd].
    rewrite append_cons. cbn [take_digits]. now rewrite Hc, (IH Hd).
Qed.

Lemma regex_search_pe_skip (folder rest : string) :
  no_pe folder = true ->
  regex_search_pe (folder +:+ String "p" rest)
  = regex_search_pe (String "p" rest).
Proof.
  induction folder as [|c folder IH]; intros H; [reflexivity|].
  rewrite append_cons.
  assert (M : match_pe_here (String c (folder +:+ String "p" rest)) = None).
  { destruct folder as [|c' folder].
    - rewrite append_nil_l. unfold match_pe_here.
      destruct c as [[] [] [] [] [] [] [] []]; reflexivity.
    - rewrite append_cons. cbn [no_pe] in H.
      apply andb_true_iff in H as [H _]. apply negb_true_iff in H.
      unfold match_pe_here.
      destruct c as [[] [] [] [] [] [] [] []]; try reflexivity.
      destruct c' as [[] [] [] [] [] [] [] []]; try reflexivity.
      discriminate H. }
  change (regex_search_pe (String c (folder +:+ String "p" rest)))
    with (match match_pe_here (String c (folder +:+ String "p" rest)) with
          | Some digits => Some digits
          | None => regex_search_pe (folder +:+ String "p" rest)
          end).
  rewrite M. apply IH.
  destruct folder as [|c' folder]; [reflexivity|].
  cbn [no_pe] in H. now apply andb_true_iff in H as [_ H].
Qed.

Lemma generate_pe_name (d : DFG.DFGProcessor) (pe : Z) (f : DFG.AssemblyFile) :
  DFG.generate_pe d pe = Ok (Some f) ->
  DFG.file_name f
  = DFG.output_folder d +:+ "pe" +:+ Text.to_string pe +:+ "_assembly.s".
Proof.
  unfold DFG.generate_pe.
  destruct (DFG.pes_per_cluster d =? 0); [discriminate|].
  destruct (_ >? _); [discriminate|].
  destruct (DFG.pe_assignments d !! _) as [a|]; [|discriminate].
  destruct (_ || _); [discriminate|].
  destruct (DFG.pe_program d pe a) as [text|]; cbn [mbind result_bind];
    [|discriminate].
  now intros [= <-].
Qed.

(** X27. The assembler finds in the name of a file written by
    [generateAssembly] the number of the PE the file was written for, when
    the output folder holds no [pe]: the pattern [pe(\d+)_] first matches the
    number the generator printed. *)
Theorem file_name_pe_number (d : DFG.DFGProcessor) (pe : Z)
    (f : DFG.AssemblyFile) :
  DFG.generate_pe d pe = Ok (Some f) ->
  0 <= pe <= Int32.max_signed ->
  no_pe (DFG.output_folder d) = true ->
  pe_number_of (DFG.file_name f) = Ok pe.
Proof.
  intros Hf Hpe Hfolder. rewrite (generate_pe_name d pe f Hf).
  unfold pe_number_of.
  change ("pe" +:+ Text.to_string pe +:+ "_assembly.s")
    with (String "p" (String "e" (Text.to_string pe +:+ "_assembly.s"))).
  rewrite (regex_search_pe_skip _ _ Hfolder).
  destruct (to_string_plain pe) as [_ Ene].
  destruct (nonempty_cons _ Ene) as (c & r & E).
  assert (M : match_pe_here
                (String "p" (String "e" (Text.to_string pe +:+ "_assembly.s")))
              = Some (Text.to_string pe)).
  { cbn [match_pe_here].
    rewrite (take_digits_all _ "_assembly.s" (to_string_digits pe (proj1 Hpe))
               eq_refl).
    rewrite E. reflexivity. }
  change (regex_search_pe
            (String "p" (String "e" (Text.to_string pe +:+ "_assembly.s"))))
    with (match match_pe_here
                  (String "p" (String "e" (Text.to_string pe +:+ "_assembly.s")))
          with
          | Some digits => Some digits
          | None => regex_search_pe
                      (String "e" (Text.to_string pe +:+ "_assembly.s"))
          end).
  rewrite M. apply stoi_number.
  unfold Int32.in_range, Int32.min_signed. unfold Int32.max_signed in *. lia.
Qed.

Lemma file_name_pe_number_witness :
  exists f,
    DFG.generate_pe emit_config 2 = Ok (Some f)
    /\ pe_number_of (DFG.file_name f) = Ok 2.
Proof.
  destruct (DFG.generate_pe emit_config 2) as [[f|]|] eqn:H.
  - exists f. split; [reflexivity|].
    apply (file_name_pe_number emit_config 2 f H).
    + vm_compute. split; discriminate.
    + reflexivity.
  - vm_compute in H. discriminate H.
  - vm_compute in H. discriminate H.
Defined.

End FileNames.
